(** * Plugin lifecycle manager: a shallow embedding of
      [src/services/pluginManagerService.ts]

    The TypeScript service keeps a table of plugin records, applies and
    reverts the components a plugin contributes to the host runtime, installs
    plugin artifacts and caches the remote registry index.  The embedding
    follows the source function by function:

    - JavaScript objects with identity (plugin objects, event handlers,
      service instances, component objects) carry an explicit reference
      number; [===] on them is equality of that number;
    - the manager's [plugins] Map and a record's [eventHandlers] Map are
      association lists in insertion order, because the source iterates
      them; the other Maps and Sets are only read by key and are [gmap]s and
      [gset]s;
    - every [async] method is a computation in the monad [M]: a state
      transformer that either returns a value or throws, and that keeps the
      mutations made before a throw, as JavaScript does;
    - what the host process, the network, the file system and external tools
      answer is an input, gathered in the record [World];
    - a JavaScript string is the byte string of its UTF-8 encoding, and
      paths are those of Node's [path.posix]. *)

From stdpp Require Import gmap strings list fin_maps pretty.
From Stdlib Require Import ZArith.

#[local] Open Scope string_scope.
#[local] Open Scope Z_scope.
#[local] Open Scope list_scope.

(** ** Data model *)

(** References stand for JavaScript object identity. *)
Definition Ref := nat.

(** An [Action], a [Provider] or an [Evaluator] of [@elizaos/core]: the
    manager only ever reads the [name] of such a component. *)
Record Component := {
  c_name : string;
  c_ref : Ref;
}.

Definition Action := Component.
Definition Provider := Component.
Definition Evaluator := Component.

(** An event handler is a function object; only its identity matters. *)
Definition Handler := Ref.

(** A running service instance; [stop] is what its [stop()] hook does:
    [Some m] when it rejects with message [m]. *)
Record Service := {
  svc_ref : Ref;
  stop : option string;
}.

(** A service class: its static [serviceType] and what its static
    [start(runtime)] does, either rejecting with a message or resolving to
    an instance. *)
Record ServiceClass := {
  serviceType : string;
  start : string + Service;
}.

(** A value thrown by code that is not the service's own.  JavaScript can
    throw any value; of a caught value the service reads the text
    [error instanceof Error ? error.message : String(error)] and, in
    [loadInstalledPlugin], the member [error.message]. *)
Inductive Thrown :=
| ErrorObject (msg : string)   (* an [Error] object with this message *)
| ThrownUndefined              (* [throw undefined] *)
| ThrownNull                   (* [throw null] *)
| ThrownValue (text : string) (msg : option string).
                               (* any other value [v]: [String(v)] and
                                  [v.message], a string when it is there *)

(** Where a message stands for a thrown value, the value is an [Error] with
    that message. *)
Coercion ErrorObject : string >-> Thrown.

(** [error instanceof Error ? error.message : String(error)] *)
Definition thrown_text (v : Thrown) : string :=
  match v with
  | ErrorObject msg => msg
  | ThrownUndefined => "undefined"
  | ThrownNull => "null"
  | ThrownValue text _ => text
  end.

(** [error.message]: [None] when reading the member throws a [TypeError],
    as it does on [undefined] and [null]; otherwise the member's value,
    [None] for [undefined]. *)
Definition thrown_message (v : Thrown) : option (option string) :=
  match v with
  | ErrorObject msg => Some (Some msg)
  | ThrownUndefined | ThrownNull => None
  | ThrownValue _ msg => Some msg
  end.

(** What calling the plugin's [init] hook does: it returns, or it throws
    some value. *)
Inductive InitHook :=
| InitReturns
| InitThrows (v : Thrown).

(** The [Plugin] object of [@elizaos/core], restricted to the members the
    manager reads.  An absent array member is the empty list: the source
    guards every loop with [if (plugin.actions)]. *)
Record Plugin := {
  plugin_ref : Ref;
  plugin_name : string;
  init : option InitHook;
  actions : list Action;
  providers : list Provider;
  evaluators : list Evaluator;
  events : list (string * list Handler);
  services : list ServiceClass;
}.

Inductive PluginStatus := READY | LOADED | UNLOADED | ERROR.

Inductive EventType :=
| PLUGIN_BUILDING | PLUGIN_LOADED | PLUGIN_UNLOADED | PLUGIN_ERROR | PLUGIN_READY.

Inductive ComponentType :=
| CTaction | CTprovider | CTevaluator | CTeventHandler | CTservice.

#[global] Instance Component_eq_dec : EqDecision Component.
Proof. solve_decision. Defined.
#[global] Instance Service_eq_dec : EqDecision Service.
Proof. solve_decision. Defined.
#[global] Instance ServiceClass_eq_dec : EqDecision ServiceClass.
Proof. solve_decision. Defined.
#[global] Instance Thrown_eq_dec : EqDecision Thrown.
Proof. solve_decision. Defined.
#[global] Instance InitHook_eq_dec : EqDecision InitHook.
Proof. solve_decision. Defined.
#[global] Instance Plugin_eq_dec : EqDecision Plugin.
Proof. solve_decision. Defined.
#[global] Instance PluginStatus_eq_dec : EqDecision PluginStatus.
Proof. solve_decision. Defined.
#[global] Instance EventType_eq_dec : EqDecision EventType.
Proof. solve_decision. Defined.
#[global] Instance ComponentType_eq_dec : EqDecision ComponentType.
Proof. solve_decision. Defined.

(** [PluginComponents]: the component set a record owns. *)
Record PluginComponents := {
  pc_actions : gset string;
  pc_providers : gset string;
  pc_evaluators : gset string;
  pc_services : gset string;
  pc_eventHandlers : list (string * list Handler);
}.

Definition emptyComponents : PluginComponents :=
  {| pc_actions := ∅; pc_providers := ∅; pc_evaluators := ∅;
     pc_services := ∅; pc_eventHandlers := [] |}.

(** [PluginState]: one record of the manager's [plugins] table. *)
Record PluginState := {
  ps_id : string;
  ps_name : string;
  ps_status : PluginStatus;
  ps_plugin : option Plugin;
  ps_missingEnvVars : list string;
  ps_buildLog : list string;
  ps_createdAt : Z;
  ps_loadedAt : option Z;
  ps_unloadedAt : option Z;
  ps_error : option string;
  ps_components : PluginComponents;
}.

Record ComponentRegistration := {
  cr_pluginId : string;
  cr_componentType : ComponentType;
  cr_componentName : string;
  cr_timestamp : Z;
}.

(** One entry of [requiredEnvVars] in a [DynamicPluginInfo]. *)
Record EnvVar := {
  ev_name : string;
  ev_description : string;
  ev_sensitive : bool;
  ev_isSet : bool;
}.

Inductive InstallStatus :=
| installed | loaded | active | inactive | error | needs_configuration.

#[global] Instance InstallStatus_eq_dec : EqDecision InstallStatus.
Proof. solve_decision. Defined.

Record DynamicPluginInfo := {
  dpi_name : string;
  dpi_version : string;
  dpi_status : InstallStatus;
  dpi_path : string;
  dpi_requiredEnvVars : list EnvVar;
  dpi_errorDetails : option string;
  dpi_installedAt : Z;
  dpi_lastActivated : option Z;
}.

(** [RegistryEntry]: optional members are [option]s. *)
Record NpmRef := { npm_repo : string; npm_v1 : option string }.
Record GitV1 := { git_branch : option string; git_version : option string }.
Record GitRef := { git_repo : string; git_v1 : option GitV1 }.

Record RegistryEntry := {
  re_name : string;
  re_description : option string;
  re_repository : string;
  re_npm : option NpmRef;
  re_git : option GitRef;
}.

(** The module-level [registryCache] slot. *)
Record RegistryCache := {
  rc_data : gmap string RegistryEntry;
  rc_timestamp : Z;
}.

(** The part of a [package.json] manifest the manager reads. *)
Record EnvDecl := {
  ed_name : string;
  ed_description : string;
  ed_sensitive : option bool;
}.

Record PackageJson := {
  pj_name : option string;
  pj_version : option string;
  pj_main : option string;
  pj_requiredEnvVars : option (list EnvDecl);
}.

(** ** Errors *)

(** Every [throw new Error(...)] site of the service, plus [Foreign] for a
    value thrown by code the manager calls into: a plugin's [init], which may
    throw any value, and the host, the file system and the external tools,
    which throw [Error] objects. *)
Inductive Error :=
| NotFound (pluginId : string)
| InvalidState (name : string) (st : PluginStatus)
| MissingInstance (name : string)
| ProtectedPlugin (name : string)
| AlreadyRegistered (name : string)
| StateNotFound
| NotInRegistry (name : string)
| NoInstallMethod (name : string)
| BundleNotFound (path : string)
| UnsupportedBundleFormat
| ManifestUnreadable (path : string)
| NotInstalled (name : string)
| ConfigurationRequired (name : string)
| ModuleLoadFailed
| RegistryFetchFailed (statusText : string)
| Foreign (v : Thrown).

#[global] Instance Error_eq_dec : EqDecision Error.
Proof. solve_decision. Defined.

(** Modelled from the spec: the string values of the [PluginStatus]
    enumeration are declared in [../types], which is not part of the
    sources at hand; the spec's state names are used. *)
Definition status_text (st : PluginStatus) : string :=
  match st with
  | READY => "READY" | LOADED => "LOADED"
  | UNLOADED => "UNLOADED" | ERROR => "ERROR"
  end.

(** [error instanceof Error ? error.message : String(error)] of each thrown
    value; it is [error.message] for every error but a [Foreign] one that is
    not an [Error] object. *)
Definition message (e : Error) : string :=
  match e with
  | NotFound i => "Plugin " +:+ i +:+ " not found in registry"
  | InvalidState n st =>
      "Plugin " +:+ n +:+ " is not ready to load (status: " +:+ status_text st +:+ ")"
  | MissingInstance n => "Plugin " +:+ n +:+ " has no plugin instance"
  | ProtectedPlugin n => "Cannot unload original plugin " +:+ n
  | AlreadyRegistered n => "Plugin " +:+ n +:+ " already registered"
  | StateNotFound => "Plugin state not found during component registration"
  | NotInRegistry n => "Plugin " +:+ n +:+ " not found in registry"
  | NoInstallMethod n => "No installation method available for plugin " +:+ n
  | BundleNotFound p => "Bundle path does not exist: " +:+ p
  | UnsupportedBundleFormat => "Compressed bundle installation not yet implemented"
  | ManifestUnreadable p => "Failed to read package.json from " +:+ p
  | NotInstalled n => "Plugin " +:+ n +:+ " is not installed"
  | ConfigurationRequired n => "Plugin " +:+ n +:+ " requires configuration before loading"
  | ModuleLoadFailed => "Failed to load plugin module"
  | RegistryFetchFailed t => "Registry fetch failed: " +:+ t
  | Foreign v => thrown_text v
  end.

(** [error.message] of each thrown value, as [thrown_message] gives it. *)
Definition messageProperty (e : Error) : option (option string) :=
  match e with
  | Foreign v => thrown_message v
  | _ => Some (Some (message e))
  end.

(** The [TypeError] the engine throws when [error.message] is read on
    [undefined] or [null]. *)
Definition cannotReadMessage (e : Error) : Error :=
  Foreign (ErrorObject
    ("Cannot read properties of " +:+ message e +:+ " (reading 'message')")).

(** ** The outside world *)

(** What [fetch(REGISTRY_URL)] followed by [response.json()] yields. *)
Inductive FetchOutcome :=
| FetchRejects (msg : string)
| FetchNotOk (statusText : string)
| FetchBadJson (msg : string)
| FetchData (data : gmap string RegistryEntry).

(** External commands and file-system writes the installer issues. *)
Inductive Command :=
| EnsureDir (dir : string)
| NpmInstall (package version prefix : string)
| GitClone (repo dir : string)
| GitCheckout (version cwd : string)
| NpmInstallDeps (cwd : string)
| CopyDir (src dst : string)
| RemoveDir (dir : string).

(** What [fs.readJson] yields. *)
Inductive ReadJson :=
| ReadThrows (msg : string)
| ReadNull
| ReadOk (pj : PackageJson).

(** Everything the service obtains from outside itself during one call. *)
Record World := {
  w_now : Z;                                  (* Date.now() *)
  w_uuid : string -> string;                  (* createUniqueUuid(runtime, name) *)
  w_fetch : FetchOutcome;
  w_host_fault : string -> option string;     (* Some m: the host rejects registering
                                                 this name with an Error of message m *)
  w_run : Command -> option string;           (* Some m: the command throws an Error
                                                 of message m *)
  w_pathExists : string -> bool;
  w_isDirectory : string -> bool;
  w_readJson : string -> ReadJson;
  w_import : string -> option Plugin;         (* the valid plugin export of a module, if any *)
  w_env : gmap string string;                 (* process.env; no method of the service reads it *)
}.

(** ** The host runtime *)

(** [IAgentRuntime] as the repository's test harness provides it: arrays for
    actions, providers, evaluators and plugins, Maps for services and events,
    and a log of the lifecycle events emitted. *)
Record Runtime := {
  rt_actions : list Action;
  rt_providers : list Provider;
  rt_evaluators : list Evaluator;
  rt_services : gmap string Service;
  rt_events : gmap string (list Handler);
  rt_plugins : list Plugin;
  rt_emitted : list (EventType * string);
}.

(** ** The service's state *)

Record State := {
  runtime : Runtime;
  plugins : list (string * PluginState);
  pluginDirectory : string;
  originalPlugins : list Plugin;
  originalActions : gset string;
  originalProviders : gset string;
  originalEvaluators : gset string;
  originalServices : gset string;
  installedPlugins : gmap string DynamicPluginInfo;
  componentRegistry : gmap string (list ComponentRegistration);
  registryCache : option RegistryCache;
}.

(** Field updates; Rocq has no record-update syntax. *)
Definition set_rt_actions (f : list Action -> list Action) (r : Runtime) : Runtime :=
  {| rt_actions := f (rt_actions r); rt_providers := rt_providers r;
     rt_evaluators := rt_evaluators r; rt_services := rt_services r;
     rt_events := rt_events r; rt_plugins := rt_plugins r;
     rt_emitted := rt_emitted r |}.

Definition set_rt_providers (f : list Provider -> list Provider) (r : Runtime) : Runtime :=
  {| rt_actions := rt_actions r; rt_providers := f (rt_providers r);
     rt_evaluators := rt_evaluators r; rt_services := rt_services r;
     rt_events := rt_events r; rt_plugins := rt_plugins r;
     rt_emitted := rt_emitted r |}.

Definition set_rt_evaluators (f : list Evaluator -> list Evaluator) (r : Runtime) : Runtime :=
  {| rt_actions := rt_actions r; rt_providers := rt_providers r;
     rt_evaluators := f (rt_evaluators r); rt_services := rt_services r;
     rt_events := rt_events r; rt_plugins := rt_plugins r;
     rt_emitted := rt_emitted r |}.

Definition set_rt_services (f : gmap string Service -> gmap string Service)
    (r : Runtime) : Runtime :=
  {| rt_actions := rt_actions r; rt_providers := rt_providers r;
     rt_evaluators := rt_evaluators r; rt_services := f (rt_services r);
     rt_events := rt_events r; rt_plugins := rt_plugins r;
     rt_emitted := rt_emitted r |}.

Definition set_rt_events (f : gmap string (list Handler) -> gmap string (list Handler))
    (r : Runtime) : Runtime :=
  {| rt_actions := rt_actions r; rt_providers := rt_providers r;
     rt_evaluators := rt_evaluators r; rt_services := rt_services r;
     rt_events := f (rt_events r); rt_plugins := rt_plugins r;
     rt_emitted := rt_emitted r |}.

Definition set_rt_plugins (f : list Plugin -> list Plugin) (r : Runtime) : Runtime :=
  {| rt_actions := rt_actions r; rt_providers := rt_providers r;
     rt_evaluators := rt_evaluators r; rt_services := rt_services r;
     rt_events := rt_events r; rt_plugins := f (rt_plugins r);
     rt_emitted := rt_emitted r |}.

Definition set_rt_emitted (f : list (EventType * string) -> list (EventType * string))
    (r : Runtime) : Runtime :=
  {| rt_actions := rt_actions r; rt_providers := rt_providers r;
     rt_evaluators := rt_evaluators r; rt_services := rt_services r;
     rt_events := rt_events r; rt_plugins := rt_plugins r;
     rt_emitted := f (rt_emitted r) |}.

Definition set_runtime (f : Runtime -> Runtime) (s : State) : State :=
  {| runtime := f (runtime s); plugins := plugins s;
     pluginDirectory := pluginDirectory s;
     originalPlugins := originalPlugins s; originalActions := originalActions s;
     originalProviders := originalProviders s;
     originalEvaluators := originalEvaluators s;
     originalServices := originalServices s;
     installedPlugins := installedPlugins s;
     componentRegistry := componentRegistry s;
     registryCache := registryCache s |}.

Definition set_plugins (f : list (string * PluginState) -> list (string * PluginState))
    (s : State) : State :=
  {| runtime := runtime s; plugins := f (plugins s);
     pluginDirectory := pluginDirectory s;
     originalPlugins := originalPlugins s; originalActions := originalActions s;
     originalProviders := originalProviders s;
     originalEvaluators := originalEvaluators s;
     originalServices := originalServices s;
     installedPlugins := installedPlugins s;
     componentRegistry := componentRegistry s;
     registryCache := registryCache s |}.

Definition set_installedPlugins
    (f : gmap string DynamicPluginInfo -> gmap string DynamicPluginInfo)
    (s : State) : State :=
  {| runtime := runtime s; plugins := plugins s;
     pluginDirectory := pluginDirectory s;
     originalPlugins := originalPlugins s; originalActions := originalActions s;
     originalProviders := originalProviders s;
     originalEvaluators := originalEvaluators s;
     originalServices := originalServices s;
     installedPlugins := f (installedPlugins s);
     componentRegistry := componentRegistry s;
     registryCache := registryCache s |}.

Definition set_componentRegistry
    (f : gmap string (list ComponentRegistration) -> gmap string (list ComponentRegistration))
    (s : State) : State :=
  {| runtime := runtime s; plugins := plugins s;
     pluginDirectory := pluginDirectory s;
     originalPlugins := originalPlugins s; originalActions := originalActions s;
     originalProviders := originalProviders s;
     originalEvaluators := originalEvaluators s;
     originalServices := originalServices s;
     installedPlugins := installedPlugins s;
     componentRegistry := f (componentRegistry s);
     registryCache := registryCache s |}.

Definition set_registryCache (c : option RegistryCache) (s : State) : State :=
  {| runtime := runtime s; plugins := plugins s;
     pluginDirectory := pluginDirectory s;
     originalPlugins := originalPlugins s; originalActions := originalActions s;
     originalProviders := originalProviders s;
     originalEvaluators := originalEvaluators s;
     originalServices := originalServices s;
     installedPlugins := installedPlugins s;
     componentRegistry := componentRegistry s;
     registryCache := c |}.

Definition set_ps_components (f : PluginComponents -> PluginComponents)
    (p : PluginState) : PluginState :=
  {| ps_id := ps_id p; ps_name := ps_name p; ps_status := ps_status p;
     ps_plugin := ps_plugin p; ps_missingEnvVars := ps_missingEnvVars p;
     ps_buildLog := ps_buildLog p; ps_createdAt := ps_createdAt p;
     ps_loadedAt := ps_loadedAt p; ps_unloadedAt := ps_unloadedAt p;
     ps_error := ps_error p; ps_components := f (ps_components p) |}.

Definition set_pc_actions (f : gset string -> gset string) (c : PluginComponents) :=
  {| pc_actions := f (pc_actions c); pc_providers := pc_providers c;
     pc_evaluators := pc_evaluators c; pc_services := pc_services c;
     pc_eventHandlers := pc_eventHandlers c |}.

Definition set_pc_providers (f : gset string -> gset string) (c : PluginComponents) :=
  {| pc_actions := pc_actions c; pc_providers := f (pc_providers c);
     pc_evaluators := pc_evaluators c; pc_services := pc_services c;
     pc_eventHandlers := pc_eventHandlers c |}.

Definition set_pc_evaluators (f : gset string -> gset string) (c : PluginComponents) :=
  {| pc_actions := pc_actions c; pc_providers := pc_providers c;
     pc_evaluators := f (pc_evaluators c); pc_services := pc_services c;
     pc_eventHandlers := pc_eventHandlers c |}.

Definition set_pc_services (f : gset string -> gset string) (c : PluginComponents) :=
  {| pc_actions := pc_actions c; pc_providers := pc_providers c;
     pc_evaluators := pc_evaluators c; pc_services := f (pc_services c);
     pc_eventHandlers := pc_eventHandlers c |}.

Definition set_pc_eventHandlers
    (f : list (string * list Handler) -> list (string * list Handler))
    (c : PluginComponents) :=
  {| pc_actions := pc_actions c; pc_providers := pc_providers c;
     pc_evaluators := pc_evaluators c; pc_services := pc_services c;
     pc_eventHandlers := f (pc_eventHandlers c) |}.

(** ** The monad of the service's methods *)

Inductive Result (A : Type) :=
| Ok (a : A)
| Throw (e : Error).
Arguments Ok {A} a.
Arguments Throw {A} e.

(** A method runs on a state and ends by returning or by throwing; either
    way the state it leaves carries every mutation made so far. *)
Definition M (A : Type) : Type := State -> Result A * State.

#[global] Instance M_ret : MRet M := fun A a s => (Ok a, s).

#[global] Instance M_bind : MBind M := fun A B k m s =>
  match m s with
  | (Ok a, s') => k a s'
  | (Throw e, s') => (Throw e, s')
  end.

Definition throw {A} (e : Error) : M A := fun s => (Throw e, s).

(** [try { m } catch (e) { h e }] *)
Definition try_catch {A} (m : M A) (h : Error -> M A) : M A := fun s =>
  match m s with
  | (Ok a, s') => (Ok a, s')
  | (Throw e, s') => h e s'
  end.

(** [try { m } finally { c }] *)
Definition try_finally {A} (m : M A) (c : M unit) : M A := fun s =>
  match m s with
  | (r, s') =>
      match c s' with
      | (Ok _, s'') => (r, s'')
      | (Throw e, s'') => (Throw e, s'')
      end
  end.

Definition gets {A} (f : State -> A) : M A := fun s => (Ok (f s), s).
Definition modify (f : State -> State) : M unit := fun s => (Ok tt, f s).

(** [for (const x of l) { await f(x) }] *)
Fixpoint forM_ {A} (l : list A) (f : A -> M unit) : M unit :=
  match l with
  | [] => mret tt
  | x :: l' => f x ;; forM_ l' f
  end.

(** ** JavaScript containers *)

(** [Map.prototype.get] on an insertion-ordered Map. *)
Fixpoint alist_get {V} (k : string) (l : list (string * V)) : option V :=
  match l with
  | [] => None
  | (k', v) :: l' => if decide (k' = k) then Some v else alist_get k l'
  end.

(** [Map.prototype.set]: an existing key keeps its position, a new key goes
    last. *)
Fixpoint alist_set {V} (k : string) (v : V) (l : list (string * V)) : list (string * V) :=
  match l with
  | [] => [(k, v)]
  | (k', v') :: l' =>
      if decide (k' = k) then (k, v) :: l' else (k', v') :: alist_set k v l'
  end.

(** [Set.prototype.add] on an insertion-ordered Set of references. *)
Definition oset_add (h : Handler) (l : list Handler) : list Handler :=
  if decide (h ∈ l) then l else l ++ [h].

(** [array.findIndex(x => x.name === n)] followed by [splice(index, 1)] when
    the index is not -1: the first element named [n] goes. *)
Fixpoint remove_first {A} (p : A -> bool) (l : list A) : list A :=
  match l with
  | [] => []
  | x :: l' => if p x then l' else x :: remove_first p l'
  end.

Definition named (n : string) (c : Component) : bool := bool_decide (c_name c = n).
Definition plugin_named (n : string) (p : Plugin) : bool := bool_decide (plugin_name p = n).

(** The host's event Map: [events.get(name) ?? []], then [push(handler)]. *)
Definition addHandler (eventName : string) (h : Handler)
    (m : gmap string (list Handler)) : gmap string (list Handler) :=
  <[eventName := default [] (m !! eventName) ++ [h]]> m.

(** Modelled from the spec: the host's event Map once [unregisterEvent]
    of [../coreExtensions], whose source is missing, has unregistered
    [handler] from [eventName].  Exactly that handler reference leaves the
    event's array, not the whole event; as the extension's tests require, the
    entry goes when the array is left empty, and an unknown event is
    ignored. *)
Definition dropHandler (eventName : string) (h : Handler)
    (m : gmap string (list Handler)) : gmap string (list Handler) :=
  match m !! eventName with
  | None => m
  | Some hs =>
      match filter (fun x => x ≠ h) hs with
      | [] => delete eventName m
      | hs' => <[eventName := hs']> m
      end
  end.

(** [if (!eventHandlers.has(eventName)) eventHandlers.set(eventName, new Set())] *)
Definition ensureEvent (eventName : string) (m : list (string * list Handler))
    : list (string * list Handler) :=
  match alist_get eventName m with
  | Some _ => m
  | None => alist_set eventName [] m
  end.

(** [eventHandlers.get(eventName)!.add(handler)] *)
Definition trackHandler (eventName : string) (h : Handler)
    (m : list (string * list Handler)) : list (string * list Handler) :=
  alist_set eventName (oset_add h (default [] (alist_get eventName m))) m.

(** A JavaScript string is truthy when it is not empty. *)
Definition truthy (o : option string) : option string :=
  match o with
  | Some "" => None
  | o => o
  end.

(** [a || b] on optional strings. *)
Definition or_else (a b : option string) : option string :=
  match truthy a with
  | Some x => Some x
  | None => truthy b
  end.

(** [entry.npm?.repo], [entry.npm.v1], [entry.git?.repo],
    [entry.git.v1?.version] and [entry.git.v1?.branch]. *)
Definition entry_npm_repo (entry : RegistryEntry) : option string :=
  match re_npm entry with
  | Some n => Some (npm_repo n)
  | None => None
  end.

Definition entry_npm_v1 (entry : RegistryEntry) : option string :=
  match re_npm entry with
  | Some n => npm_v1 n
  | None => None
  end.

Definition entry_git_repo (entry : RegistryEntry) : option string :=
  match re_git entry with
  | Some g => Some (git_repo g)
  | None => None
  end.

Definition entry_git_version (entry : RegistryEntry) : option string :=
  match re_git entry with
  | Some {| git_v1 := Some v |} => git_version v
  | _ => None
  end.

Definition entry_git_branch (entry : RegistryEntry) : option string :=
  match re_git entry with
  | Some {| git_v1 := Some v |} => git_branch v
  | _ => None
  end.

(** ** The three kinds of named component *)

(** The source treats actions, providers and evaluators with the same code,
    written out three times.  A [Kind] selects the plugin member, the host
    array, the original-name set and the owned-name set the code works on. *)
Inductive Kind := KAction | KProvider | KEvaluator.

Definition declared (k : Kind) (plugin : Plugin) : list Component :=
  match k with
  | KAction => actions plugin
  | KProvider => providers plugin
  | KEvaluator => evaluators plugin
  end.

Definition hostList (k : Kind) (rt : Runtime) : list Component :=
  match k with
  | KAction => rt_actions rt
  | KProvider => rt_providers rt
  | KEvaluator => rt_evaluators rt
  end.

Definition set_hostList (k : Kind) (f : list Component -> list Component)
    (rt : Runtime) : Runtime :=
  match k with
  | KAction => set_rt_actions f rt
  | KProvider => set_rt_providers f rt
  | KEvaluator => set_rt_evaluators f rt
  end.

Definition originalNames (k : Kind) (s : State) : gset string :=
  match k with
  | KAction => originalActions s
  | KProvider => originalProviders s
  | KEvaluator => originalEvaluators s
  end.

Definition owned (k : Kind) (c : PluginComponents) : gset string :=
  match k with
  | KAction => pc_actions c
  | KProvider => pc_providers c
  | KEvaluator => pc_evaluators c
  end.

Definition set_owned (k : Kind) (f : gset string -> gset string)
    (c : PluginComponents) : PluginComponents :=
  match k with
  | KAction => set_pc_actions f c
  | KProvider => set_pc_providers f c
  | KEvaluator => set_pc_evaluators f c
  end.

Definition kindType (k : Kind) : ComponentType :=
  match k with
  | KAction => CTaction
  | KProvider => CTprovider
  | KEvaluator => CTevaluator
  end.

(** ** Looking a record up by its plugin object *)

(** [p.plugin === plugin] *)
Definition same_plugin (plugin : Plugin) (ps : PluginState) : bool :=
  match ps_plugin ps with
  | Some q => bool_decide (plugin_ref q = plugin_ref plugin)
  | None => false
  end.

(** [Array.from(this.plugins.values()).find((p) => p.plugin === plugin)] *)
Fixpoint findPluginState (plugin : Plugin) (l : list (string * PluginState))
    : option PluginState :=
  match l with
  | [] => None
  | (_, ps) :: l' => if same_plugin plugin ps then Some ps else findPluginState plugin l'
  end.

(** A mutation of [pluginState.components] where [pluginState] is the record
    found above: the record is an object shared with the table, so the table
    sees the mutation. *)
Fixpoint update_found (plugin : Plugin) (f : PluginComponents -> PluginComponents)
    (l : list (string * PluginState)) : list (string * PluginState) :=
  match l with
  | [] => []
  | (k, ps) :: l' =>
      if same_plugin plugin ps then (k, set_ps_components f ps) :: l'
      else (k, ps) :: update_found plugin f l'
  end.

Definition withComponents (plugin : Plugin) (f : PluginComponents -> PluginComponents)
    : M unit :=
  modify (set_plugins (update_found plugin f)).

(** The three [Partial<PluginState>] updates the service applies. *)
Definition loaded_update (now : Z) (p : PluginState) : PluginState :=
  {| ps_id := ps_id p; ps_name := ps_name p; ps_status := LOADED;
     ps_plugin := ps_plugin p; ps_missingEnvVars := ps_missingEnvVars p;
     ps_buildLog := ps_buildLog p; ps_createdAt := ps_createdAt p;
     ps_loadedAt := Some now; ps_unloadedAt := ps_unloadedAt p;
     ps_error := None; ps_components := ps_components p |}.

Definition unloaded_update (now : Z) (p : PluginState) : PluginState :=
  {| ps_id := ps_id p; ps_name := ps_name p; ps_status := UNLOADED;
     ps_plugin := ps_plugin p; ps_missingEnvVars := ps_missingEnvVars p;
     ps_buildLog := ps_buildLog p; ps_createdAt := ps_createdAt p;
     ps_loadedAt := ps_loadedAt p; ps_unloadedAt := Some now;
     ps_error := ps_error p; ps_components := ps_components p |}.

Definition error_update (errorMsg : string) (p : PluginState) : PluginState :=
  {| ps_id := ps_id p; ps_name := ps_name p; ps_status := ERROR;
     ps_plugin := ps_plugin p; ps_missingEnvVars := ps_missingEnvVars p;
     ps_buildLog := ps_buildLog p; ps_createdAt := ps_createdAt p;
     ps_loadedAt := ps_loadedAt p; ps_unloadedAt := ps_unloadedAt p;
     ps_error := Some errorMsg; ps_components := ps_components p |}.

(** ** Paths *)

(** Node's [path.join], [path.normalize] and [path.dirname] on POSIX,
    computed segment by segment. *)
Definition slash : Ascii.ascii := Ascii.ascii_of_nat 47.

(** The characters of a string, and back. *)
Fixpoint chars (s : string) : list Ascii.ascii :=
  match s with
  | EmptyString => []
  | String c s' => c :: chars s'
  end.

Fixpoint unchars (l : list Ascii.ascii) : string :=
  match l with
  | [] => EmptyString
  | c :: l' => String c (unchars l')
  end.

(** [p.split('/')] *)
Fixpoint segments (p : string) : list string :=
  match p with
  | EmptyString => [EmptyString]
  | String c p' =>
      if decide (c = slash) then EmptyString :: segments p'
      else match segments p' with
           | [] => [String c EmptyString]
           | seg :: l => String c seg :: l
           end
  end.

(** One segment of [normalizeString]: an empty segment and [.] are dropped,
    [..] removes the segment before it, or stays when there is none to
    remove and the path is relative. *)
Definition normalizeStep (allowAboveRoot : bool) (res : list string) (seg : string)
    : list string :=
  if decide (seg = EmptyString) then res
  else if decide (seg = ".") then res
  else if decide (seg = "..") then
    match last res with
    | Some x => if decide (x = "..") then res ++ [".."] else removelast res
    | None => if allowAboveRoot then [".."] else []
    end
  else res ++ [seg].

Definition normalizeString (p : string) (allowAboveRoot : bool) : list string :=
  foldl (normalizeStep allowAboveRoot) [] (segments p).

Definition isAbsolute (p : string) : bool :=
  match p with
  | String c _ => bool_decide (c = slash)
  | EmptyString => false
  end.

Fixpoint endsWithSlash (p : string) : bool :=
  match p with
  | EmptyString => false
  | String c EmptyString => bool_decide (c = slash)
  | String _ p' => endsWithSlash p'
  end.

Definition path_normalize (p : string) : string :=
  if decide (p = EmptyString) then "."
  else
    match normalizeString p (negb (isAbsolute p)) with
    | [] => if isAbsolute p then "/" else if endsWithSlash p then "./" else "."
    | res =>
        (if isAbsolute p then "/" else EmptyString)
        +:+ String.concat "/" res
        +:+ (if endsWithSlash p then "/" else EmptyString)
    end.

(** [path.join(...args)]: the arguments that are not empty, joined by a
    slash and normalised. *)
Definition path_join_all (args : list string) : string :=
  match filter (fun a => a ≠ EmptyString) args with
  | [] => "."
  | parts => path_normalize (String.concat "/" parts)
  end.

Definition path_join (a b : string) : string := path_join_all [a; b].
Definition path_join3 (a b c : string) : string := path_join_all [a; b; c].

Fixpoint drop_while {A} (p : A -> bool) (l : list A) : list A :=
  match l with
  | [] => []
  | x :: l' => if p x then drop_while p l' else l
  end.

Definition is_slash (c : Ascii.ascii) : bool := bool_decide (c = slash).

(** [path.dirname(p)]: scanning back from the end and never looking at the
    first character, the trailing slashes and the last component are
    skipped; the result is what precedes the slash found there. *)
Definition path_dirname (p : string) : string :=
  match p with
  | EmptyString => "."
  | String c0 rest =>
      match drop_while (fun c => negb (is_slash c))
              (drop_while is_slash (reverse (chars rest))) with
      | [] => if is_slash c0 then "/" else "."
      | _ :: before =>
          if is_slash c0 && bool_decide (before = []) then "//"
          else String c0 (unchars (reverse before))
      end
  end.

(** [pluginName.replace(/[^a-zA-Z0-9-_]/g, '_')].  The expression has no
    [u] flag, so it replaces UTF-16 code units: one for a character of the
    basic plane, two for any other.  On the UTF-8 encoding, a lead byte of a
    two- or three-byte sequence stands for one unit, a lead byte of a
    four-byte sequence for two, and a continuation byte for none. *)
Definition safe_char (c : Ascii.ascii) : bool :=
  let n := Ascii.nat_of_ascii c in
  ((48 <=? n) && (n <=? 57) || (65 <=? n) && (n <=? 90) || (97 <=? n) && (n <=? 122)
   || (n =? 45) || (n =? 95))%nat.

Definition sanitize_byte (c : Ascii.ascii) : string :=
  let n := Ascii.nat_of_ascii c in
  if safe_char c then String c EmptyString
  else if (n <? 128)%nat then "_"
  else if (n <? 192)%nat then EmptyString
  else if (n <? 240)%nat then "_"
  else "__".

Fixpoint sanitize (s : string) : string :=
  match s with
  | EmptyString => EmptyString
  | String c s' => sanitize_byte c +:+ sanitize s'
  end.

(** ** Plain objects *)

(** The members every plain object inherits from [Object.prototype]. *)
Definition objectPrototypeMembers : list string :=
  ["constructor"; "__defineGetter__"; "__defineSetter__"; "hasOwnProperty";
   "__lookupGetter__"; "__lookupSetter__"; "isPrototypeOf"; "propertyIsEnumerable";
   "toString"; "valueOf"; "__proto__"; "toLocaleString"].

(** [registry[pluginName]] on the plain object the registry index is: an
    entry of its own, else a member inherited from [Object.prototype] (a
    function, or the prototype itself for [__proto__]), else [undefined]. *)
Inductive RegistryLookup :=
| OwnEntry (entry : RegistryEntry)
| InheritedMember
| NoMember.

Definition registry_get (registry : gmap string RegistryEntry) (pluginName : string)
    : RegistryLookup :=
  match registry !! pluginName with
  | Some entry => OwnEntry entry
  | None =>
      if bool_decide (pluginName ∈ objectPrototypeMembers) then InheritedMember
      else NoMember
  end.

(** ** Updates of a record *)

(** [Partial<PluginState>]: [Some v] is a member the update carries, with
    value [v]; the values have the type of the member. *)
Record PluginStateUpdate := {
  u_id : option string;
  u_name : option string;
  u_status : option PluginStatus;
  u_plugin : option (option Plugin);
  u_missingEnvVars : option (list string);
  u_buildLog : option (list string);
  u_createdAt : option Z;
  u_loadedAt : option (option Z);
  u_unloadedAt : option (option Z);
  u_error : option (option string);
  u_components : option PluginComponents;
}.

(** [{ ...existing, ...update }] *)
Definition applyUpdate (update : PluginStateUpdate) (existing : PluginState)
    : PluginState :=
  {| ps_id := default (ps_id existing) (u_id update);
     ps_name := default (ps_name existing) (u_name update);
     ps_status := default (ps_status existing) (u_status update);
     ps_plugin := default (ps_plugin existing) (u_plugin update);
     ps_missingEnvVars := default (ps_missingEnvVars existing) (u_missingEnvVars update);
     ps_buildLog := default (ps_buildLog existing) (u_buildLog update);
     ps_createdAt := default (ps_createdAt existing) (u_createdAt update);
     ps_loadedAt := default (ps_loadedAt existing) (u_loadedAt update);
     ps_unloadedAt := default (ps_unloadedAt existing) (u_unloadedAt update);
     ps_error := default (ps_error existing) (u_error update);
     ps_components := default (ps_components existing) (u_components update) |}.

(** ** The service *)

Section Service.
Context (w : World).

(** *** Calls into the host *)

(** [runtime.registerAction] and its siblings append to the host array, as
    the test harness's runtime does; the host may also reject the call. *)
Definition hostRegister (n : string) (push : Runtime -> Runtime) : M unit :=
  match w_host_fault w n with
  | Some m => throw (Foreign m)
  | None => modify (set_runtime push)
  end.

Definition registerAction (a : Action) : M unit :=
  hostRegister (c_name a) (set_rt_actions (fun l => l ++ [a])).

Definition registerProvider (p : Provider) : M unit :=
  hostRegister (c_name p) (set_rt_providers (fun l => l ++ [p])).

Definition registerEvaluator (e : Evaluator) : M unit :=
  hostRegister (c_name e) (set_rt_evaluators (fun l => l ++ [e])).

(** [runtime.registerEvent(name, handler)] pushes the handler on the
    event's handler array, creating the array on first use. *)
Definition registerEvent (eventName : string) (h : Handler) : M unit :=
  hostRegister eventName (set_rt_events (addHandler eventName h)).

(** Modelled from the spec: [unregisterEvent] is installed on the runtime
    by [applyRuntimeExtensions] of [../coreExtensions], whose source is
    missing; see [dropHandler]. *)
Definition unregisterEvent (eventName : string) (h : Handler) : M unit :=
  modify (set_runtime (set_rt_events (dropHandler eventName h))).

(** [runtime.emitEvent(type, { pluginId, ... })]: the host records the event
    and returns, as the test harness's runtime does. *)
Definition emitEvent (t : EventType) (pluginId : string) : M unit :=
  modify (set_runtime (set_rt_emitted (fun l => l ++ [(t, pluginId)]))).

(** [ServiceClass.start(runtime)] *)
Definition startService (sc : ServiceClass) : M Service :=
  match start sc with
  | inl m => throw (Foreign m)
  | inr svc => mret svc
  end.

(** [service.stop()] *)
Definition stopService (svc : Service) : M unit :=
  match stop svc with
  | Some m => throw (Foreign m)
  | None => mret tt
  end.

(** [plugin.init({}, runtime)] *)
Definition runInit (h : InitHook) : M unit :=
  match h with
  | InitReturns => mret tt
  | InitThrows m => throw (Foreign m)
  end.

(** *** Construction *)

Definition names (l : list Component) : list string := c_name <$> l.

Definition initialState (plugin : Plugin) : PluginState :=
  {| ps_id := w_uuid w (plugin_name plugin);
     ps_name := plugin_name plugin;
     ps_status := LOADED;
     ps_plugin := Some plugin;
     ps_missingEnvVars := [];
     ps_buildLog := [];
     ps_createdAt := w_now w;
     ps_loadedAt := Some (w_now w);
     ps_unloadedAt := None;
     ps_error := None;
     ps_components :=
       {| pc_actions := list_to_set (names (actions plugin));
          pc_providers := list_to_set (names (providers plugin));
          pc_evaluators := list_to_set (names (evaluators plugin));
          pc_services := list_to_set (serviceType <$> services plugin);
          pc_eventHandlers := [] |} |}.

Definition initializeRegistry (originals : list Plugin) : list (string * PluginState) :=
  foldl (fun tbl plugin => alist_set (w_uuid w (plugin_name plugin)) (initialState plugin) tbl)
        [] originals.

(** [new PluginManagerService(runtime, config)]; [cache] is the
    module-level registry cache at that moment. *)
Definition construct (rt : Runtime) (configDirectory : option string)
    (cache : option RegistryCache) : State :=
  {| runtime := rt;
     plugins := initializeRegistry (rt_plugins rt);
     pluginDirectory := default "./plugins" configDirectory;
     originalPlugins := rt_plugins rt;
     originalActions := list_to_set (names (rt_actions rt));
     originalProviders := list_to_set (names (rt_providers rt));
     originalEvaluators := list_to_set (names (rt_evaluators rt));
     originalServices := dom (rt_services rt);
     installedPlugins := ∅;
     componentRegistry := ∅;
     registryCache := cache |}.

(** *** The plugin table *)

Definition getPlugin (id : string) (s : State) : option PluginState :=
  alist_get id (plugins s).

Definition getAllPlugins (s : State) : list PluginState := snd <$> plugins s.

Definition getLoadedPlugins (s : State) : list PluginState :=
  filter (fun p => ps_status p = LOADED) (getAllPlugins s).

Definition updatePluginState (id : string) (update : PluginState -> PluginState)
    : M unit :=
  modify (fun s =>
    match alist_get id (plugins s) with
    | Some existing => set_plugins (alist_set id (update existing)) s
    | None => s
    end).

Definition registerPlugin (plugin : Plugin) : M string :=
  let pluginId := w_uuid w (plugin_name plugin) in
  has ← gets (getPlugin pluginId);
  match has with
  | Some _ => throw (AlreadyRegistered (plugin_name plugin))
  | None =>
      modify (set_plugins (alist_set pluginId
        {| ps_id := pluginId;
           ps_name := plugin_name plugin;
           ps_status := READY;
           ps_plugin := Some plugin;
           ps_missingEnvVars := [];
           ps_buildLog := [];
           ps_createdAt := w_now w;
           ps_loadedAt := None;
           ps_unloadedAt := None;
           ps_error := None;
           ps_components := emptyComponents |})) ;;
      emitEvent PLUGIN_READY pluginId ;;
      mret pluginId
  end.

Definition trackComponentRegistration (pluginId : string) (ty : ComponentType)
    (componentName : string) : M unit :=
  modify (set_componentRegistry (fun reg =>
    <[pluginId := default [] (reg !! pluginId) ++
        [{| cr_pluginId := pluginId; cr_componentType := ty;
            cr_componentName := componentName; cr_timestamp := w_now w |}]]> reg)).

(** *** Registering a plugin's components *)

Definition registerComponent (k : Kind) (c : Component) : M unit :=
  match k with
  | KAction => registerAction c
  | KProvider => registerProvider c
  | KEvaluator => registerEvaluator c
  end.

(** [for (const action of plugin.actions) { await
    this.runtime.registerAction(action); ...actions.add(action.name);
    this.trackComponentRegistration(pluginState.id, 'action', action.name) }]
    and the same loop for providers and evaluators. *)
Definition registerComponents (k : Kind) (plugin : Plugin) (pluginId : string)
    : M unit :=
  forM_ (declared k plugin) (fun c =>
    registerComponent k c ;;
    withComponents plugin (set_owned k (fun x => x ∪ {[c_name c]})) ;;
    trackComponentRegistration pluginId (kindType k) (c_name c)).

Definition registerActions := registerComponents KAction.
Definition registerProviders := registerComponents KProvider.
Definition registerEvaluators := registerComponents KEvaluator.

Definition registerEvents (plugin : Plugin) (pluginId : string) : M unit :=
  forM_ (events plugin) (fun '(eventName, eventHandlers) =>
    withComponents plugin (set_pc_eventHandlers (ensureEvent eventName)) ;;
    forM_ eventHandlers (fun eventHandler =>
      registerEvent eventName eventHandler ;;
      withComponents plugin (set_pc_eventHandlers (trackHandler eventName eventHandler)) ;;
      trackComponentRegistration pluginId CTeventHandler eventName)).

(** A service whose [start] rejects is logged and skipped. *)
Definition registerServices (plugin : Plugin) (pluginId : string) : M unit :=
  forM_ (services plugin) (fun ServiceClass =>
    try_catch
      (service ← startService ServiceClass;
       modify (set_runtime (set_rt_services <[serviceType ServiceClass := service]>)) ;;
       withComponents plugin (set_pc_services (fun x => x ∪ {[serviceType ServiceClass]})) ;;
       trackComponentRegistration pluginId CTservice (serviceType ServiceClass))
      (fun _ => mret tt)).

Definition registerPluginComponents (plugin : Plugin) : M unit :=
  found ← gets (fun s => findPluginState plugin (plugins s));
  match found with
  | None => throw StateNotFound
  | Some pluginState =>
      registerActions plugin (ps_id pluginState) ;;
      registerProviders plugin (ps_id pluginState) ;;
      registerEvaluators plugin (ps_id pluginState) ;;
      registerEvents plugin (ps_id pluginState) ;;
      registerServices plugin (ps_id pluginState) ;;
      modify (set_runtime (set_rt_plugins (fun l => l ++ [plugin])))
  end.

(** *** Unregistering a plugin's components *)

(** The components object of the record found for [plugin]. *)
Definition foundComponents (plugin : Plugin) (s : State) : PluginComponents :=
  match findPluginState plugin (plugins s) with
  | Some pluginState => ps_components pluginState
  | None => emptyComponents
  end.

(** [for (const action of plugin.actions) { if
    (!this.originalActions.has(action.name)) { const index =
    this.runtime.actions.findIndex((a) => a.name === action.name); if (index
    !== -1) { this.runtime.actions.splice(index, 1);
    ...actions.delete(action.name) } } }] and the same loop for providers
    and evaluators. *)
Definition unregisterComponents (k : Kind) (plugin : Plugin) : M unit :=
  forM_ (declared k plugin) (fun c =>
    s ← gets (fun s => s);
    if decide (c_name c ∈ originalNames k s) then mret tt
    else if existsb (named (c_name c)) (hostList k (runtime s)) then
      modify (set_runtime (set_hostList k (remove_first (named (c_name c))))) ;;
      withComponents plugin (set_owned k (fun x => x ∖ {[c_name c]}))
    else mret tt).

Definition unregisterActions := unregisterComponents KAction.
Definition unregisterProviders := unregisterComponents KProvider.
Definition unregisterEvaluators := unregisterComponents KEvaluator.

(** Every handler the record tracks is unregistered from its event, then
    the tracking Map is cleared. *)
Definition unregisterEvents (plugin : Plugin) : M unit :=
  tracked ← gets (fun s => pc_eventHandlers (foundComponents plugin s));
  match tracked with
  | [] => mret tt
  | _ =>
      forM_ tracked (fun '(eventName, handlers) =>
        forM_ handlers (fun handler => unregisterEvent eventName handler)) ;;
      withComponents plugin (set_pc_eventHandlers (fun _ => []))
  end.

(** A [stop()] that rejects is logged; the service is removed all the
    same. *)
Definition unregisterServices (plugin : Plugin) : M unit :=
  forM_ (services plugin) (fun ServiceClass =>
    s ← gets (fun s => s);
    if decide (serviceType ServiceClass ∈ originalServices s) then mret tt
    else
      match rt_services (runtime s) !! serviceType ServiceClass with
      | Some service =>
          try_catch (stopService service) (fun _ => mret tt) ;;
          modify (set_runtime (set_rt_services (delete (serviceType ServiceClass)))) ;;
          withComponents plugin
            (set_pc_services (fun x => x ∖ {[serviceType ServiceClass]}))
      | None => mret tt
      end).

Definition unregisterPluginComponents (plugin : Plugin) : M unit :=
  found ← gets (fun s => findPluginState plugin (plugins s));
  match found with
  | None => mret tt
  | Some pluginState =>
      unregisterActions plugin ;;
      unregisterProviders plugin ;;
      unregisterEvaluators plugin ;;
      unregisterEvents plugin ;;
      unregisterServices plugin ;;
      modify (set_runtime (set_rt_plugins (remove_first (plugin_named (plugin_name plugin))))) ;;
      modify (set_componentRegistry (delete (ps_id pluginState)))
  end.

Definition getPluginComponents (pluginId : string) (s : State)
    : option PluginComponents :=
  ps_components <$> getPlugin pluginId s.

Definition getComponentRegistrations (pluginId : string) (s : State)
    : list ComponentRegistration :=
  default [] (componentRegistry s !! pluginId).

(** *** Loading and unloading *)

(** The [try] block of [loadPlugin]. *)
Definition loadPlugin_try (pluginId : string) (pluginState : PluginState)
    (plugin : Plugin) : M unit :=
  emitEvent PLUGIN_BUILDING pluginId ;;
  match init plugin with
  | Some hook => runInit hook
  | None => mret tt
  end ;;
  registerPluginComponents plugin ;;
  updatePluginState pluginId (loaded_update (w_now w)) ;;
  emitEvent PLUGIN_LOADED pluginId.

(** The [catch] block of [loadPlugin]. *)
Definition loadPlugin_catch (pluginId : string) (e : Error) : M unit :=
  updatePluginState pluginId (error_update (message e)) ;;
  emitEvent PLUGIN_ERROR pluginId ;;
  throw e.

Definition loadPlugin (pluginId : string) (force : bool) : M unit :=
  found ← gets (getPlugin pluginId);
  match found with
  | None => throw (NotFound pluginId)
  | Some pluginState =>
      if bool_decide (ps_status pluginState = LOADED) && negb force then mret tt
      else if bool_decide (ps_status pluginState ≠ READY)
              && bool_decide (ps_status pluginState ≠ UNLOADED)
              && negb force
      then throw (InvalidState (ps_name pluginState) (ps_status pluginState))
      else
        match ps_plugin pluginState with
        | None => throw (MissingInstance (ps_name pluginState))
        | Some plugin =>
            try_catch (loadPlugin_try pluginId pluginState plugin)
                      (loadPlugin_catch pluginId)
        end
  end.

(** The [try] block of [unloadPlugin]. *)
Definition unloadPlugin_try (pluginId : string) (pluginState : PluginState) : M unit :=
  match ps_plugin pluginState with
  | None => throw (MissingInstance (ps_name pluginState))
  | Some plugin =>
      unregisterPluginComponents plugin ;;
      updatePluginState pluginId (unloaded_update (w_now w)) ;;
      emitEvent PLUGIN_UNLOADED pluginId
  end.

(** The [catch] block of [unloadPlugin]. *)
Definition unloadPlugin_catch (pluginId : string) (e : Error) : M unit :=
  updatePluginState pluginId (error_update (message e)) ;;
  throw e.

Definition isOriginal (pluginState : PluginState) (s : State) : bool :=
  existsb (plugin_named (ps_name pluginState)) (originalPlugins s).

Definition unloadPlugin (pluginId : string) : M unit :=
  found ← gets (getPlugin pluginId);
  match found with
  | None => throw (NotFound pluginId)
  | Some pluginState =>
      if bool_decide (ps_status pluginState ≠ LOADED) then mret tt
      else
        original ← gets (isOriginal pluginState);
        if (original : bool) then throw (ProtectedPlugin (ps_name pluginState))
        else try_catch (unloadPlugin_try pluginId pluginState)
                       (unloadPlugin_catch pluginId)
  end.

(** *** The registry client *)

Definition CACHE_DURATION : Z := 3600000.

Definition resetRegistryCache : M unit := modify (set_registryCache None).

(** The [try] block of [getLocalRegistryIndex]: fetch, decode, cache. *)
Definition getLocalRegistryIndex_try : M (gmap string RegistryEntry) :=
  match w_fetch w with
  | FetchRejects m => throw (Foreign m)
  | FetchNotOk statusText => throw (RegistryFetchFailed statusText)
  | FetchBadJson m => throw (Foreign m)
  | FetchData data =>
      modify (set_registryCache (Some {| rc_data := data; rc_timestamp := w_now w |})) ;;
      mret data
  end.

(** The [catch] block: stale data when there is any, else nothing. *)
Definition getLocalRegistryIndex_catch (e : Error) : M (gmap string RegistryEntry) :=
  cache ← gets registryCache;
  match cache with
  | Some c => mret (rc_data c)
  | None => mret ∅
  end.

Definition cacheFresh (cache : option RegistryCache) : bool :=
  match cache with
  | Some c => bool_decide (w_now w - rc_timestamp c < CACHE_DURATION)
  | None => false
  end.

Definition getLocalRegistryIndex : M (gmap string RegistryEntry) :=
  cache ← gets registryCache;
  match cache with
  | Some c =>
      if cacheFresh cache then mret (rc_data c)
      else try_catch getLocalRegistryIndex_try getLocalRegistryIndex_catch
  | None => try_catch getLocalRegistryIndex_try getLocalRegistryIndex_catch
  end.

Definition getAvailablePluginsFromRegistry : M (gmap string RegistryEntry) :=
  getLocalRegistryIndex.

(** *** The installer *)

(** The optional [onProgress] callback only reports; it is left out: the
    installer is embedded as it runs when called without the callback, or
    with one that returns. *)

(** An external command or file-system write. *)
Definition exec (c : Command) : M unit :=
  match w_run w c with
  | Some m => throw (Foreign m)
  | None => mret tt
  end.

Definition installFromNpm (packageName version targetDir : string) : M unit :=
  try_catch (exec (NpmInstall packageName version targetDir)) (fun e => throw e).

Definition installFromGit (gitRepo version targetDir : string) : M unit :=
  try_catch
    (let tempDir := path_join3 targetDir ".." ("temp-" +:+ pretty (w_now w)) in
     exec (EnsureDir tempDir) ;;
     try_finally
       (exec (GitClone gitRepo tempDir) ;;
        (if bool_decide (version ≠ "main") && bool_decide (version ≠ "master")
         then exec (GitCheckout version tempDir)
         else mret tt) ;;
        exec (NpmInstallDeps tempDir) ;;
        exec (CopyDir tempDir targetDir))
       (exec (RemoveDir tempDir)))
    (fun e => throw e).

Definition installPlugin (pluginName targetDir : string) (version : option string)
    : M unit :=
  try_catch
    (exec (EnsureDir targetDir) ;;
     registry ← getLocalRegistryIndex;
     match registry_get registry pluginName with
     | NoMember => throw (NotInRegistry pluginName)
     | InheritedMember =>
         (* truthy, with neither an [npm] nor a [git] member *)
         throw (NoInstallMethod pluginName)
     | OwnEntry entry =>
         match truthy (entry_npm_repo entry) with
         | Some packageName =>
             let packageVersion :=
               default "latest" (or_else version (entry_npm_v1 entry)) in
             installFromNpm packageName packageVersion targetDir
         | None =>
             match truthy (entry_git_repo entry) with
             | Some gitRepo =>
                 let gitVersion :=
                   default "main"
                     (or_else version
                        (or_else (entry_git_version entry) (entry_git_branch entry))) in
                 installFromGit gitRepo gitVersion targetDir
             | None => throw (NoInstallMethod pluginName)
             end
         end
     end)
    (fun e => throw e).

(** [this.pluginManagerConfig.pluginDirectory || './plugins'] *)
Definition configuredDirectory (s : State) : string :=
  default "./plugins" (truthy (Some (pluginDirectory s))).

Definition getPluginInstallPath (pluginName : string) (s : State) : string :=
  path_join3 (configuredDirectory s) "installed" (sanitize pluginName).

Record PluginMetadata := {
  md_name : string;
  md_version : string;
  md_requiredEnvVars : list EnvVar;
}.

Definition parsePluginMetadata (pluginPath : string) : M PluginMetadata :=
  let packageJsonPath := path_join pluginPath "package.json" in
  match w_readJson w packageJsonPath with
  | ReadThrows m => throw (Foreign m)
  | ReadNull => throw (ManifestUnreadable packageJsonPath)
  | ReadOk packageJson =>
      mret {| md_name := default "unknown" (truthy (pj_name packageJson));
              md_version := default "0.0.0" (truthy (pj_version packageJson));
              md_requiredEnvVars :=
                (fun v => {| ev_name := ed_name v;
                             ev_description := ed_description v;
                             ev_sensitive := default false (ed_sensitive v);
                             ev_isSet := false |})
                <$> default [] (pj_requiredEnvVars packageJson) |}
  end.

(** The record both install paths build from the metadata read back. *)
Definition pluginInfoOf (metadata : PluginMetadata) (pluginDir : string)
    : DynamicPluginInfo :=
  {| dpi_name := md_name metadata;
     dpi_version := md_version metadata;
     dpi_status :=
       if (0 <? length (md_requiredEnvVars metadata))%nat
       then needs_configuration else installed;
     dpi_path := pluginDir;
     dpi_requiredEnvVars := md_requiredEnvVars metadata;
     dpi_errorDetails := None;
     dpi_installedAt := w_now w;
     dpi_lastActivated := None |}.

Definition installPluginFromRegistry (pluginName : string) (version : option string)
    : M DynamicPluginInfo :=
  pluginDir ← gets (getPluginInstallPath pluginName);
  try_catch
    (exec (EnsureDir (path_dirname pluginDir)) ;;
     installPlugin pluginName pluginDir version ;;
     metadata ← parsePluginMetadata pluginDir;
     let pluginInfo := pluginInfoOf metadata pluginDir in
     modify (set_installedPlugins <[pluginName := pluginInfo]>) ;;
     mret pluginInfo)
    (fun e => throw e).

Definition installFromLocalBundle (bundlePath : string) : M DynamicPluginInfo :=
  try_catch
    (if negb (w_pathExists w bundlePath) then throw (BundleNotFound bundlePath)
     else if negb (w_isDirectory w bundlePath) then throw UnsupportedBundleFormat
     else
       let extractPath := bundlePath in
       metadata ← parsePluginMetadata extractPath;
       let pluginName := md_name metadata in
       pluginDir ← gets (getPluginInstallPath pluginName);
       exec (EnsureDir (path_dirname pluginDir)) ;;
       exec (CopyDir extractPath pluginDir) ;;
       (if negb (w_pathExists w (path_join pluginDir "node_modules"))
        then exec (NpmInstallDeps pluginDir)
        else mret tt) ;;
       let pluginInfo := pluginInfoOf metadata pluginDir in
       modify (set_installedPlugins <[pluginName := pluginInfo]>) ;;
       mret pluginInfo)
    (fun e => throw e).

Definition getInstalledPluginInfo (pluginName : string) (s : State)
    : option DynamicPluginInfo :=
  installedPlugins s !! pluginName.

Definition listInstalledPlugins (s : State) : list DynamicPluginInfo :=
  snd <$> map_to_list (installedPlugins s).

(** [loadPluginModule]: the import of the artifact's entry point and the
    search for a valid plugin export are the world's; any failure there
    yields [null]. *)
Definition loadPluginModule (pluginPath : string) : M (option Plugin) :=
  mret (w_import w pluginPath).

Definition set_dpi_status (st : InstallStatus) (details : option string)
    (i : DynamicPluginInfo) : DynamicPluginInfo :=
  {| dpi_name := dpi_name i; dpi_version := dpi_version i; dpi_status := st;
     dpi_path := dpi_path i; dpi_requiredEnvVars := dpi_requiredEnvVars i;
     dpi_errorDetails := from_option Some (dpi_errorDetails i) details;
     dpi_installedAt := dpi_installedAt i;
     dpi_lastActivated := dpi_lastActivated i |}.

(** The [try] block of [loadInstalledPlugin]. *)
Definition loadInstalledPlugin_try (pluginName : string) (pluginInfo : DynamicPluginInfo)
    : M string :=
  pluginModule ← loadPluginModule (dpi_path pluginInfo);
  match pluginModule with
  | None => throw ModuleLoadFailed
  | Some plugin =>
      pluginId ← registerPlugin plugin;
      loadPlugin pluginId false ;;
      modify (set_installedPlugins (alter (set_dpi_status loaded None) pluginName)) ;;
      mret pluginId
  end.

(** [pluginInfo.errorDetails = value] *)
Definition set_dpi_errorDetails (details : option string)
    (i : DynamicPluginInfo) : DynamicPluginInfo :=
  {| dpi_name := dpi_name i; dpi_version := dpi_version i; dpi_status := dpi_status i;
     dpi_path := dpi_path i; dpi_requiredEnvVars := dpi_requiredEnvVars i;
     dpi_errorDetails := details;
     dpi_installedAt := dpi_installedAt i;
     dpi_lastActivated := dpi_lastActivated i |}.

(** The [catch] block of [loadInstalledPlugin]: [pluginInfo.status =
    'error'; pluginInfo.errorDetails = error.message; throw error].  Reading
    [error.message] throws when the caught value is [undefined] or [null];
    the status has been set by then. *)
Definition loadInstalledPlugin_catch (pluginName : string) (e : Error) : M string :=
  modify (set_installedPlugins (alter (set_dpi_status error None) pluginName)) ;;
  match messageProperty e with
  | Some errorDetails =>
      modify (set_installedPlugins
                (alter (set_dpi_errorDetails errorDetails) pluginName)) ;;
      throw e
  | None => throw (cannotReadMessage e)
  end.

Definition loadInstalledPlugin (pluginName : string) : M string :=
  found ← gets (getInstalledPluginInfo pluginName);
  match found with
  | None => throw (NotInstalled pluginName)
  | Some pluginInfo =>
      if bool_decide (dpi_status pluginInfo = needs_configuration)
      then throw (ConfigurationRequired pluginName)
      else try_catch (loadInstalledPlugin_try pluginName pluginInfo)
                     (loadInstalledPlugin_catch pluginName)
  end.
End Service.

(** ** Observations used by the statements *)

(** The state a sequence of catalog requests leaves; each request runs in
    its own world (clock value and network answer). *)
Fixpoint fetchAll (ws : list World) (s : State) : State :=
  match ws with
  | [] => s
  | w :: ws' => fetchAll ws' (getAvailablePluginsFromRegistry w s).2
  end.

(** What a request brings back from the network: nothing when the cache is
    fresh (no fetch is made) or when the fetch fails. *)
Definition fetchedBy (w : World) (s : State) : option (gmap string RegistryEntry) :=
  if cacheFresh w (registryCache s) then None
  else match w_fetch w with
       | FetchData data => Some data
       | _ => None
       end.

(** The catalog of the most recent successful fetch among the requests
    [ws], or [acc] when none of them fetched successfully. *)
Fixpoint lastFetched (ws : list World) (s : State)
    (acc : option (gmap string RegistryEntry)) : option (gmap string RegistryEntry) :=
  match ws with
  | [] => acc
  | w :: ws' =>
      lastFetched ws' (getAvailablePluginsFromRegistry w s).2
        (match fetchedBy w s with
         | Some data => Some data
         | None => acc
         end)
  end.

(** A request that does go to the network and gets no catalog from it. *)
Definition fetchFails (w : World) (s : State) : Prop :=
  cacheFresh w (registryCache s) = false ∧ ∀ data, w_fetch w ≠ FetchData data.

(** [preserves I m]: whatever [m] does, and however it ends, [I] survives. *)
Definition preserves {A} (I : State -> Prop) (m : M A) : Prop :=
  ∀ s r s', I s -> m s = (r, s') -> I s'.

(** A property of a record that does not look at its components. *)
Definition ignores_components (R : PluginState -> Prop) : Prop :=
  ∀ ps f, R ps -> R (set_ps_components f ps).

(** [holds_at k R s]: the table has a record under [k], and it satisfies [R]. *)
Definition holds_at (k : string) (R : PluginState -> Prop) (s : State) : Prop :=
  ∃ ps, alist_get k (plugins s) = Some ps ∧ R ps.

(** The two ways of installing an artifact. *)
Inductive InstallRequest :=
| FromRegistry (pluginName : string) (version : option string)
| FromLocalBundle (bundlePath : string).

Definition install (w : World) (req : InstallRequest) : M DynamicPluginInfo :=
  match req with
  | FromRegistry pluginName version => installPluginFromRegistry w pluginName version
  | FromLocalBundle bundlePath => installFromLocalBundle w bundlePath
  end.

(** Where the manifest of the installed artifact is read from. *)
Definition manifestPath (req : InstallRequest) (s : State) : string :=
  match req with
  | FromRegistry pluginName _ =>
      path_join (getPluginInstallPath pluginName s) "package.json"
  | FromLocalBundle bundlePath => path_join bundlePath "package.json"
  end.

(** What a manifest declares. *)
Definition declaredName (pj : PackageJson) : string :=
  default "unknown" (truthy (pj_name pj)).

Definition declaredEnvVars (pj : PackageJson) : list EnvDecl :=
  default [] (pj_requiredEnvVars pj).

(** The key of [installedPlugins] an install stores its record under. *)
Definition storageKey (req : InstallRequest) (info : DynamicPluginInfo) : string :=
  match req with
  | FromRegistry pluginName _ => pluginName
  | FromLocalBundle _ => dpi_name info
  end.

(** ** Example data *)

Definition emptyRuntime : Runtime :=
  {| rt_actions := []; rt_providers := []; rt_evaluators := [];
     rt_services := ∅; rt_events := ∅; rt_plugins := []; rt_emitted := [] |}.

(** The registry lists [pkg-a] as an npm package; the artifact's manifest
    declares the name [plugin-a] and one required variable. *)
Definition pkgA_entry : RegistryEntry :=
  {| re_name := "pkg-a"; re_description := None; re_repository := "github:org/pkg-a";
     re_npm := Some {| npm_repo := "pkg-a"; npm_v1 := Some "1.0.0" |};
     re_git := None |}.

Definition pkgA_manifest : PackageJson :=
  {| pj_name := Some "plugin-a"; pj_version := Some "1.0.0"; pj_main := None;
     pj_requiredEnvVars :=
       Some [{| ed_name := "API_KEY"; ed_description := "key"; ed_sensitive := Some true |}] |}.

Definition installWorld : World :=
  {| w_now := 1000;
     w_uuid := fun n => "uuid:" +:+ n;
     w_fetch := FetchData {[ "pkg-a" := pkgA_entry ]};
     w_host_fault := fun _ => None;
     w_run := fun _ => None;
     w_pathExists := fun _ => true;
     w_isDirectory := fun _ => true;
     w_readJson := fun p =>
       if decide (p = "plugins/installed/pkg-a/package.json") then ReadOk pkgA_manifest
       else if decide (p = "/tmp/bundle/package.json") then ReadOk pkgA_manifest
       else ReadThrows "ENOENT";
     w_import := fun _ => None;
     w_env := ∅ |}.

Definition freshManager : State := construct installWorld emptyRuntime None None.

(** The same world with another process environment. *)
Definition set_w_env (env : gmap string string) (w : World) : World :=
  {| w_now := w_now w; w_uuid := w_uuid w; w_fetch := w_fetch w;
     w_host_fault := w_host_fault w; w_run := w_run w;
     w_pathExists := w_pathExists w; w_isDirectory := w_isDirectory w;
     w_readJson := w_readJson w; w_import := w_import w; w_env := env |}.

(** [installWorld] with the variable [API_KEY] set. *)
Definition configuredWorld : World :=
  set_w_env {[ "API_KEY" := "secret" ]} installWorld.

(** The status of an installed record as the specification words it:
    [needs_configuration] if any required variable is unset, else
    [installed]. *)
Definition statusBySpec (env : gmap string string) (pj : PackageJson) : InstallStatus :=
  if existsb (fun d => bool_decide (env !! ed_name d = None)) (declaredEnvVars pj)
  then needs_configuration else installed.

(** The state after a series of [loadPlugin] calls without [force] on the
    same plugin id, one world per call. *)
Fixpoint repeatLoad (ws : list World) (pluginId : string) (s : State) : State :=
  match ws with
  | [] => s
  | w :: ws' => repeatLoad ws' pluginId (loadPlugin w pluginId false s).2
  end.

(** How the [try] block of [loadPlugin] can come to throw [e] from state [s]:
    the plugin's [init] hook throws it, or the hook, if any, returns and
    component registration throws it. *)
Definition initOrRegistrationThrows (w : World) (pluginId : string) (plugin : Plugin)
    (e : Error) (s : State) : Prop :=
  (∃ m, init plugin = Some (InitThrows m) ∧ e = Foreign m) ∨
  ((init plugin = None ∨ init plugin = Some InitReturns) ∧
   ∃ s1, registerPluginComponents w plugin (emitEvent PLUGIN_BUILDING pluginId s).2
         = (Throw e, s1)).

(** An original plugin whose [init] hook throws. *)
Definition brittlePlugin : Plugin :=
  {| plugin_ref := 1%nat; plugin_name := "core"; init := Some (InitThrows "boom");
     actions := []; providers := []; evaluators := []; events := []; services := [] |}.

Definition plainWorld : World :=
  {| w_now := 1000;
     w_uuid := fun n => "uuid:" +:+ n;
     w_fetch := FetchRejects "offline";
     w_host_fault := fun _ => None;
     w_run := fun _ => None;
     w_pathExists := fun _ => false;
     w_isDirectory := fun _ => false;
     w_readJson := fun _ => ReadThrows "ENOENT";
     w_import := fun _ => None;
     w_env := ∅ |}.

Definition hostWithCore : Runtime :=
  {| rt_actions := []; rt_providers := []; rt_evaluators := [];
     rt_services := ∅; rt_events := ∅; rt_plugins := [brittlePlugin];
     rt_emitted := [] |}.

Definition managerWithCore : State := construct plainWorld hostWithCore None None.

(** ** Closed forms of the registration and unregistration loops *)

(** The audit entries a loop appends for plugin [pluginId]. *)
Definition trackAll (w : World) (pluginId : string) (ty : ComponentType)
    (ns : list string)
    (reg : gmap string (list ComponentRegistration))
    : gmap string (list ComponentRegistration) :=
  foldl (fun reg n =>
           <[pluginId := default [] (reg !! pluginId) ++
               [{| cr_pluginId := pluginId; cr_componentType := ty;
                   cr_componentName := n; cr_timestamp := w_now w |}]]> reg)
        reg ns.

(** The state a registration loop over the components [cs] leaves when the
    host accepts them all. *)
Definition afterRegister (w : World) (k : Kind) (plugin : Plugin) (pluginId : string)
    (cs : list Component) (s : State) : State :=
  set_componentRegistry (trackAll w pluginId (kindType k) (names cs))
    (set_plugins (update_found plugin (set_owned k (fun x => x ∪ list_to_set (names cs))))
       (set_runtime (set_hostList k (fun l => l ++ cs)) s)).

(** What an unregistration loop over [cs] leaves of a host array [l]: for
    each declared name outside [orig], in order, the first entry of that
    name goes. *)
Fixpoint removeDeclared (orig : gset string) (l cs : list Component) : list Component :=
  match cs with
  | [] => l
  | c :: cs' =>
      removeDeclared orig
        (if decide (c_name c ∈ orig) then l else remove_first (named (c_name c)) l) cs'
  end.

(** What the same loop leaves of the record's owned-name set [o]: a name is
    disowned when an entry of that name was found and removed. *)
Fixpoint disownDeclared (orig : gset string) (l : list Component) (o : gset string)
    (cs : list Component) : gset string :=
  match cs with
  | [] => o
  | c :: cs' =>
      if decide (c_name c ∈ orig) then disownDeclared orig l o cs'
      else if existsb (named (c_name c)) l
           then disownDeclared orig (remove_first (named (c_name c)) l) (o ∖ {[c_name c]}) cs'
           else disownDeclared orig l o cs'
  end.

Definition afterUnregister (k : Kind) (plugin : Plugin) (cs : list Component)
    (s : State) : State :=
  set_plugins
    (update_found plugin
       (set_owned k (fun o =>
          disownDeclared (originalNames k s) (hostList k (runtime s)) o cs)))
    (set_runtime (set_hostList k (fun l => removeDeclared (originalNames k s) l cs)) s).

(** The host's event Map and the record's tracking Map after the event
    registration loops. *)
Definition addHandlers (e : string) (hs : list Handler)
    (m : gmap string (list Handler)) : gmap string (list Handler) :=
  foldl (fun m h => addHandler e h m) m hs.

Definition addEvents (evs : list (string * list Handler))
    (m : gmap string (list Handler)) : gmap string (list Handler) :=
  foldl (fun m ev => addHandlers ev.1 ev.2 m) m evs.

Definition trackHandlers (e : string) (hs : list Handler)
    (tr : list (string * list Handler)) : list (string * list Handler) :=
  foldl (fun tr h => trackHandler e h tr) tr hs.

Definition trackEvents (evs : list (string * list Handler))
    (tr : list (string * list Handler)) : list (string * list Handler) :=
  foldl (fun tr ev => trackHandlers ev.1 ev.2 (ensureEvent ev.1 tr)) tr evs.

(** One audit entry per registered handler, under the event's name. *)
Definition eventAudit (evs : list (string * list Handler)) : list string :=
  flat_map (fun ev => (fun _ => ev.1) <$> ev.2) evs.

Definition afterRegisterHandlers (w : World) (plugin : Plugin) (pluginId : string)
    (e : string) (hs : list Handler) (s : State) : State :=
  set_componentRegistry (trackAll w pluginId CTeventHandler ((fun _ => e) <$> hs))
    (set_plugins (update_found plugin (set_pc_eventHandlers (trackHandlers e hs)))
       (set_runtime (set_rt_events (addHandlers e hs)) s)).

Definition afterRegisterEvents (w : World) (plugin : Plugin) (pluginId : string)
    (evs : list (string * list Handler)) (s : State) : State :=
  set_componentRegistry (trackAll w pluginId CTeventHandler (eventAudit evs))
    (set_plugins (update_found plugin (set_pc_eventHandlers (trackEvents evs)))
       (set_runtime (set_rt_events (addEvents evs)) s)).

(** The services of a plugin whose [start] resolves, with their type. *)
Definition started (scs : list ServiceClass) : list (string * Service) :=
  omap (fun sc => match start sc with
                  | inr svc => Some (serviceType sc, svc)
                  | inl _ => None
                  end) scs.

Definition installServices (l : list (string * Service)) (m : gmap string Service)
    : gmap string Service :=
  foldl (fun m ts => <[ts.1 := ts.2]> m) m l.

Definition afterRegisterServices (w : World) (plugin : Plugin) (pluginId : string)
    (scs : list ServiceClass) (s : State) : State :=
  set_componentRegistry (trackAll w pluginId CTservice ((started scs).*1))
    (set_plugins
       (update_found plugin (set_pc_services (fun x => x ∪ list_to_set ((started scs).*1))))
       (set_runtime (set_rt_services (installServices (started scs))) s)).

(** The host's event Map after the unregistration loops over the tracked
    handlers. *)
Definition dropHandlers (e : string) (hs : list Handler)
    (m : gmap string (list Handler)) : gmap string (list Handler) :=
  foldl (fun m h => dropHandler e h m) m hs.

Definition dropTracked (tracked : list (string * list Handler))
    (m : gmap string (list Handler)) : gmap string (list Handler) :=
  foldl (fun m ev => dropHandlers ev.1 ev.2 m) m tracked.

Definition afterUnregisterEvents (plugin : Plugin) (s : State) : State :=
  set_plugins (update_found plugin (set_pc_eventHandlers (fun _ => [])))
    (set_runtime
       (set_rt_events (dropTracked (pc_eventHandlers (foundComponents plugin s)))) s).

(** The host's service table and the record's service set after the service
    unregistration loop. *)
Fixpoint stopDeclared (orig : gset string) (m : gmap string Service)
    (scs : list ServiceClass) : gmap string Service :=
  match scs with
  | [] => m
  | sc :: scs' =>
      stopDeclared orig
        (if decide (serviceType sc ∈ orig) then m else delete (serviceType sc) m) scs'
  end.

Fixpoint disownServices (orig : gset string) (m : gmap string Service) (o : gset string)
    (scs : list ServiceClass) : gset string :=
  match scs with
  | [] => o
  | sc :: scs' =>
      if decide (serviceType sc ∈ orig) then disownServices orig m o scs'
      else match m !! serviceType sc with
           | Some _ =>
               disownServices orig (delete (serviceType sc) m) (o ∖ {[serviceType sc]}) scs'
           | None => disownServices orig m o scs'
           end
  end.

Definition afterUnregisterServices (plugin : Plugin) (scs : list ServiceClass)
    (s : State) : State :=
  set_plugins
    (update_found plugin
       (set_pc_services (fun o =>
          disownServices (originalServices s) (rt_services (runtime s)) o scs)))
    (set_runtime (set_rt_services (fun m => stopDeclared (originalServices s) m scs)) s).

(** The state [registerPluginComponents] leaves when it returns, and the
    state [unregisterPluginComponents] leaves, for the record [pluginId]
    found for the plugin. *)
Definition afterRegistration (w : World) (plugin : Plugin) (pluginId : string)
    (s : State) : State :=
  set_runtime (set_rt_plugins (fun l => l ++ [plugin]))
    (afterRegisterServices w plugin pluginId (services plugin)
       (afterRegisterEvents w plugin pluginId (events plugin)
          (afterRegister w KEvaluator plugin pluginId (evaluators plugin)
             (afterRegister w KProvider plugin pluginId (providers plugin)
                (afterRegister w KAction plugin pluginId (actions plugin) s))))).

Definition afterUnregistration (plugin : Plugin) (pluginId : string) (s : State) : State :=
  set_componentRegistry (delete pluginId)
    (set_runtime (set_rt_plugins (remove_first (plugin_named (plugin_name plugin))))
       (afterUnregisterServices plugin (services plugin)
          (afterUnregisterEvents plugin
             (afterUnregister KEvaluator plugin (evaluators plugin)
                (afterUnregister KProvider plugin (providers plugin)
                   (afterUnregister KAction plugin (actions plugin) s)))))).

(** How many entries of a host array carry the name [n]. *)
Definition countNamed (n : string) (l : list Component) : nat :=
  length (filter (fun c => c_name c = n) l).

(** The handlers registered on the host for an event. *)
Definition handlersOf (s : State) (eventName : string) : list Handler :=
  default [] (rt_events (runtime s) !! eventName).

(** Whether a tracking Map holds handler [h] under event [e]. *)
Definition isTracked (tracked : list (string * list Handler)) (e : string) (h : Handler)
    : bool :=
  existsb (fun ev => bool_decide (ev.1 = e) && bool_decide (h ∈ ev.2)) tracked.

(** An event entry as the host keeps it after an unregistration: no entry
    rather than an empty array. *)
Definition nonEmpty (o : option (list Handler)) : option (list Handler) :=
  match o with
  | Some (x :: l) => Some (x :: l)
  | _ => None
  end.

(** Whether a tracking Map holds any handler at all under event [e]. *)
Definition anyTracked (tracked : list (string * list Handler)) (e : string) : bool :=
  existsb (fun ev => bool_decide (ev.1 = e) && negb (bool_decide (ev.2 = []))) tracked.

(** The handlers a plugin declares for event [e], in declaration order. *)
Definition declaredHandlers (evs : list (string * list Handler)) (e : string)
    : list Handler :=
  flat_map (fun ev => if decide (ev.1 = e) then ev.2 else []) evs.

(** ** A plugin object that collides with nothing *)

(** The names plugin [P] declares for kind [k] are neither original nor
    carried by an entry of the host array. *)
Definition freshNames (k : Kind) (P : Plugin) (s : State) : bool :=
  forallb (fun n => bool_decide (n ∉ originalNames k s)
                    && negb (existsb (named n) (hostList k (runtime s))))
          (names (declared k P)).

(** The service types [P] declares are neither original nor in the host's
    service table. *)
Definition freshServices (P : Plugin) (s : State) : bool :=
  forallb (fun sc => bool_decide (serviceType sc ∉ originalServices s)
                     && negb (bool_decide (is_Some (rt_services (runtime s) !! serviceType sc))))
          (services P).

(** No handler [P] declares is already registered for its event, and the
    host keeps no empty handler array for such an event. *)
Definition freshHandlers (P : Plugin) (s : State) : bool :=
  forallb (fun ev =>
             forallb (fun h =>
                        negb (bool_decide (rt_events (runtime s) !! ev.1 = Some []))
                        && bool_decide (h ∉ handlersOf s ev.1))
                     ev.2)
          (events P).

(** [nonColliding P s]: no record of the table holds the object [P]; no
    original plugin and no active plugin has [P]'s name; and [P]'s
    components are new to the host. *)
Definition nonColliding (P : Plugin) (s : State) : bool :=
  negb (bool_decide (is_Some (findPluginState P (plugins s))))
  && negb (existsb (plugin_named (plugin_name P)) (originalPlugins s))
  && negb (existsb (plugin_named (plugin_name P)) (rt_plugins (runtime s)))
  && freshNames KAction P s && freshNames KProvider P s && freshNames KEvaluator P s
  && freshServices P s && freshHandlers P s.

(** ** Two dynamic plugins that share a name and an event *)

Definition svcOk : ServiceClass :=
  {| serviceType := "SVC"; start := inr {| svc_ref := 30%nat; stop := None |} |}.

Definition svcBad : ServiceClass :=
  {| serviceType := "BAD"; start := inl "no port" |}.

(** [pluginP] and [pluginQ] both declare an action named [X] and a handler
    for event [E]; [pluginP] also declares a service whose [start] rejects
    and one that starts. *)
Definition pluginP : Plugin :=
  {| plugin_ref := 2%nat; plugin_name := "p"; init := None;
     actions := [{| c_name := "X"; c_ref := 10%nat |}; {| c_name := "Y"; c_ref := 11%nat |}];
     providers := []; evaluators := [];
     events := [("E", [20%nat])];
     services := [svcBad; svcOk] |}.

Definition pluginQ : Plugin :=
  {| plugin_ref := 3%nat; plugin_name := "q"; init := None;
     actions := [{| c_name := "X"; c_ref := 12%nat |}];
     providers := []; evaluators := [];
     events := [("E", [21%nat])];
     services := [] |}.

(** A manager constructed on an empty host. *)
Definition emptyManager : State := construct plainWorld emptyRuntime None None.

(** [pluginP] registered, then loaded. *)
Definition pRegistered : State := (registerPlugin plainWorld pluginP emptyManager).2.

Definition pLoaded : State := (loadPlugin plainWorld "uuid:p" false pRegistered).2.

(** Both plugins registered; [pluginQ] loaded first, then [pluginP]. *)
Definition bothRegistered : State := (registerPlugin plainWorld pluginQ pRegistered).2.

Definition bothLoaded : State :=
  (loadPlugin plainWorld "uuid:p" false
     (loadPlugin plainWorld "uuid:q" false bothRegistered).2).2.

(** Two plugins that register the same function object for event [E], as
    two plugins do that import one handler from a shared module; both
    registered, then loaded. *)
Definition pluginA : Plugin :=
  {| plugin_ref := 6%nat; plugin_name := "a"; init := None;
     actions := []; providers := []; evaluators := [];
     events := [("E", [40%nat])]; services := [] |}.

Definition pluginB : Plugin :=
  {| plugin_ref := 7%nat; plugin_name := "b"; init := None;
     actions := []; providers := []; evaluators := [];
     events := [("E", [40%nat])]; services := [] |}.

Definition sharedLoaded : State :=
  (loadPlugin plainWorld "uuid:b" false
     (loadPlugin plainWorld "uuid:a" false
        (registerPlugin plainWorld pluginB
           (registerPlugin plainWorld pluginA emptyManager).2).2).2).2.

(** A host that rejects the registration of anything named [Y]. *)
Definition faultyWorld : World :=
  {| w_now := 2000;
     w_uuid := fun n => "uuid:" +:+ n;
     w_fetch := FetchRejects "offline";
     w_host_fault := fun n => if decide (n = "Y") then Some "rejected" else None;
     w_run := fun _ => None;
     w_pathExists := fun _ => false;
     w_isDirectory := fun _ => false;
     w_readJson := fun _ => ReadThrows "ENOENT";
     w_import := fun _ => None;
     w_env := ∅ |}.

(** More than an hour after [installWorld], with the network down. *)
Definition offlineLater : World :=
  {| w_now := 1000 + 2 * CACHE_DURATION;
     w_uuid := fun n => "uuid:" +:+ n;
     w_fetch := FetchRejects "offline";
     w_host_fault := fun _ => None;
     w_run := fun _ => None;
     w_pathExists := fun _ => false;
     w_isDirectory := fun _ => false;
     w_readJson := fun _ => ReadThrows "ENOENT";
     w_import := fun _ => None;
     w_env := ∅ |}.

(** ** More example data: registry and installer *)

(** The registry lists [pkg-g] with a git repository only. *)
Definition pkgG_entry : RegistryEntry :=
  {| re_name := "pkg-g"; re_description := None; re_repository := "github:org/pkg-g";
     re_npm := None;
     re_git := Some {| git_repo := "https://example.org/pkg-g.git";
                       git_v1 := Some {| git_branch := Some "main"; git_version := None |} |} |}.

(** The temp directory cannot be removed. *)
Definition stickyTempWorld : World :=
  {| w_now := 1000;
     w_uuid := fun n => "uuid:" +:+ n;
     w_fetch := FetchData {[ "pkg-g" := pkgG_entry ]};
     w_host_fault := fun _ => None;
     w_run := fun c => match c with RemoveDir _ => Some "EBUSY" | _ => None end;
     w_pathExists := fun _ => true;
     w_isDirectory := fun _ => true;
     w_readJson := fun _ => ReadOk pkgA_manifest;
     w_import := fun _ => None;
     w_env := ∅ |}.
(** What an install may change of a state: the installed-plugin table and
    the registry cache, nothing of the plugin lifecycle. *)
Definition sameLifecycle (s s' : State) : Prop :=
  runtime s' = runtime s ∧ plugins s' = plugins s ∧
  pluginDirectory s' = pluginDirectory s ∧
  originalPlugins s' = originalPlugins s ∧
  originalActions s' = originalActions s ∧
  originalProviders s' = originalProviders s ∧
  originalEvaluators s' = originalEvaluators s ∧
  originalServices s' = originalServices s ∧
  componentRegistry s' = componentRegistry s.

(** The directory the artifacts are installed in:
    [path.join(pluginDirectory || './plugins', 'installed')]. *)
Definition installedDir (s : State) : string :=
  path_join (configuredDirectory s) "installed".

(** A path segment of safe characters, not empty. *)
Definition plainSegment (seg : string) : Prop :=
  seg ≠ EmptyString ∧ Forall (fun c => safe_char c = true) (chars seg).

(** The temp directory [installFromGit] clones into. *)
Definition gitTempDir (w : World) (targetDir : string) : string :=
  path_join3 targetDir ".." ("temp-" +:+ pretty (w_now w)).

(** ** Loading when the host accepts, and what a load records *)

(** The host accepts every component and every handler plugin [P]
    declares. *)
Definition hostAccepts (w : World) (P : Plugin) : bool :=
  forallb (fun c => bool_decide (w_host_fault w (c_name c) = None))
          (actions P ++ providers P ++ evaluators P)
  && forallb (fun ev => match ev.2 with
                        | [] => true
                        | _ => bool_decide (w_host_fault w ev.1 = None)
                        end)
             (events P).

(** The guard of [loadPlugin]: the status checks let the load proceed. *)
Definition mayLoad (force : bool) (ps : PluginState) : Prop :=
  force = true ∨ ps_status ps = READY ∨ ps_status ps = UNLOADED.

(** The audit entries one load of [P] appends, in order. *)
Definition auditEntry (w : World) (pluginId : string) (ty : ComponentType) (n : string)
    : ComponentRegistration :=
  {| cr_pluginId := pluginId; cr_componentType := ty;
     cr_componentName := n; cr_timestamp := w_now w |}.

Definition registrationsOf (w : World) (pluginId : string) (P : Plugin)
    : list ComponentRegistration :=
  (auditEntry w pluginId CTaction <$> names (actions P)) ++
  (auditEntry w pluginId CTprovider <$> names (providers P)) ++
  (auditEntry w pluginId CTevaluator <$> names (evaluators P)) ++
  (auditEntry w pluginId CTeventHandler <$> eventAudit (events P)) ++
  (auditEntry w pluginId CTservice <$> (started (services P)).*1).

(** The component sets of a record once [P]'s components have been added. *)
Definition withRegistered (P : Plugin) (c : PluginComponents) : PluginComponents :=
  {| pc_actions := pc_actions c ∪ list_to_set (names (actions P));
     pc_providers := pc_providers c ∪ list_to_set (names (providers P));
     pc_evaluators := pc_evaluators c ∪ list_to_set (names (evaluators P));
     pc_services := pc_services c ∪ list_to_set (started (services P)).*1;
     pc_eventHandlers := trackEvents (events P) (pc_eventHandlers c) |}.
(** No record of the table other than the one under [pluginId] holds the
    plugin object [P]. *)
Definition onlyRecordOf (P : Plugin) (pluginId : string) (s : State) : Prop :=
  ∀ k r, (k, r) ∈ plugins s -> same_plugin P r = true -> k = pluginId.

(** ** A plugin whose service cannot be stopped *)

Definition svcStubborn : ServiceClass :=
  {| serviceType := "STUB";
     start := inr {| svc_ref := 31%nat; stop := Some "stop failed" |} |}.

Definition pluginS : Plugin :=
  {| plugin_ref := 4%nat; plugin_name := "s"; init := Some InitReturns;
     actions := []; providers := []; evaluators := []; events := [];
     services := [svcStubborn] |}.

Definition sLoaded : State :=
  (loadPlugin plainWorld "uuid:s" false
     (registerPlugin plainWorld pluginS emptyManager).2).2.

(** A host that starts with a plugin, an action and a service. *)
Definition hostWithComponents : Runtime :=
  {| rt_actions := [{| c_name := "X"; c_ref := 1%nat |}];
     rt_providers := []; rt_evaluators := [];
     rt_services := {[ "SVC" := {| svc_ref := 5%nat; stop := None |} ]};
     rt_events := ∅; rt_plugins := [pluginQ]; rt_emitted := [] |}.
(** ** Sessions: sequences of calls to the service *)

(** The public operations of the service that change its state or the
    host's. *)
Inductive Call :=
| RegisterPlugin (plugin : Plugin)
| LoadPlugin (pluginId : string) (force : bool)
| UnloadPlugin (pluginId : string)
| Install (req : InstallRequest)
| LoadInstalledPlugin (pluginName : string)
| GetAvailablePluginsFromRegistry
| ResetRegistryCache
| UpdatePluginState (id : string) (update : PluginStateUpdate).

(** The state one call leaves, whether it returns or throws. *)
Definition call (w : World) (c : Call) (s : State) : State :=
  match c with
  | RegisterPlugin plugin => (registerPlugin w plugin s).2
  | LoadPlugin pluginId force => (loadPlugin w pluginId force s).2
  | UnloadPlugin pluginId => (unloadPlugin w pluginId s).2
  | Install req => (install w req s).2
  | LoadInstalledPlugin pluginName => (loadInstalledPlugin w pluginName s).2
  | GetAvailablePluginsFromRegistry => (getAvailablePluginsFromRegistry w s).2
  | ResetRegistryCache => (resetRegistryCache s).2
  | UpdatePluginState id update => (updatePluginState id (applyUpdate update) s).2
  end.

(** A session: calls made one after the other, each in its own world. *)
Fixpoint session (cs : list (World * Call)) (s : State) : State :=
  match cs with
  | [] => s
  | (w, c) :: cs' => session cs' (call w c s)
  end.

(** A [Partial<PluginState>] update that leaves the identity of the record
    alone. *)
Definition keepsIdentity (u : PluginState -> PluginState) : Prop :=
  ∀ ps, ps_id (u ps) = ps_id ps ∧ ps_name (u ps) = ps_name ps ∧
        ps_plugin (u ps) = ps_plugin ps.

(** The updates a call passes to [updatePluginState] satisfy [U]. *)
Definition updatesWithin (U : (PluginState -> PluginState) -> Prop) (c : Call) : Prop :=
  match c with
  | UpdatePluginState _ update => U (applyUpdate update)
  | _ => True
  end.






#[global] Instance Kind_eq_dec : EqDecision Kind.
Proof. solve_decision. Defined.

(** An error thrown by code the manager calls into. *)
Definition isForeign (e : Error) : Prop := ∃ m, e = Foreign m.

(** ** Example data: an installed plugin and its module *)

(** The world in which the artifact of [pkg-b] exports [pluginQ]. *)
Definition moduleWorld : World :=
  {| w_now := 3000;
     w_uuid := fun n => "uuid:" +:+ n;
     w_fetch := FetchRejects "offline";
     w_host_fault := fun _ => None;
     w_run := fun _ => None;
     w_pathExists := fun _ => true;
     w_isDirectory := fun _ => true;
     w_readJson := fun _ => ReadThrows "ENOENT";
     w_import := fun p => if decide (p = "plugins/installed/pkg-b") then Some pluginQ
                          else None;
     w_env := ∅ |}.

Definition pkgB_info : DynamicPluginInfo :=
  {| dpi_name := "plugin-b"; dpi_version := "1.0.0"; dpi_status := installed;
     dpi_path := "plugins/installed/pkg-b"; dpi_requiredEnvVars := [];
     dpi_errorDetails := None; dpi_installedAt := 1000; dpi_lastActivated := None |}.

(** A plugin whose [init] hook throws [undefined], and the world in which
    the artifact of [pkg-b] exports it. *)
Definition pluginU : Plugin :=
  {| plugin_ref := 5%nat; plugin_name := "u"; init := Some (InitThrows ThrownUndefined);
     actions := []; providers := []; evaluators := []; events := []; services := [] |}.

Definition undefinedWorld : World :=
  {| w_now := 3000;
     w_uuid := fun n => "uuid:" +:+ n;
     w_fetch := FetchRejects "offline";
     w_host_fault := fun _ => None;
     w_run := fun _ => None;
     w_pathExists := fun _ => true;
     w_isDirectory := fun _ => true;
     w_readJson := fun _ => ReadThrows "ENOENT";
     w_import := fun _ => Some pluginU;
     w_env := ∅ |}.

(** A manager with [pkg-b] installed and ready to load. *)
Definition managerWithPkgB : State :=
  set_installedPlugins <[ "pkg-b" := pkgB_info ]> emptyManager.

(** ** The search for a plugin export *)

(** The JavaScript values a module can export, as far as [isValidPlugin]
    looks at them: their type, their truthiness and, for an object, the
    values of its own members (no accessor and no prototype is modelled). *)
#[warnings="-register-all"] Inductive JsValue :=
| JsUndefined
| JsNull
| JsBool (b : bool)
| JsNumber (z : Z)
| JsString (s : string)
| JsFunction (r : Ref)
| JsArray (r : Ref) (elements : list JsValue)
| JsObject (r : Ref) (members : list (string * JsValue)).

(** [!!v] *)
Definition js_truthy (v : JsValue) : bool :=
  match v with
  | JsUndefined | JsNull => false
  | JsBool b => b
  | JsNumber z => negb (z =? 0)
  | JsString s => negb (bool_decide (s = EmptyString))
  | JsFunction _ | JsArray _ _ | JsObject _ _ => true
  end.

(** [typeof v === 'object'] *)
Definition js_is_object (v : JsValue) : bool :=
  match v with
  | JsNull | JsArray _ _ | JsObject _ _ => true
  | _ => false
  end.

(** [v.key] for the member names the manager reads; an array has none of
    them. *)
Definition js_member (key : string) (v : JsValue) : JsValue :=
  match v with
  | JsObject _ members => default JsUndefined (alist_get key members)
  | _ => JsUndefined
  end.

(** [isValidPlugin(obj)], as the condition it is used as. *)
Definition isValidPlugin (obj : JsValue) : bool :=
  js_truthy obj && js_is_object obj && js_truthy (js_member "name" obj)
  && (js_truthy (js_member "actions" obj) || js_truthy (js_member "services" obj)
      || js_truthy (js_member "providers" obj) || js_truthy (js_member "evaluators" obj)
      || js_truthy (js_member "init" obj)).

(** The end of [loadPluginModule]: [module] lists the module's exports in
    the order of [Object.keys]; the result is the export returned, [None]
    for [null]. *)
Definition findPluginExport (module : list (string * JsValue)) : option JsValue :=
  let def := default JsUndefined (alist_get "default" module) in
  if js_truthy def && isValidPlugin def then Some def
  else snd <$> head (filter (fun kv => isValidPlugin kv.2 = true) module).

(** The exports of a module, by key or in order. *)
Definition exportsOf (module : list (string * JsValue)) : list JsValue := module.*2.

(** ** A world of bad bundles *)

(** A world with a missing path, an archive file and a directory whose
    manifest reads as [null]; every command would fail in it. *)
Definition bundleWorld : World :=
  {| w_now := 1000;
     w_uuid := fun n => "uuid:" +:+ n;
     w_fetch := FetchRejects "offline";
     w_host_fault := fun _ => None;
     w_run := fun _ => Some "EACCES";
     w_pathExists := fun p => bool_decide (p ≠ "/missing");
     w_isDirectory := fun p => bool_decide (p = "/tmp/empty");
     w_readJson := fun p =>
       if decide (p = "/tmp/empty/package.json") then ReadNull else ReadThrows "ENOENT";
     w_import := fun _ => None;
     w_env := ∅ |}.

(** A manager constructed on [hostWithComponents], with [pluginP] registered. *)
Definition managerWithComponents : State :=
  (registerPlugin plainWorld pluginP
     (construct plainWorld hostWithComponents None None)).2.

(** * Properties *)

(** ** Reasoning about computations in [M] *)

Lemma run_bind {A B} (m : M A) (k : A -> M B) (s : State) :
  (m ≫= k) s =
  match m s with
  | (Ok a, s') => k a s'
  | (Throw e, s') => (Throw e, s')
  end.
Proof. reflexivity. Qed.

Lemma bind_ok_inv {A B} (m : M A) (k : A -> M B) s b s' :
  (m ≫= k) s = (Ok b, s') ->
  ∃ a s1, m s = (Ok a, s1) ∧ k a s1 = (Ok b, s').
Proof.
  rewrite run_bind. destruct (m s) as [[a|e] s1]; [eauto | discriminate].
Qed.

Lemma try_catch_rethrow {A} (m : M A) (s : State) :
  try_catch m (fun e => throw e) s = m s.
Proof. unfold try_catch, throw. by destruct (m s) as [[a|e] s1]. Qed.

Lemma preserves_ret {A} I (a : A) : preserves I (mret a).
Proof. intros s r s' HI [= <- <-]. done. Qed.

Lemma preserves_throw {A} I e : preserves I (throw (A:=A) e).
Proof. intros s r s' HI [= <- <-]. done. Qed.

Lemma preserves_gets {A} I (f : State -> A) : preserves I (gets f).
Proof. intros s r s' HI [= <- <-]. done. Qed.

Lemma preserves_modify I f : (∀ s, I s -> I (f s)) -> preserves I (modify f).
Proof. intros Hf s r s' HI [= <- <-]. auto. Qed.

Lemma preserves_bind {A B} I (m : M A) (k : A -> M B) :
  preserves I m -> (∀ a, preserves I (k a)) -> preserves I (m ≫= k).
Proof.
  intros Hm Hk s r s' HI. rewrite run_bind.
  destruct (m s) as [[a|e] s1] eqn:E.
  - intros Hr. eapply Hk; [|exact Hr]. eapply Hm; eauto.
  - intros [= <- <-]. eapply Hm; eauto.
Qed.

Lemma preserves_try_catch {A} I (m : M A) h :
  preserves I m -> (∀ e, preserves I (h e)) -> preserves I (try_catch m h).
Proof.
  intros Hm Hh s r s' HI. unfold try_catch.
  destruct (m s) as [[a|e] s1] eqn:E.
  - intros [= <- <-]. eapply Hm; eauto.
  - intros Hr. eapply Hh; [|exact Hr]. eapply Hm; eauto.
Qed.

Lemma preserves_try_finally {A} I (m : M A) c :
  preserves I m -> preserves I c -> preserves I (try_finally m c).
Proof.
  intros Hm Hc s r s' HI. unfold try_finally.
  destruct (m s) as [r1 s1] eqn:E.
  destruct (c s1) as [[[]|e] s2] eqn:E2; intros [= <- <-];
    (eapply Hc; [|exact E2]; eapply Hm; eauto).
Qed.

Lemma preserves_forM {A} I (l : list A) f :
  (∀ x, preserves I (f x)) -> preserves I (forM_ l f).
Proof.
  intros Hf. induction l as [|x l IH]; simpl.
  - apply preserves_ret.
  - apply preserves_bind; auto.
Qed.

(** Unfold the monad's operations where a computation is run. *)
Ltac run_m :=
  cbv [try_catch try_finally throw gets modify mbind mret M_bind M_ret] in *;
  simpl in *.

(** ** The registry client never raises and falls back on the cache *)

Lemma getLocalRegistryIndex_returns w s :
  ∃ d s', getLocalRegistryIndex w s = (Ok d, s').
Proof.
  unfold getLocalRegistryIndex, getLocalRegistryIndex_try, getLocalRegistryIndex_catch.
  run_m. destruct (registryCache s) as [c|] eqn:Ec.
  - destruct (cacheFresh w (Some c)); [by eexists _, _ |].
    destruct (w_fetch w); simpl; rewrite ?Ec; by eexists _, _.
  - destruct (w_fetch w); simpl; rewrite ?Ec; by eexists _, _.
Qed.

Lemma getLocalRegistryIndex_failing w s :
  fetchFails w s ->
  getLocalRegistryIndex w s = (Ok (default ∅ (rc_data <$> registryCache s)), s).
Proof.
  intros [Hfresh Hfail].
  unfold getLocalRegistryIndex, getLocalRegistryIndex_try, getLocalRegistryIndex_catch.
  run_m. destruct (registryCache s) as [c|] eqn:Ec.
  - rewrite Hfresh.
    destruct (w_fetch w) eqn:Ef; simpl; rewrite ?Ec; try done.
    by destruct (Hfail data).
  - destruct (w_fetch w) eqn:Ef; simpl; rewrite ?Ec; try done.
    by destruct (Hfail data).
Qed.

(** The cache slot after a request: the fetched catalog when one came back,
    the old slot otherwise. *)
Lemma getLocalRegistryIndex_cache w s :
  rc_data <$> registryCache (getLocalRegistryIndex w s).2 =
  match fetchedBy w s with
  | Some data => Some data
  | None => rc_data <$> registryCache s
  end.
Proof.
  unfold fetchedBy, getLocalRegistryIndex, getLocalRegistryIndex_try,
    getLocalRegistryIndex_catch.
  run_m. destruct (registryCache s) as [c|] eqn:Ec.
  - destruct (cacheFresh w (Some c)); simpl; [by rewrite Ec |].
    destruct (w_fetch w); simpl; rewrite ?Ec; simpl; rewrite ?Ec; done.
  - simpl. destruct (w_fetch w); simpl; rewrite ?Ec; simpl; rewrite ?Ec; done.
Qed.

Lemma fetchAll_cache ws : ∀ s acc,
  rc_data <$> registryCache s = acc ->
  rc_data <$> registryCache (fetchAll ws s) = lastFetched ws s acc.
Proof.
  induction ws as [|w ws IH]; intros s acc Hacc; simpl; [done |].
  apply IH. unfold getAvailablePluginsFromRegistry.
  rewrite getLocalRegistryIndex_cache. by rewrite Hacc.
Qed.

(** C5. [getAvailablePluginsFromRegistry] always returns a catalog, after
    any history of earlier requests [ws] and whatever the network answers
    now.  When the process started with an empty cache and this request's
    fetch fails, the catalog returned is the one of the most recent
    successful fetch, however old, and the empty catalog when no fetch ever
    succeeded; the state is left as it was. *)
Theorem fetchCatalog_never_raises_stale_or_empty
    (w : World) (ws : list World) (s0 : State) :
  (∃ d s', getAvailablePluginsFromRegistry w (fetchAll ws s0) = (Ok d, s')) ∧
  (registryCache s0 = None -> fetchFails w (fetchAll ws s0) ->
   getAvailablePluginsFromRegistry w (fetchAll ws s0) =
     (Ok (default ∅ (lastFetched ws s0 None)), fetchAll ws s0)).
Proof.
  split.
  - apply getLocalRegistryIndex_returns.
  - intros Hstart Hfail. unfold getAvailablePluginsFromRegistry.
    rewrite (getLocalRegistryIndex_failing _ _ Hfail).
    rewrite (fetchAll_cache ws s0 None); [done |]. by rewrite Hstart.
Qed.

(** ** Installing *)

Ltac preserves_step :=
  match goal with
  | |- preserves _ (mret _) => apply preserves_ret
  | |- preserves _ (throw _) => apply preserves_throw
  | |- preserves _ (gets _) => apply preserves_gets
  | |- preserves _ (modify _) => apply preserves_modify
  | |- preserves _ (mbind _ _) => apply preserves_bind; [|intros ?]
  | |- preserves _ (try_catch _ _) => apply preserves_try_catch; [|intros ?]
  | |- preserves _ (try_finally _ _) => apply preserves_try_finally
  | |- preserves _ (forM_ _ _) => apply preserves_forM; intros ?
  | |- preserves _ (match ?x with _ => _ end) => destruct x
  | |- preserves _ (let _ := _ in _) => cbv zeta
  end.

Lemma preserves_exec w I c : preserves I (exec w c).
Proof. unfold exec. repeat preserves_step. Qed.

Lemma preserves_getLocalRegistryIndex w I :
  (∀ s c, I s -> I (set_registryCache c s)) ->
  preserves I (getLocalRegistryIndex w).
Proof.
  intros HI. unfold getLocalRegistryIndex, getLocalRegistryIndex_try,
    getLocalRegistryIndex_catch.
  repeat preserves_step; auto.
Qed.

Lemma preserves_installPlugin w I pluginName targetDir version :
  (∀ s c, I s -> I (set_registryCache c s)) ->
  preserves I (installPlugin w pluginName targetDir version).
Proof.
  intros HI. unfold installPlugin, installFromNpm, installFromGit.
  repeat first [apply preserves_exec | apply preserves_getLocalRegistryIndex; exact HI
               | preserves_step].
Qed.

(** What a successful install read and wrote. *)
Lemma install_inv w req s info s' :
  install w req s = (Ok info, s') ->
  ∃ pj,
    w_readJson w (manifestPath req s) = ReadOk pj ∧
    dpi_name info = declaredName pj ∧
    dpi_requiredEnvVars info =
      (fun v => {| ev_name := ed_name v; ev_description := ed_description v;
                   ev_sensitive := default false (ed_sensitive v);
                   ev_isSet := false |}) <$> declaredEnvVars pj ∧
    dpi_status info =
      (if (0 <? length (declaredEnvVars pj))%nat then needs_configuration else installed) ∧
    installedPlugins s' = <[storageKey req info := info]> (installedPlugins s).
Proof.
  destruct req as [pluginName version | bundlePath]; simpl.
  - unfold installPluginFromRegistry. rewrite run_bind. unfold gets at 1.
    rewrite try_catch_rethrow. intros H.
    apply bind_ok_inv in H as ([] & s1 & H1 & H).
    apply bind_ok_inv in H as ([] & s2 & H2 & H).
    apply bind_ok_inv in H as (md & s3 & H3 & H).
    assert (Hfr : installedPlugins s2 = installedPlugins s ∧
                  pluginDirectory s2 = pluginDirectory s).
    { eapply (preserves_installPlugin w
               (fun x => installedPlugins x = installedPlugins s ∧
                         pluginDirectory x = pluginDirectory s)); [done | | exact H2].
      eapply (preserves_exec w (fun x => installedPlugins x = installedPlugins s ∧
                         pluginDirectory x = pluginDirectory s)); [| exact H1]. done. }
    destruct Hfr as [Hi Hd].
    unfold parsePluginMetadata in H3.
    destruct (w_readJson w _) as [m | | pj] eqn:Ej; try discriminate.
    injection H3 as <- <-. run_m. injection H as <- <-.
    exists pj. simpl. rewrite Hi. unfold declaredName, declaredEnvVars.
    rewrite length_fmap. done.
  - unfold installFromLocalBundle. rewrite try_catch_rethrow.
    destruct (w_pathExists w bundlePath); simpl; [|discriminate].
    destruct (w_isDirectory w bundlePath); simpl; [|discriminate].
    intros H.
    apply bind_ok_inv in H as (md & s1 & H1 & H).
    unfold parsePluginMetadata in H1.
    destruct (w_readJson w _) as [m | | pj] eqn:Ej; try discriminate.
    injection H1 as <- <-.
    apply bind_ok_inv in H as (dir & s1 & [= <- <-] & H).
    apply bind_ok_inv in H as ([] & s1 & H1 & H).
    apply bind_ok_inv in H as ([] & s2 & H2 & H).
    apply bind_ok_inv in H as ([] & s3 & H3 & H).
    assert (Hi2 : installedPlugins s2 = installedPlugins s).
    { eapply (preserves_exec w (fun x => installedPlugins x = installedPlugins s));
        [| exact H2].
      eapply (preserves_exec w (fun x => installedPlugins x = installedPlugins s));
        [| exact H1]. done. }
    assert (Hi : installedPlugins s3 = installedPlugins s).
    { destruct (negb _) in H3.
      - eapply (preserves_exec w (fun x => installedPlugins x = installedPlugins s));
          [exact Hi2 | exact H3].
      - by injection H3 as <-. }
    run_m. injection H as <- <-.
    exists pj. simpl. rewrite Hi. unfold declaredName, declaredEnvVars.
    rewrite length_fmap. done.
Qed.

(** C7. After either kind of install, the record produced has status
    [needs_configuration] exactly when the manifest read back declares at
    least one required variable, and status [installed] otherwise.  Whether
    a declared variable is set plays no part: the record lists every
    declared variable as not set, and the install does the same in every
    process environment.  And whenever the record stored under a name has
    status [needs_configuration], [loadInstalledPlugin] of that name throws
    [ConfigurationRequired] and leaves the state as it was. *)
Theorem install_status_follows_required_configuration
    (w : World) (req : InstallRequest) (s s' : State) (info : DynamicPluginInfo) :
  install w req s = (Ok info, s') ->
  (∃ pj,
     w_readJson w (manifestPath req s) = ReadOk pj ∧
     ev_name <$> dpi_requiredEnvVars info = ed_name <$> declaredEnvVars pj ∧
     (dpi_status info = needs_configuration ↔ declaredEnvVars pj ≠ [])) ∧
  (Forall (fun v => ev_isSet v = false) (dpi_requiredEnvVars info) ∧
   ∀ env, install (set_w_env env w) req s = (Ok info, s')) ∧
  (dpi_status info ≠ needs_configuration -> dpi_status info = installed) ∧
  (∀ w' pluginName s2 info2,
     getInstalledPluginInfo pluginName s2 = Some info2 ->
     dpi_status info2 = needs_configuration ->
     loadInstalledPlugin w' pluginName s2 = (Throw (ConfigurationRequired pluginName), s2)).
Proof.
  intros H. pose proof H as Hrun.
  apply install_inv in H as (pj & Hj & Hn & Hv & Hst & Hi).
  split; [|split; [|split]].
  - exists pj. split; [done|]. split.
    + rewrite Hv, <- list_fmap_compose. done.
    + rewrite Hst. destruct (declaredEnvVars pj); simpl; split; done.
  - split.
    + rewrite Hv. apply Forall_fmap, Forall_true. done.
    + intros env. exact Hrun.
  - rewrite Hst. by destruct (_ <? _)%nat.
  - intros w' pluginName s2 info2 Hget Hneeds.
    unfold loadInstalledPlugin. run_m. rewrite Hget.
    rewrite bool_decide_eq_true_2; done.
Qed.

Lemma install_status_follows_required_configuration_witness :
  ∃ info s',
    install installWorld (FromRegistry "pkg-a" None) freshManager = (Ok info, s') ∧
    dpi_status info = needs_configuration ∧
    loadInstalledPlugin installWorld "pkg-a" s' = (Throw (ConfigurationRequired "pkg-a"), s').
Proof.
  eexists _, _. split; [vm_compute; reflexivity |].
  destruct (install_status_follows_required_configuration installWorld
              (FromRegistry "pkg-a" None) freshManager _ _
              ltac:(vm_compute; reflexivity)) as (_ & _ & _ & Hgate).
  split; [reflexivity |].
  eapply Hgate; [vm_compute; reflexivity | reflexivity].
Defined.

(** The manifest of [pkg-a] requires [API_KEY].  In a process whose
    environment sets that variable, no required variable is unset and the
    specification's wording gives [installed]; the install yields
    [needs_configuration], and [loadInstalledPlugin] refuses the plugin. *)
Lemma install_needs_configuration_although_variable_is_set :
  ∃ info s',
    install configuredWorld (FromRegistry "pkg-a" None) freshManager = (Ok info, s') ∧
    ev_name <$> dpi_requiredEnvVars info = ["API_KEY"] ∧
    w_env configuredWorld !! "API_KEY" = Some "secret" ∧
    statusBySpec (w_env configuredWorld) pkgA_manifest = installed ∧
    dpi_status info = needs_configuration ∧
    loadInstalledPlugin configuredWorld "pkg-a" s'
    = (Throw (ConfigurationRequired "pkg-a"), s').
Proof. eexists _, _. by vm_compute. Qed.

(** C10. A successful install stores its record under [storageKey]: the
    name asked of the registry for a registry install, whatever name the
    manifest declares, and the manifest's name for a local bundle.  The record
    itself always carries the manifest's name.  No other key of
    [installedPlugins] changes, so a query under any other name that was not
    installed before finds nothing, and [loadInstalledPlugin] of such a name
    throws [NotInstalled]. *)
Theorem install_storage_key_depends_on_path
    (w : World) (req : InstallRequest) (s s' : State) (info : DynamicPluginInfo) :
  install w req s = (Ok info, s') ->
  (∃ pj, w_readJson w (manifestPath req s) = ReadOk pj ∧
         dpi_name info = declaredName pj) ∧
  getInstalledPluginInfo (storageKey req info) s' = Some info ∧
  (∀ q, q ≠ storageKey req info ->
        getInstalledPluginInfo q s' = getInstalledPluginInfo q s) ∧
  (∀ w' q, q ≠ storageKey req info ->
           getInstalledPluginInfo q s = None ->
           loadInstalledPlugin w' q s' = (Throw (NotInstalled q), s')).
Proof.
  intros H. apply install_inv in H as (pj & Hj & Hn & Hv & Hst & Hi).
  unfold getInstalledPluginInfo. rewrite Hi.
  split; [by exists pj|]. split; [apply lookup_insert_eq|].
  split.
  - intros q Hq. by rewrite lookup_insert_ne.
  - intros w' q Hq Hnone. unfold loadInstalledPlugin, getInstalledPluginInfo.
    run_m. rewrite Hi, lookup_insert_ne, Hnone; done.
Qed.

Lemma install_storage_key_depends_on_path_witness :
  (∃ info s',
     install installWorld (FromRegistry "pkg-a" None) freshManager = (Ok info, s') ∧
     dpi_name info = "plugin-a" ∧
     getInstalledPluginInfo "pkg-a" s' = Some info ∧
     getInstalledPluginInfo "plugin-a" s' = None ∧
     loadInstalledPlugin installWorld "plugin-a" s' = (Throw (NotInstalled "plugin-a"), s')) ∧
  (∃ info s',
     install installWorld (FromLocalBundle "/tmp/bundle") freshManager = (Ok info, s') ∧
     getInstalledPluginInfo "plugin-a" s' = Some info ∧
     getInstalledPluginInfo "pkg-a" s' = None).
Proof.
  split.
  - eexists _, _. split; [vm_compute; reflexivity |].
    destruct (install_storage_key_depends_on_path installWorld
                (FromRegistry "pkg-a" None) freshManager _ _
                ltac:(vm_compute; reflexivity)) as (_ & Hkey & Hother & Hload).
    split; [reflexivity |]. split; [exact Hkey |]. split.
    + rewrite (Hother "plugin-a"); [reflexivity | discriminate].
    + apply Hload; [discriminate | reflexivity].
  - eexists _, _. split; [vm_compute; reflexivity |].
    destruct (install_storage_key_depends_on_path installWorld
                (FromLocalBundle "/tmp/bundle") freshManager _ _
                ltac:(vm_compute; reflexivity)) as (_ & Hkey & Hother & _).
    split; [exact Hkey |].
    rewrite (Hother "pkg-a"); [reflexivity | discriminate].
Defined.

(** ** The plugin table under the lifecycle operations *)

Lemma alist_get_set {V} (k k' : string) (v : V) l :
  alist_get k (alist_set k' v l) = if decide (k' = k) then Some v else alist_get k l.
Proof.
  induction l as [|[k0 v0] l IH]; simpl.
  - by destruct (decide (k' = k)).
  - destruct (decide (k0 = k')) as [->|Hne]; simpl.
    + destruct (decide (k' = k)); done.
    + destruct (decide (k0 = k)) as [->|Hne2].
      * by rewrite decide_False.
      * done.
Qed.

Lemma alist_get_update_found k P f l :
  alist_get k (update_found P f l) = None ∧ alist_get k l = None ∨
  ∃ ps, alist_get k l = Some ps ∧
        (alist_get k (update_found P f l) = Some ps ∨
         alist_get k (update_found P f l) = Some (set_ps_components f ps)).
Proof.
  induction l as [|[k0 ps0] l IH]; simpl; [by left |].
  destruct (same_plugin P ps0); simpl.
  - destruct (decide (k0 = k)); [right; eauto | ].
    destruct (alist_get k l); [right; eauto | by left].
  - destruct (decide (k0 = k)); [right; eauto | done].
Qed.

Lemma alist_get_update_found_ignoring k P f l R :
  ignores_components R ->
  (∃ ps, alist_get k l = Some ps ∧ R ps) ->
  ∃ ps, alist_get k (update_found P f l) = Some ps ∧ R ps.
Proof.
  intros HR (ps & Hget & Hps).
  destruct (alist_get_update_found k P f l) as [[_ Hn] | (ps' & Hg & [H|H])].
  - congruence.
  - exists ps'. split; [done|]. congruence.
  - exists (set_ps_components f ps'). split; [done|]. apply HR. congruence.
Qed.

Ltac table_leaf :=
  match goal with
  | |- ∀ s, holds_at _ _ s -> holds_at _ _ _ =>
      let s := fresh "s" in let H := fresh "H" in
      intros s H; unfold holds_at in *; simpl;
      first [ exact H | by apply alist_get_update_found_ignoring ]
  end.

Lemma preserves_withComponents k R P f :
  ignores_components R -> preserves (holds_at k R) (withComponents P f).
Proof. intros HR. unfold withComponents. apply preserves_modify. table_leaf. Qed.

Lemma preserves_registerPluginComponents w k R P :
  ignores_components R ->
  preserves (holds_at k R) (registerPluginComponents w P).
Proof.
  intros HR.
  unfold registerPluginComponents, registerActions, registerProviders,
    registerEvaluators, registerComponents, registerComponent, registerAction,
    registerProvider, registerEvaluator, registerEvents, registerServices,
    registerEvent, hostRegister, startService, trackComponentRegistration.
  repeat first [ apply preserves_withComponents; exact HR
               | preserves_step | table_leaf ].
Qed.

Lemma preserves_unregisterPluginComponents k R P :
  ignores_components R ->
  preserves (holds_at k R) (unregisterPluginComponents P).
Proof.
  intros HR.
  unfold unregisterPluginComponents, unregisterActions, unregisterProviders,
    unregisterEvaluators, unregisterComponents, unregisterEvents,
    unregisterServices, unregisterEvent, stopService.
  repeat first [ apply preserves_withComponents; exact HR
               | preserves_step | table_leaf ].
Qed.

Lemma updatePluginState_run pluginId update s ps :
  alist_get pluginId (plugins s) = Some ps ->
  updatePluginState pluginId update s
  = (Ok tt, set_plugins (alist_set pluginId (update ps)) s).
Proof. intros H. unfold updatePluginState. run_m. by rewrite H. Qed.

Lemma updatePluginState_holds pluginId update s (R : PluginState -> Prop) :
  holds_at pluginId (fun ps => R (update ps)) s ->
  ∃ s', updatePluginState pluginId update s = (Ok tt, s') ∧
        holds_at pluginId R s' ∧ runtime s' = runtime s.
Proof.
  intros (ps & Hget & HR). rewrite (updatePluginState_run _ _ _ _ Hget).
  eexists. split; [done|]. split; [|done].
  exists (update ps). simpl. rewrite alist_get_set, decide_True; done.
Qed.

Lemma ignores_components_True : ignores_components (fun _ => True).
Proof. done. Qed.

Lemma loadPlugin_catch_throws pluginId e s :
  holds_at pluginId (fun _ => True) s ->
  ∃ s', loadPlugin_catch pluginId e s = (Throw e, s') ∧
        holds_at pluginId
          (fun ps => ps_status ps = ERROR ∧ ps_error ps = Some (message e)) s'.
Proof.
  intros (ps & Hget & _). unfold loadPlugin_catch.
  rewrite run_bind, (updatePluginState_run _ _ _ _ Hget).
  run_m. eexists. split; [done|]. exists (error_update (message e) ps).
  simpl. rewrite alist_get_set, decide_True; done.
Qed.

Lemma loadPlugin_catch_never_returns pluginId e s r s' :
  loadPlugin_catch pluginId e s = (r, s') -> r = Throw e.
Proof.
  unfold loadPlugin_catch, updatePluginState. run_m.
  destruct (alist_get pluginId (plugins s)); by intros [= <- <-].
Qed.

Lemma preserves_loadPlugin_try_prefix w pluginId plugin R :
  ignores_components R ->
  preserves (holds_at pluginId R)
    (emitEvent PLUGIN_BUILDING pluginId ;;
     match init plugin with
     | Some hook => runInit hook
     | None => mret tt
     end ;;
     registerPluginComponents w plugin).
Proof.
  intros HR. unfold emitEvent, runInit.
  repeat first [ apply preserves_registerPluginComponents; exact HR
               | preserves_step | table_leaf ].
Qed.

(** The [try] block of [loadPlugin], cut after component registration. *)
Lemma loadPlugin_try_split w pluginId pluginState plugin s :
  loadPlugin_try w pluginId pluginState plugin s =
  match (emitEvent PLUGIN_BUILDING pluginId ;;
         match init plugin with
         | Some hook => runInit hook
         | None => mret tt
         end ;;
         registerPluginComponents w plugin) s with
  | (Ok _, s1) =>
      (updatePluginState pluginId (loaded_update (w_now w)) ;;
       emitEvent PLUGIN_LOADED pluginId) s1
  | (Throw e, s1) => (Throw e, s1)
  end.
Proof.
  unfold loadPlugin_try. cbv [mbind M_bind].
  destruct (emitEvent PLUGIN_BUILDING pluginId s) as [[[]|e] s0]; [|done].
  destruct (match init plugin with Some hook => runInit hook | None => mret tt end s0)
    as [[[]|e] s1]; [|done].
  destruct (registerPluginComponents w plugin s1) as [[[]|e] s2]; done.
Qed.

(** C3. Once [loadPlugin] has returned normally, with or without [force], a
    second [loadPlugin] of the same id without [force] returns normally and
    leaves the whole state, host registries included, exactly as it was; the
    record's status is [LOADED] before and after. *)
Theorem loadPlugin_twice_is_noop
    (w w' : World) (pluginId : string) (force : bool) (s s' : State) :
  loadPlugin w pluginId force s = (Ok tt, s') ->
  loadPlugin w' pluginId false s' = (Ok tt, s') ∧
  holds_at pluginId (fun ps => ps_status ps = LOADED) s'.
Proof.
  intros H.
  assert (Hloaded : holds_at pluginId (fun ps => ps_status ps = LOADED) s').
  { unfold loadPlugin in H. rewrite run_bind in H. unfold gets, getPlugin in H.
    destruct (alist_get pluginId (plugins s)) as [ps|] eqn:Hget; [|discriminate].
    destruct (bool_decide (ps_status ps = LOADED) && negb force) eqn:Hnoop.
    { injection H as <-. exists ps. split; [done|].
      apply andb_prop in Hnoop as [Hst _]. by apply bool_decide_eq_true_1 in Hst. }
    destruct (_ && _ && negb force); [discriminate|].
    destruct (ps_plugin ps) as [plugin|]; [|discriminate].
    unfold try_catch in H. rewrite loadPlugin_try_split in H.
    destruct ((emitEvent PLUGIN_BUILDING pluginId ;; _ ;; _) s) as [[[]|e] s1] eqn:Hpre.
    - assert (Hs1 : holds_at pluginId (fun _ => True) s1).
      { eapply (preserves_loadPlugin_try_prefix w pluginId plugin);
          [apply ignores_components_True | | exact Hpre]. by exists ps. }
      destruct Hs1 as (ps1 & Hget1 & _).
      rewrite run_bind, (updatePluginState_run _ _ _ _ Hget1) in H.
      run_m. injection H as <-. exists (loaded_update (w_now w) ps1).
      simpl. rewrite alist_get_set, decide_True; done.
    - apply loadPlugin_catch_never_returns in H. discriminate. }
  split; [|done].
  destruct Hloaded as (ps' & Hget' & Hst').
  unfold loadPlugin. rewrite run_bind. unfold gets, getPlugin. rewrite Hget'.
  rewrite bool_decide_eq_true_2; done.
Qed.

(** C6. When the record exists, has a plugin instance and passes the status
    checks, and the plugin's [init] hook or the registration of its
    components throws [e], [loadPlugin] throws that same [e] to its caller,
    and the record is left with status [ERROR] and with [e]'s message in its
    [error] field. *)
Theorem loadPlugin_failure_sets_error
    (w : World) (pluginId : string) (force : bool) (s : State)
    (pluginState : PluginState) (plugin : Plugin) (e : Error) :
  getPlugin pluginId s = Some pluginState ->
  ps_plugin pluginState = Some plugin ->
  force = true ∨ ps_status pluginState = READY ∨ ps_status pluginState = UNLOADED ->
  initOrRegistrationThrows w pluginId plugin e s ->
  ∃ s', loadPlugin w pluginId force s = (Throw e, s') ∧
        holds_at pluginId
          (fun ps => ps_status ps = ERROR ∧ ps_error ps = Some (message e)) s'.
Proof.
  intros Hget Hplugin Hguard Hthrows.
  unfold loadPlugin. rewrite run_bind. unfold gets. rewrite Hget, Hplugin.
  assert (G1 : bool_decide (ps_status pluginState = LOADED) && negb force = false).
  { destruct Hguard as [-> | [Hst | Hst]].
    - apply andb_false_r.
    - rewrite Hst. done.
    - rewrite Hst. done. }
  assert (G2 : bool_decide (ps_status pluginState ≠ READY)
               && bool_decide (ps_status pluginState ≠ UNLOADED) && negb force = false).
  { destruct Hguard as [-> | [Hst | Hst]].
    - apply andb_false_r.
    - rewrite Hst. done.
    - rewrite Hst. done. }
  rewrite G1, G2. unfold try_catch. rewrite loadPlugin_try_split.
  assert (Hpre : ∃ s1,
    (emitEvent PLUGIN_BUILDING pluginId ;;
     match init plugin with
     | Some hook => runInit hook
     | None => mret tt
     end ;;
     registerPluginComponents w plugin) s = (Throw e, s1)).
  { destruct Hthrows as [(m & Hinit & ->) | (Hinit & s1 & Hreg)].
    - rewrite Hinit. eexists. reflexivity.
    - exists s1. cbv [mbind M_bind].
      destruct (emitEvent PLUGIN_BUILDING pluginId s) as [r0 s0] eqn:Hemit.
      unfold emitEvent, modify in Hemit. injection Hemit as <- <-.
      simpl in Hreg. destruct Hinit as [-> | ->]; simpl; by rewrite Hreg. }
  destruct Hpre as (s1 & Hpre). rewrite Hpre.
  apply loadPlugin_catch_throws.
  eapply (preserves_loadPlugin_try_prefix w pluginId plugin);
    [apply ignores_components_True | | exact Hpre].
  by exists pluginState.
Qed.

(** ** Original plugins *)

Lemma loadPlugin_noop_when_loaded w pluginId s ps :
  getPlugin pluginId s = Some ps -> ps_status ps = LOADED ->
  loadPlugin w pluginId false s = (Ok tt, s).
Proof.
  intros Hget Hst. unfold loadPlugin. rewrite run_bind. unfold gets.
  rewrite Hget, Hst. done.
Qed.

Lemma repeatLoad_noop ws pluginId s ps :
  getPlugin pluginId s = Some ps -> ps_status ps = LOADED ->
  repeatLoad ws pluginId s = s.
Proof.
  intros Hget Hst. induction ws as [|w ws IH]; simpl; [done|].
  by rewrite (loadPlugin_noop_when_loaded _ _ _ _ Hget Hst).
Qed.

(** C4, as the code has it.  For a record of an original plugin: while the
    record is [LOADED], [unloadPlugin] throws [ProtectedPlugin] and changes
    nothing, also after any number of [loadPlugin] calls without [force],
    which change nothing either; when the record is not [LOADED],
    [unloadPlugin] returns without error and without effect. *)
Theorem unloadPlugin_original_protected_while_loaded
    (w : World) (pluginId : string) (s : State) (pluginState : PluginState) :
  getPlugin pluginId s = Some pluginState ->
  isOriginal pluginState s = true ->
  (ps_status pluginState = LOADED ->
   ∀ ws, repeatLoad ws pluginId s = s ∧
         unloadPlugin w pluginId (repeatLoad ws pluginId s)
         = (Throw (ProtectedPlugin (ps_name pluginState)), s)) ∧
  (ps_status pluginState ≠ LOADED -> unloadPlugin w pluginId s = (Ok tt, s)).
Proof.
  intros Hget Horig. split.
  - intros Hst ws. rewrite (repeatLoad_noop ws _ _ _ Hget Hst). split; [done|].
    unfold unloadPlugin. rewrite run_bind. unfold gets. rewrite Hget.
    rewrite bool_decide_eq_false_2 by (by rewrite Hst; intros []).
    rewrite run_bind, Horig. done.
  - intros Hst. unfold unloadPlugin. rewrite run_bind. unfold gets. rewrite Hget.
    by rewrite bool_decide_eq_true_2.
Qed.

(** Every plugin the host holds when the manager is constructed gets a
    [LOADED] record that counts as original. *)
Lemma initializeRegistry_lookup w originals k :
  k ∈ (fun p => w_uuid w (plugin_name p)) <$> originals ->
  ∃ q, q ∈ originals ∧ w_uuid w (plugin_name q) = k ∧
       alist_get k (initializeRegistry w originals) = Some (initialState w q).
Proof.
  unfold initializeRegistry.
  induction originals as [|p l IH] using rev_ind; [by intros ?%elem_of_nil|].
  rewrite fmap_app, foldl_app. simpl. rewrite alist_get_set.
  intros Hin. destruct (decide (w_uuid w (plugin_name p) = k)) as [Heq|Hne].
  - exists p. split; [apply elem_of_app; right; apply list_elem_of_here | done].
  - apply elem_of_app in Hin as [Hin | Hin].
    + destruct (IH Hin) as (q & Hq & Hk & Hg). exists q.
      split; [apply elem_of_app; by left | done].
    + apply list_elem_of_singleton in Hin. congruence.
Qed.

Lemma construct_originals_loaded w rt dir cache p :
  p ∈ rt_plugins rt ->
  ∃ ps, getPlugin (w_uuid w (plugin_name p)) (construct w rt dir cache) = Some ps ∧
        ps_status ps = LOADED ∧
        isOriginal ps (construct w rt dir cache) = true.
Proof.
  intros Hin.
  destruct (initializeRegistry_lookup w (rt_plugins rt) (w_uuid w (plugin_name p)))
    as (q & Hq & Hk & Hg).
  { apply (list_elem_of_fmap_2 (fun p => w_uuid w (plugin_name p))). exact Hin. }
  exists (initialState w q). split; [exact Hg|]. split; [done|].
  unfold isOriginal. simpl. apply existsb_exists. exists q.
  split; [by apply list_elem_of_In | by apply bool_decide_eq_true_2].
Qed.

Lemma unloadPlugin_original_protected_while_loaded_witness :
  unloadPlugin plainWorld "uuid:core"
    (repeatLoad [plainWorld; plainWorld] "uuid:core" managerWithCore)
  = (Throw (ProtectedPlugin "core"), managerWithCore).
Proof.
  destruct (construct_originals_loaded plainWorld hostWithCore None None brittlePlugin
              ltac:(apply list_elem_of_here)) as (ps & Hget & Hst & Horig).
  injection Hget as <-.
  apply (unloadPlugin_original_protected_while_loaded plainWorld "uuid:core"
           managerWithCore (initialState plainWorld brittlePlugin)
           ltac:(reflexivity) Horig).
  exact Hst.
Defined.

(** C4 as stated fails: after a forced reload of an original plugin whose
    [init] hook throws, the record is in [ERROR], and [unloadPlugin] of it
    returns normally instead of throwing [ProtectedPlugin]. *)
Lemma unloadPlugin_original_not_protected_after_failed_reload :
  let s := (loadPlugin plainWorld "uuid:core" true managerWithCore).2 in
  brittlePlugin ∈ originalPlugins s ∧
  holds_at "uuid:core" (fun ps => ps_status ps = ERROR ∧ isOriginal ps s = true) s ∧
  unloadPlugin plainWorld "uuid:core" s = (Ok tt, s).
Proof.
  split; [apply list_elem_of_here|]. split.
  - eexists. split; [vm_compute; reflexivity | split; reflexivity].
  - vm_compute. reflexivity.
Qed.

(** ** Extensionality of records and of the table update *)

Lemma State_eq (s t : State) :
  runtime s = runtime t -> plugins s = plugins t ->
  pluginDirectory s = pluginDirectory t ->
  originalPlugins s = originalPlugins t ->
  originalActions s = originalActions t ->
  originalProviders s = originalProviders t ->
  originalEvaluators s = originalEvaluators t ->
  originalServices s = originalServices t ->
  installedPlugins s = installedPlugins t ->
  componentRegistry s = componentRegistry t ->
  registryCache s = registryCache t ->
  s = t.
Proof. destruct s, t; simpl; intros; by subst. Qed.

Lemma Runtime_eq (r t : Runtime) :
  rt_actions r = rt_actions t -> rt_providers r = rt_providers t ->
  rt_evaluators r = rt_evaluators t -> rt_services r = rt_services t ->
  rt_events r = rt_events t -> rt_plugins r = rt_plugins t ->
  rt_emitted r = rt_emitted t ->
  r = t.
Proof. destruct r, t; simpl; intros; by subst. Qed.

Lemma PluginComponents_eq (c d : PluginComponents) :
  pc_actions c = pc_actions d -> pc_providers c = pc_providers d ->
  pc_evaluators c = pc_evaluators d -> pc_services c = pc_services d ->
  pc_eventHandlers c = pc_eventHandlers d ->
  c = d.
Proof. destruct c, d; simpl; intros; by subst. Qed.

Lemma set_ps_components_ext f g ps :
  f (ps_components ps) = g (ps_components ps) ->
  set_ps_components f ps = set_ps_components g ps.
Proof. unfold set_ps_components. by intros ->. Qed.

Lemma set_ps_components_id f ps :
  f (ps_components ps) = ps_components ps -> set_ps_components f ps = ps.
Proof. unfold set_ps_components. intros ->. by destruct ps. Qed.

Lemma same_plugin_set_ps_components P f ps :
  same_plugin P (set_ps_components f ps) = same_plugin P ps.
Proof. done. Qed.

(** Two mutations of the found record's components amount to one. *)
Lemma update_found_comp P f g l :
  update_found P g (update_found P f l) = update_found P (fun c => g (f c)) l.
Proof.
  induction l as [|[k ps] l IH]; simpl; [done|].
  destruct (same_plugin P ps) eqn:E; simpl.
  - by rewrite same_plugin_set_ps_components, E.
  - by rewrite E, IH.
Qed.

(** Only what the mutation does to the found record's components matters. *)
Lemma update_found_ext P f g l :
  (∀ ps, findPluginState P l = Some ps ->
         f (ps_components ps) = g (ps_components ps)) ->
  update_found P f l = update_found P g l.
Proof.
  induction l as [|[k ps] l IH]; simpl; [done|].
  destruct (same_plugin P ps) eqn:E; intros H.
  - f_equal. f_equal. apply set_ps_components_ext. by apply H.
  - f_equal. by apply IH.
Qed.

Lemma update_found_id P f l :
  (∀ ps, findPluginState P l = Some ps ->
         f (ps_components ps) = ps_components ps) ->
  update_found P f l = l.
Proof.
  induction l as [|[k ps] l IH]; simpl; [done|].
  destruct (same_plugin P ps) eqn:E; intros H.
  - f_equal. f_equal. apply set_ps_components_id. by apply H.
  - f_equal. by apply IH.
Qed.

Lemma findPluginState_update_found P f l :
  findPluginState P (update_found P f l) = set_ps_components f <$> findPluginState P l.
Proof.
  induction l as [|[k ps] l IH]; simpl; [done|].
  destruct (same_plugin P ps) eqn:E; simpl.
  - by rewrite same_plugin_set_ps_components, E.
  - by rewrite E.
Qed.

(** Two states built by field updates are compared field by field. *)
Ltac state_eq :=
  apply State_eq; simpl; try done;
  try (apply Runtime_eq; simpl; try done);
  try (rewrite ?update_found_comp;
       first [ apply update_found_ext | symmetry; apply update_found_id ];
       intros ? _; apply PluginComponents_eq; simpl; try done).

(** ** The three host arrays *)

Lemma remove_first_absent {A} (p : A -> bool) (l : list A) :
  existsb p l = false -> remove_first p l = l.
Proof.
  induction l as [|x l IH]; simpl; [done|].
  destruct (p x); simpl; [done|]. intros H. by rewrite IH.
Qed.

Lemma registerComponent_run w k c s :
  registerComponent w k c s =
  match w_host_fault w (c_name c) with
  | Some m => (Throw (Foreign m), s)
  | None => (Ok tt, set_runtime (set_hostList k (fun l => l ++ [c])) s)
  end.
Proof.
  destruct k; simpl; unfold registerAction, registerProvider, registerEvaluator,
    hostRegister; by destruct (w_host_fault w (c_name c)).
Qed.

(** A registration loop that returns has appended every component to the
    host array, added every name to the record's set and to the audit trail,
    and touched nothing else. *)
Lemma registerList_ok w k P pluginId cs : ∀ s s',
  forM_ cs (fun c =>
    registerComponent w k c ;;
    withComponents P (set_owned k (fun x => x ∪ {[c_name c]})) ;;
    trackComponentRegistration w pluginId (kindType k) (c_name c)) s = (Ok tt, s') ->
  s' = afterRegister w k P pluginId cs s.
Proof.
  induction cs as [|c cs IH]; intros s s'; simpl.
  - intros [= <-]. destruct k; state_eq; by rewrite ?app_nil_r, ?union_empty_r_L.
  - rewrite run_bind, run_bind, registerComponent_run.
    destruct (w_host_fault w (c_name c)); [discriminate|].
    unfold withComponents, trackComponentRegistration. run_m.
    intros H. apply IH in H. subst s'.
    destruct k; state_eq; by rewrite <- ?app_assoc, ?(assoc_L (∪)).
Qed.

Lemma forM_cons {A} (f : A -> M unit) x l s :
  forM_ (x :: l) f s =
  match f x s with
  | (Ok _, s1) => forM_ l f s1
  | (Throw e, s1) => (Throw e, s1)
  end.
Proof. reflexivity. Qed.

Lemma unregisterList_run k P cs : ∀ s,
  forM_ cs (fun c =>
    s ← gets (fun s => s);
    if decide (c_name c ∈ originalNames k s) then mret tt
    else if existsb (named (c_name c)) (hostList k (runtime s)) then
      modify (set_runtime (set_hostList k (remove_first (named (c_name c))))) ;;
      withComponents P (set_owned k (fun x => x ∖ {[c_name c]}))
    else mret tt) s
  = (Ok tt, afterUnregister k P cs s).
Proof.
  induction cs as [|c cs IH]; intros s.
  - simpl. f_equal. destruct k; state_eq.
  - rewrite forM_cons. cbv beta. rewrite run_bind. unfold gets at 1. cbv beta iota.
    unfold afterUnregister. cbn [removeDeclared disownDeclared].
    destruct (decide (c_name c ∈ originalNames k s)) as [Hin|Hnin].
    { unfold mret at 1, M_ret. by rewrite IH. }
    destruct (existsb (named (c_name c)) (hostList k (runtime s))) eqn:Hex.
    + rewrite run_bind. unfold withComponents, modify. cbv beta iota.
      rewrite IH. f_equal. unfold afterUnregister. destruct k; state_eq.
    + unfold mret at 1, M_ret. rewrite IH. f_equal. unfold afterUnregister.
      destruct k; state_eq; simpl in *; by rewrite remove_first_absent by done.
Qed.

(** ** Events and services *)

Lemma trackAll_app w pluginId ty ns ns' reg :
  trackAll w pluginId ty (ns ++ ns') reg
  = trackAll w pluginId ty ns' (trackAll w pluginId ty ns reg).
Proof. unfold trackAll. by rewrite foldl_app. Qed.

Lemma registerEvent_run w e h s :
  registerEvent w e h s =
  match w_host_fault w e with
  | Some m => (Throw (Foreign m), s)
  | None => (Ok tt, set_runtime (set_rt_events (addHandler e h)) s)
  end.
Proof. unfold registerEvent, hostRegister. by destruct (w_host_fault w e). Qed.

Lemma registerHandlers_ok w P pluginId e hs : ∀ s s',
  forM_ hs (fun h =>
    registerEvent w e h ;;
    withComponents P (set_pc_eventHandlers (trackHandler e h)) ;;
    trackComponentRegistration w pluginId CTeventHandler e) s = (Ok tt, s') ->
  s' = afterRegisterHandlers w P pluginId e hs s.
Proof.
  induction hs as [|h hs IH]; intros s s'.
  - simpl. intros [= <-]. state_eq.
  - rewrite forM_cons. cbv beta. rewrite run_bind, registerEvent_run.
    destruct (w_host_fault w e); [discriminate|].
    unfold withComponents, trackComponentRegistration, modify. rewrite run_bind.
    cbv beta iota. intros H. apply IH in H. subst s'. state_eq.
Qed.

Lemma registerEvents_ok w P pluginId evs : ∀ s s',
  forM_ evs (fun '(eventName, eventHandlers) =>
    withComponents P (set_pc_eventHandlers (ensureEvent eventName)) ;;
    forM_ eventHandlers (fun eventHandler =>
      registerEvent w eventName eventHandler ;;
      withComponents P (set_pc_eventHandlers (trackHandler eventName eventHandler)) ;;
      trackComponentRegistration w pluginId CTeventHandler eventName)) s = (Ok tt, s') ->
  s' = afterRegisterEvents w P pluginId evs s.
Proof.
  induction evs as [|[e hs] evs IH]; intros s s'.
  - simpl. intros [= <-]. state_eq.
  - rewrite forM_cons. cbv beta iota. rewrite run_bind.
    unfold withComponents at 1, modify at 1. cbv beta iota.
    destruct (forM_ hs _ _) as [[[]|err] s1] eqn:Hhs; [|discriminate].
    apply registerHandlers_ok in Hhs. subst s1.
    intros H. apply IH in H. subst s'. state_eq.
    unfold eventAudit. simpl. by rewrite trackAll_app.
Qed.

Lemma started_cons sc scs :
  started (sc :: scs) =
  match start sc with
  | inr svc => (serviceType sc, svc) :: started scs
  | inl _ => started scs
  end.
Proof. unfold started. simpl. by destruct (start sc). Qed.

(** The service loop never throws, and a service whose [start] rejects
    leaves no trace. *)
Lemma registerServices_run w P pluginId scs : ∀ s,
  forM_ scs (fun ServiceClass =>
    try_catch
      (service ← startService ServiceClass;
       modify (set_runtime (set_rt_services <[serviceType ServiceClass := service]>)) ;;
       withComponents P (set_pc_services (fun x => x ∪ {[serviceType ServiceClass]})) ;;
       trackComponentRegistration w pluginId CTservice (serviceType ServiceClass))
      (fun _ => mret tt)) s
  = (Ok tt, afterRegisterServices w P pluginId scs s).
Proof.
  induction scs as [|sc scs IH]; intros s.
  - simpl. f_equal. state_eq. by rewrite union_empty_r_L.
  - rewrite forM_cons. cbv beta. unfold afterRegisterServices.
    rewrite started_cons.
    match goal with |- context [forM_ scs ?f] => set (rest := forM_ scs f) in * end.
    unfold try_catch, startService. rewrite run_bind.
    destruct (start sc) as [m|svc].
    + unfold throw, mret, M_ret. apply IH.
    + unfold mret at 1, M_ret at 1. cbv beta iota.
      unfold withComponents, trackComponentRegistration, modify. rewrite run_bind.
      cbv beta iota. etransitivity; [apply IH|]. f_equal. state_eq.
      by rewrite (assoc_L (∪)).
Qed.

Lemma unregisterHandlers_run e hs : ∀ s,
  forM_ hs (fun handler => unregisterEvent e handler) s
  = (Ok tt, set_runtime (set_rt_events (dropHandlers e hs)) s).
Proof.
  induction hs as [|h hs IH]; intros s.
  - simpl. f_equal. state_eq.
  - rewrite forM_cons. unfold unregisterEvent at 1, modify. rewrite IH. f_equal.
Qed.

Lemma unregisterTracked_run tracked : ∀ s,
  forM_ tracked (fun '(eventName, handlers) =>
    forM_ handlers (fun handler => unregisterEvent eventName handler)) s
  = (Ok tt, set_runtime (set_rt_events (dropTracked tracked)) s).
Proof.
  induction tracked as [|[e hs] tracked IH]; intros s.
  - simpl. f_equal. state_eq.
  - rewrite forM_cons. cbv beta iota. rewrite unregisterHandlers_run, IH. f_equal.
Qed.

Lemma unregisterEvents_run P s :
  unregisterEvents P s = (Ok tt, afterUnregisterEvents P s).
Proof.
  unfold unregisterEvents, afterUnregisterEvents. rewrite run_bind. unfold gets.
  destruct (pc_eventHandlers (foundComponents P s)) as [|ev tracked] eqn:Htr.
  - unfold mret, M_ret. f_equal. apply State_eq; simpl; try done.
    + by apply Runtime_eq.
    + symmetry. apply update_found_id. intros ps Hps.
      unfold foundComponents in Htr. rewrite Hps in Htr.
      by apply PluginComponents_eq.
  - rewrite run_bind, unregisterTracked_run. unfold withComponents, modify. done.
Qed.

Lemma unregisterServices_run P scs : ∀ s,
  forM_ scs (fun ServiceClass =>
    s ← gets (fun s => s);
    if decide (serviceType ServiceClass ∈ originalServices s) then mret tt
    else
      match rt_services (runtime s) !! serviceType ServiceClass with
      | Some service =>
          try_catch (stopService service) (fun _ => mret tt) ;;
          modify (set_runtime (set_rt_services (delete (serviceType ServiceClass)))) ;;
          withComponents P (set_pc_services (fun x => x ∖ {[serviceType ServiceClass]}))
      | None => mret tt
      end) s
  = (Ok tt, afterUnregisterServices P scs s).
Proof.
  induction scs as [|sc scs IH]; intros s.
  - simpl. f_equal. state_eq.
  - rewrite forM_cons. cbv beta. rewrite run_bind. unfold gets at 1. cbv beta iota.
    unfold afterUnregisterServices. cbn [stopDeclared disownServices].
    destruct (decide (serviceType sc ∈ originalServices s)) as [Hin|Hnin].
    { unfold mret at 1, M_ret. by rewrite IH. }
    destruct (rt_services (runtime s) !! serviceType sc) as [svc|] eqn:Hsvc.
    + rewrite run_bind.
      assert (Hstop : try_catch (stopService svc) (fun _ => mret tt) s = (Ok tt, s)).
      { unfold try_catch, stopService. by destruct (stop svc). }
      rewrite Hstop. unfold withComponents, modify. rewrite run_bind. cbv beta iota.
      rewrite IH. f_equal. unfold afterUnregisterServices. state_eq.
    + unfold mret at 1, M_ret. rewrite IH. f_equal. unfold afterUnregisterServices.
      state_eq. by rewrite delete_id.
Qed.

(** ** Whole registrations and unregistrations *)

Lemma findPluginState_exists P l k ps :
  alist_get k l = Some ps -> ps_plugin ps = Some P ->
  ∃ psf, findPluginState P l = Some psf.
Proof.
  induction l as [|[k0 ps0] l IH]; simpl; [done|].
  destruct (same_plugin P ps0) eqn:E; [eauto|].
  destruct (decide (k0 = k)) as [->|Hne]; [|by auto].
  intros [= ->] Hpl. unfold same_plugin in E. rewrite Hpl in E.
  by rewrite bool_decide_eq_true_2 in E.
Qed.

Lemma registerPluginComponents_ok w P s s' :
  registerPluginComponents w P s = (Ok tt, s') ->
  ∃ ps, findPluginState P (plugins s) = Some ps ∧
        s' = afterRegistration w P (ps_id ps) s.
Proof.
  unfold registerPluginComponents. rewrite run_bind. unfold gets at 1.
  destruct (findPluginState P (plugins s)) as [ps|]; [|discriminate].
  intros H. exists ps. split; [done|].
  apply bind_ok_inv in H as ([] & s1 & H1 & H).
  apply bind_ok_inv in H as ([] & s2 & H2 & H).
  apply bind_ok_inv in H as ([] & s3 & H3 & H).
  apply bind_ok_inv in H as ([] & s4 & H4 & H).
  apply bind_ok_inv in H as ([] & s5 & H5 & H).
  apply registerList_ok in H1, H2, H3. apply registerEvents_ok in H4.
  unfold registerServices in H5. rewrite registerServices_run in H5.
  injection H5 as <-. injection H as <-. by subst.
Qed.

Lemma unregisterPluginComponents_run P s ps :
  findPluginState P (plugins s) = Some ps ->
  unregisterPluginComponents P s = (Ok tt, afterUnregistration P (ps_id ps) s).
Proof.
  intros Hf. unfold unregisterPluginComponents. rewrite run_bind. unfold gets at 1.
  rewrite Hf. unfold unregisterActions, unregisterProviders, unregisterEvaluators,
    unregisterComponents, unregisterServices.
  rewrite run_bind, unregisterList_run, run_bind, unregisterList_run,
    run_bind, unregisterList_run, run_bind, unregisterEvents_run,
    run_bind, unregisterServices_run.
  reflexivity.
Qed.

(** An [unloadPlugin] that gets past its checks always completes. *)
Lemma unloadPlugin_run w pluginId s ps P :
  getPlugin pluginId s = Some ps -> ps_status ps = LOADED ->
  isOriginal ps s = false -> ps_plugin ps = Some P ->
  ∃ psf ps1,
    findPluginState P (plugins s) = Some psf ∧
    alist_get pluginId (plugins (afterUnregistration P (ps_id psf) s)) = Some ps1 ∧
    ps_plugin ps1 = Some P ∧
    unloadPlugin w pluginId s =
      (Ok tt,
       set_runtime (set_rt_emitted (fun l => l ++ [(PLUGIN_UNLOADED, pluginId)]))
         (set_plugins (alist_set pluginId (unloaded_update (w_now w) ps1))
            (afterUnregistration P (ps_id psf) s))).
Proof.
  intros Hget Hst Horig Hpl.
  destruct (findPluginState_exists P _ _ _ Hget Hpl) as (psf & Hf).
  assert (Hkeep : holds_at pluginId (fun x => ps_plugin x = Some P)
                    (afterUnregistration P (ps_id psf) s)).
  { eapply (preserves_unregisterPluginComponents pluginId
              (fun x => ps_plugin x = Some P) P);
      [by intros ? ? ? | | apply (unregisterPluginComponents_run _ _ _ Hf)].
    by exists ps. }
  destruct Hkeep as (ps1 & Hget1 & Hpl1).
  exists psf, ps1. split; [done|]. split; [done|]. split; [done|].
  unfold unloadPlugin. rewrite run_bind. unfold gets at 1. rewrite Hget.
  rewrite bool_decide_eq_false_2 by (by rewrite Hst; intros []).
  rewrite run_bind. unfold gets at 1. rewrite Horig.
  unfold try_catch, unloadPlugin_try. rewrite Hpl.
  rewrite run_bind, (unregisterPluginComponents_run _ _ _ Hf).
  rewrite run_bind, (updatePluginState_run _ _ _ _ Hget1).
  reflexivity.
Qed.

(** ** Counting the entries of a name *)

Lemma countNamed_cons n c l :
  countNamed n (c :: l) =
  if decide (c_name c = n) then S (countNamed n l) else countNamed n l.
Proof.
  unfold countNamed. destruct (decide (c_name c = n)).
  - by rewrite filter_cons_True.
  - by rewrite filter_cons_False.
Qed.

Lemma countNamed_remove_first n m l :
  countNamed n (remove_first (named m) l) =
  if decide (m = n) then (countNamed n l - 1)%nat else countNamed n l.
Proof.
  induction l as [|c l IH]; simpl.
  - by destruct (decide (m = n)).
  - unfold named at 1. rewrite !countNamed_cons.
    destruct (bool_decide (c_name c = m)) eqn:E.
    + apply bool_decide_eq_true_1 in E.
      destruct (decide (m = n)) as [Hmn|Hmn].
      * rewrite decide_True by congruence. lia.
      * rewrite decide_False by congruence. done.
    + apply bool_decide_eq_false_1 in E. rewrite countNamed_cons, IH.
      destruct (decide (c_name c = n)) as [Hc|Hc]; [|done].
      destruct (decide (m = n)); [congruence | done].
Qed.

Lemma countNamed_removeDeclared orig n cs : ∀ l,
  countNamed n (removeDeclared orig l cs) =
  if decide (n ∈ orig) then countNamed n l
  else (countNamed n l - countNamed n cs)%nat.
Proof.
  induction cs as [|c cs IH]; intros l; simpl.
  - destruct (decide (n ∈ orig)); [done | unfold countNamed; simpl; lia].
  - rewrite IH, countNamed_cons. destruct (decide (n ∈ orig)) as [Hn|Hn].
    + destruct (decide (c_name c ∈ orig)) as [Hc|Hc]; [done|].
      rewrite countNamed_remove_first. rewrite decide_False; [done | congruence].
    + destruct (decide (c_name c ∈ orig)) as [Hc|Hc].
      * rewrite decide_False by congruence. done.
      * rewrite countNamed_remove_first.
        destruct (decide (c_name c = n)) as [Heq|Hne]; [lia | done].
Qed.

Lemma countNamed_pos n l : n ∈ names l ↔ (0 < countNamed n l)%nat.
Proof.
  unfold names. induction l as [|c l IH]; simpl.
  - unfold countNamed. simpl. split; [by intros ?%elem_of_nil | lia].
  - rewrite elem_of_cons, countNamed_cons.
    destruct (decide (c_name c = n)) as [Hc|Hc].
    + split; [lia | by left].
    + rewrite <- IH. split; [by intros [?|?]; [congruence|] | by right].
Qed.

(** C1, as the code has it.  After [unloadPlugin] of a loaded, non-original
    plugin has completed (and it always completes), for every action name [n]
    the plugin declares: if [n] is an original name, the host registry holds
    as many entries named [n] as before, so [n] is still present if it was;
    if not, the registry has lost one entry named [n], the first in registry
    order, per declaration of [n] by the plugin, as far as there were any, so
    [n] is gone exactly when the registry held no more entries of that name
    than the plugin declares. *)
Theorem unload_removes_first_entry_per_declaration
    (w : World) (pluginId : string) (s : State) (pluginState : PluginState)
    (plugin : Plugin) :
  getPlugin pluginId s = Some pluginState ->
  ps_status pluginState = LOADED ->
  isOriginal pluginState s = false ->
  ps_plugin pluginState = Some plugin ->
  ∃ s',
    unloadPlugin w pluginId s = (Ok tt, s') ∧
    rt_actions (runtime s') =
      removeDeclared (originalActions s) (rt_actions (runtime s)) (actions plugin) ∧
    ∀ n, n ∈ names (actions plugin) ->
      (n ∈ originalActions s ->
         countNamed n (rt_actions (runtime s')) = countNamed n (rt_actions (runtime s)) ∧
         (n ∈ names (rt_actions (runtime s)) -> n ∈ names (rt_actions (runtime s')))) ∧
      (n ∉ originalActions s ->
         countNamed n (rt_actions (runtime s')) =
           (countNamed n (rt_actions (runtime s)) - countNamed n (actions plugin))%nat ∧
         (n ∉ names (rt_actions (runtime s')) ↔
            (countNamed n (rt_actions (runtime s)) ≤ countNamed n (actions plugin))%nat)).
Proof.
  intros Hget Hst Horig Hpl.
  destruct (unloadPlugin_run w _ _ _ _ Hget Hst Horig Hpl)
    as (psf & ps1 & Hf & Hget1 & Hpl1 & Hrun).
  eexists. split; [exact Hrun|]. split; [reflexivity|].
  intros n Hn. simpl.
  pose proof (countNamed_removeDeclared (originalActions s) n (actions plugin)
                (rt_actions (runtime s))) as Hc.
  split.
  - intros Ho. rewrite decide_True in Hc by done. split; [done|].
    rewrite !countNamed_pos. by rewrite Hc.
  - intros Ho. rewrite decide_False in Hc by done. split; [done|].
    rewrite countNamed_pos, Hc. lia.
Qed.

(** ** Services that fail to start *)

Lemma foundComponents_update_found P F s s' :
  plugins s' = update_found P F (plugins s) ->
  is_Some (findPluginState P (plugins s)) ->
  foundComponents P s' = F (foundComponents P s) ∧
  is_Some (findPluginState P (plugins s')).
Proof.
  intros Hp [ps Hf]. unfold foundComponents.
  rewrite Hp, findPluginState_update_found, Hf. simpl. eauto.
Qed.

Lemma started_elem scs ty svc :
  (ty, svc) ∈ started scs ↔
  ∃ sc, sc ∈ scs ∧ serviceType sc = ty ∧ start sc = inr svc.
Proof.
  unfold started. rewrite list_elem_of_omap. split.
  - intros (sc & Hin & Hs). exists sc. destruct (start sc); naive_solver.
  - intros (sc & Hin & <- & Hs). exists sc. by rewrite Hs.
Qed.

Lemma installServices_lookup_other l : ∀ m ty,
  ty ∉ l.*1 -> installServices l m !! ty = m !! ty.
Proof.
  unfold installServices.
  induction l as [|[t svc] l IH]; intros m ty Hnin; simpl; [done|].
  simpl in Hnin. apply not_elem_of_cons in Hnin as [Hne Hnin].
  rewrite IH by done. by rewrite lookup_insert_ne.
Qed.

Lemma installServices_lookup_started l : ∀ m ty,
  ty ∈ l.*1 -> is_Some (installServices l m !! ty).
Proof.
  unfold installServices.
  induction l as [|[t svc] l IH]; intros m ty Hin; simpl.
  - by apply elem_of_nil in Hin.
  - destruct (decide (ty ∈ l.*1)) as [Hl|Hl]; [by apply IH|].
    simpl in Hin. apply elem_of_cons in Hin as [->|Hin]; [|done].
    fold (installServices l (<[t:=svc]> m)).
    rewrite installServices_lookup_other by done.
    rewrite lookup_insert_eq. eauto.
Qed.

(** C9. Once the loops over actions, providers, evaluators and events have
    completed, [registerPluginComponents] completes too, whatever the
    plugin's services do when started: the plugin object is appended to the
    host's plugin list; every service whose [start] resolves is in the host
    service table and in the record's service set; and a service type whose
    every declaring class fails to start is left as it was in the host
    table, in the record's set and in the audit trail. *)
Theorem failing_service_start_is_skipped
    (w : World) (plugin : Plugin) (s t : State) (pluginState : PluginState) :
  findPluginState plugin (plugins s) = Some pluginState ->
  (registerActions w plugin (ps_id pluginState) ;;
   registerProviders w plugin (ps_id pluginState) ;;
   registerEvaluators w plugin (ps_id pluginState) ;;
   registerEvents w plugin (ps_id pluginState)) s = (Ok tt, t) ->
  ∃ s',
    registerPluginComponents w plugin s = (Ok tt, s') ∧
    rt_plugins (runtime s') = rt_plugins (runtime t) ++ [plugin] ∧
    (∀ sc svc, sc ∈ services plugin -> start sc = inr svc ->
       is_Some (rt_services (runtime s') !! serviceType sc) ∧
       serviceType sc ∈ pc_services (foundComponents plugin s')) ∧
    (∀ ty, (∀ sc, sc ∈ services plugin -> serviceType sc = ty -> ∃ m, start sc = inl m) ->
       rt_services (runtime s') !! ty = rt_services (runtime t) !! ty ∧
       (ty ∈ pc_services (foundComponents plugin s') ↔
        ty ∈ pc_services (foundComponents plugin t)) ∧
       filter (fun r => cr_componentType r = CTservice ∧ cr_componentName r = ty)
         (getComponentRegistrations (ps_id pluginState) s')
       = filter (fun r => cr_componentType r = CTservice ∧ cr_componentName r = ty)
           (getComponentRegistrations (ps_id pluginState) t)).
Proof.
  intros Hf Hpre.
  pose proof Hpre as Hpre'.
  apply bind_ok_inv in Hpre' as ([] & s1 & H1 & H).
  apply bind_ok_inv in H as ([] & s2 & H2 & H).
  apply bind_ok_inv in H as ([] & s3 & H3 & H4).
  assert (Hrun : registerPluginComponents w plugin s =
                 (Ok tt, set_runtime (set_rt_plugins (fun l => l ++ [plugin]))
                           (afterRegisterServices w plugin (ps_id pluginState)
                              (services plugin) t))).
  { unfold registerPluginComponents. rewrite run_bind. unfold gets at 1. rewrite Hf.
    cbv beta iota.
    rewrite run_bind, H1, run_bind, H2, run_bind, H3, run_bind, H4, run_bind.
    unfold registerServices. by rewrite registerServices_run. }
  apply registerList_ok in H1, H2, H3. apply registerEvents_ok in H4.
  assert (Hft : is_Some (findPluginState plugin (plugins t))).
  { subst. simpl. rewrite !update_found_comp, findPluginState_update_found, Hf.
    simpl. eauto. }
  destruct (foundComponents_update_found plugin
              (set_pc_services
                 (fun x => x ∪ list_to_set (started (services plugin)).*1))
              t
              (set_runtime (set_rt_plugins (fun l => l ++ [plugin]))
                 (afterRegisterServices w plugin (ps_id pluginState)
                    (services plugin) t)) eq_refl Hft) as [Hfc _].
  eexists. split; [exact Hrun|]. split; [reflexivity|]. split.
  - intros sc svc Hin Hs.
    assert (Hty : serviceType sc ∈ (started (services plugin)).*1).
    { apply list_elem_of_fmap. exists (serviceType sc, svc). split; [done|].
      apply started_elem. eauto. }
    split.
    + simpl. by apply installServices_lookup_started.
    + rewrite Hfc. simpl. apply elem_of_union_r. by apply elem_of_list_to_set.
  - intros ty Hall.
    assert (Hty : ty ∉ (started (services plugin)).*1).
    { intros Hin. apply list_elem_of_fmap in Hin as ([ty' svc] & -> & Hin).
      apply started_elem in Hin as (sc & Hsc & Heq & Hs).
      destruct (Hall sc Hsc Heq) as [m Hm]. congruence. }
    split; [|split].
    + simpl. by apply installServices_lookup_other.
    + rewrite Hfc. simpl. rewrite elem_of_union, elem_of_list_to_set.
      split; [by intros [?|?] | by left].
    + unfold getComponentRegistrations. simpl.
      generalize (componentRegistry t). clear -Hty.
      induction (started (services plugin)).*1 as [|n ns IH]; intros reg; [done|].
      apply not_elem_of_cons in Hty as [Hne Hty]. simpl.
      rewrite (IH Hty). rewrite lookup_insert_eq. simpl.
      rewrite filter_app, filter_cons_False, filter_nil, app_nil_r; [done|].
      simpl. intros [_ ?]. congruence.
Qed.

(** ** Event handlers of other plugins *)

Lemma filter_keeps_all {A} (P : A -> Prop) `{!∀ x, Decision (P x)} (l : list A) :
  (∀ x, x ∈ l -> P x) -> filter P l = l.
Proof.
  induction l as [|x l IH]; intros Hall; [done|].
  rewrite filter_cons_True by (apply Hall, list_elem_of_here).
  f_equal. apply IH. intros y Hy. apply Hall. by apply list_elem_of_further.
Qed.

Lemma handlers_dropHandler e h m e' :
  default [] (dropHandler e h m !! e') =
  if decide (e = e') then filter (fun x => x ≠ h) (default [] (m !! e'))
  else default [] (m !! e').
Proof.
  unfold dropHandler. destruct (m !! e) as [hs|] eqn:Hm.
  - destruct (filter (fun x => x ≠ h) hs) as [|x hs'] eqn:Hfl.
    + destruct (decide (e = e')) as [<-|Hne].
      * rewrite lookup_delete_eq, Hm. simpl. by rewrite Hfl.
      * by rewrite lookup_delete_ne.
    + destruct (decide (e = e')) as [<-|Hne].
      * rewrite lookup_insert_eq, Hm. simpl. by rewrite Hfl.
      * by rewrite lookup_insert_ne.
  - destruct (decide (e = e')) as [<-|Hne]; [by rewrite Hm | done].
Qed.

Lemma handlers_dropHandlers e hs e' : ∀ m,
  default [] (dropHandlers e hs m !! e') =
  if decide (e = e') then filter (fun x => x ∉ hs) (default [] (m !! e'))
  else default [] (m !! e').
Proof.
  unfold dropHandlers. induction hs as [|h hs IH]; intros m; simpl.
  - destruct (decide (e = e')); [|done].
    symmetry. apply filter_keeps_all. intros x _. apply not_elem_of_nil.
  - rewrite IH, handlers_dropHandler. destruct (decide (e = e')); [|done].
    rewrite list_filter_filter. apply list_filter_iff. intros x.
    rewrite not_elem_of_cons. tauto.
Qed.

(** What the unregistration loops leave of an event's handlers: those the
    tracking Map does not hold for that event, in their order. *)
Lemma handlers_dropTracked tracked e : ∀ m,
  default [] (dropTracked tracked m !! e) =
  filter (fun h => isTracked tracked e h = false) (default [] (m !! e)).
Proof.
  unfold dropTracked. induction tracked as [|[e0 hs] tracked IH]; intros m; simpl.
  - symmetry. by apply filter_keeps_all.
  - rewrite IH, handlers_dropHandlers. simpl.
    destruct (decide (e0 = e)) as [->|Hne].
    + rewrite list_filter_filter. apply list_filter_iff. intros h.
      rewrite (bool_decide_eq_true_2 (e = e)) by done. simpl.
      rewrite orb_false_iff, bool_decide_eq_false. tauto.
    + apply list_filter_iff. intros h.
      by rewrite (bool_decide_eq_false_2 (e0 = e)) by done.
Qed.

Lemma findPluginState_update_found_other A B f l :
  plugin_ref A ≠ plugin_ref B ->
  findPluginState B (update_found A f l) = findPluginState B l.
Proof.
  intros Hne. induction l as [|[k ps] l IH]; simpl; [done|].
  destruct (same_plugin A ps) eqn:EA; simpl.
  - assert (EB : same_plugin B ps = false).
    { unfold same_plugin in *. destruct (ps_plugin ps) as [q|]; [|done].
      apply bool_decide_eq_true_1 in EA. apply bool_decide_eq_false_2. congruence. }
    by rewrite same_plugin_set_ps_components, EB.
  - by rewrite IH.
Qed.

Lemma findPluginState_alist_set_components P k l ps1 ps' :
  alist_get k l = Some ps1 ->
  ps_plugin ps' = ps_plugin ps1 ->
  ps_components ps' = ps_components ps1 ->
  ps_components <$> findPluginState P (alist_set k ps' l)
  = ps_components <$> findPluginState P l.
Proof.
  intros Hget Hpl Hc. induction l as [|[k0 ps0] l IH]; simpl in *; [done|].
  destruct (decide (k0 = k)) as [->|Hne]; simpl.
  - injection Hget as ->. unfold same_plugin. rewrite Hpl.
    destruct (match ps_plugin ps1 with Some q => _ | None => _ end); simpl;
      [by rewrite Hc | done].
  - destruct (same_plugin P ps0); [done | by apply IH].
Qed.

Lemma foundComponents_alist_set P k s s' ps1 ps' :
  alist_get k (plugins s) = Some ps1 ->
  ps_plugin ps' = ps_plugin ps1 ->
  ps_components ps' = ps_components ps1 ->
  plugins s' = alist_set k ps' (plugins s) ->
  foundComponents P s' = foundComponents P s.
Proof.
  intros Hget Hpl Hc Hs'. unfold foundComponents. rewrite Hs'.
  pose proof (findPluginState_alist_set_components P k _ _ _ Hget Hpl Hc) as H.
  destruct (findPluginState P (alist_set k ps' (plugins s)));
    destruct (findPluginState P (plugins s)); simpl in H; congruence.
Qed.

Lemma foundComponents_update_found_other A B F s s' :
  plugin_ref A ≠ plugin_ref B ->
  plugins s' = update_found A F (plugins s) ->
  foundComponents B s' = foundComponents B s.
Proof.
  intros Hne Hp. unfold foundComponents.
  by rewrite Hp, findPluginState_update_found_other.
Qed.

(** The table [unregisterPluginComponents] leaves is the old one with one
    mutation of the found record's components. *)
Lemma afterUnregistration_plugins P pluginId s :
  ∃ F, plugins (afterUnregistration P pluginId s) = update_found P F (plugins s) ∧
       (∀ c, pc_eventHandlers (F c) = [] ).
Proof.
  eexists. split.
  - unfold afterUnregistration, afterUnregisterServices, afterUnregisterEvents,
      afterUnregister. simpl. rewrite !update_found_comp. reflexivity.
  - done.
Qed.

Lemma afterUnregister_found k P cs s :
  is_Some (findPluginState P (plugins s)) ->
  pc_eventHandlers (foundComponents P (afterUnregister k P cs s))
  = pc_eventHandlers (foundComponents P s) ∧
  pc_services (foundComponents P (afterUnregister k P cs s))
  = pc_services (foundComponents P s) ∧
  is_Some (findPluginState P (plugins (afterUnregister k P cs s))).
Proof.
  intros Hf.
  destruct (foundComponents_update_found P _ s (afterUnregister k P cs s) eq_refl Hf)
    as [-> Hs].
  by destruct k.
Qed.

Lemma afterUnregistration_events P pluginId s :
  is_Some (findPluginState P (plugins s)) ->
  rt_events (runtime (afterUnregistration P pluginId s))
  = dropTracked (pc_eventHandlers (foundComponents P s)) (rt_events (runtime s)).
Proof.
  intros Hf.
  destruct (afterUnregister_found KAction P (actions P) s Hf) as (E1 & _ & Hf1).
  destruct (afterUnregister_found KProvider P (providers P) _ Hf1) as (E2 & _ & Hf2).
  destruct (afterUnregister_found KEvaluator P (evaluators P) _ Hf2) as (E3 & _ & Hf3).
  unfold afterUnregistration, afterUnregisterServices, afterUnregisterEvents.
  rewrite E3, E2, E1. reflexivity.
Qed.

(** C8.  Unloading a loaded, non-original plugin [A] completes; it clears
    [A]'s tracking Map; and of every event's handlers on the host bus it
    removes the handler references [A]'s Map tracked for that event and
    nothing else, so a handler another plugin registered under the same
    event name, being a different reference, remains registered, in its
    place.  The tracking of every other plugin is untouched. *)
Theorem unload_unregisters_only_own_handlers
    (w : World) (pluginId : string) (s : State) (pluginState : PluginState)
    (A : Plugin) :
  getPlugin pluginId s = Some pluginState ->
  ps_status pluginState = LOADED ->
  isOriginal pluginState s = false ->
  ps_plugin pluginState = Some A ->
  ∃ s',
    unloadPlugin w pluginId s = (Ok tt, s') ∧
    pc_eventHandlers (foundComponents A s') = [] ∧
    (∀ e, handlersOf s' e =
          filter (fun h => isTracked (pc_eventHandlers (foundComponents A s)) e h = false)
                 (handlersOf s e)) ∧
    (∀ e h, isTracked (pc_eventHandlers (foundComponents A s)) e h = true ->
            h ∉ handlersOf s' e) ∧
    (∀ e h, isTracked (pc_eventHandlers (foundComponents A s)) e h = false ->
            h ∈ handlersOf s e -> h ∈ handlersOf s' e) ∧
    (∀ B, plugin_ref A ≠ plugin_ref B ->
          pc_eventHandlers (foundComponents B s') = pc_eventHandlers (foundComponents B s)).
Proof.
  intros Hget Hst Horig Hpl.
  destruct (unloadPlugin_run w _ _ _ _ Hget Hst Horig Hpl)
    as (psf & ps1 & Hf & Hget1 & Hpl1 & Hrun).
  destruct (afterUnregistration_plugins A (ps_id psf) s) as (F & HF & HFe).
  set (s1 := afterUnregistration A (ps_id psf) s) in *.
  set (s' := set_runtime _ (set_plugins _ s1)) in *.
  assert (Hfound : ∀ B, foundComponents B s' = foundComponents B s1).
  { intros B. apply (foundComponents_alist_set B pluginId s1 s' ps1
                       (unloaded_update (w_now w) ps1)); done. }
  assert (Hev : ∀ e, handlersOf s' e =
          filter (fun h => isTracked (pc_eventHandlers (foundComponents A s)) e h = false)
                 (handlersOf s e)).
  { intros e. unfold handlersOf. subst s' s1. simpl.
    change (rt_events (runtime (afterUnregistration A (ps_id psf) s)))
      with (rt_events (runtime (afterUnregistration A (ps_id psf) s))).
    pose proof (afterUnregistration_events A (ps_id psf) s (mk_is_Some _ _ Hf)) as He.
    unfold afterUnregistration in He. simpl in He. rewrite He.
    apply handlers_dropTracked. }
  exists s'. split; [exact Hrun|]. split; [|split; [exact Hev|split; [|split]]].
  - rewrite Hfound.
    destruct (foundComponents_update_found A F s s1 HF (mk_is_Some _ _ Hf)) as [-> _].
    apply HFe.
  - intros e h Htr. rewrite Hev, list_elem_of_filter. intros [Hno _]. congruence.
  - intros e h Htr Hin. rewrite Hev, list_elem_of_filter. done.
  - intros B Hne. rewrite Hfound.
    by rewrite (foundComponents_update_found_other A B F s s1 Hne HF).
Qed.

(** ** Registering and then unregistering: the host arrays *)

Lemma remove_first_app_fresh {A} (p : A -> bool) l x r :
  existsb p l = false -> p x = true -> remove_first p (l ++ x :: r) = l ++ r.
Proof.
  induction l as [|y l IH]; simpl; intros Hl Hx.
  - by rewrite Hx.
  - apply orb_false_iff in Hl as [Hy Hl]. rewrite Hy. by rewrite IH.
Qed.

Lemma existsb_named_false n l : n ∉ names l -> existsb (named n) l = false.
Proof.
  unfold names. induction l as [|c l IH]; simpl; [done|].
  rewrite not_elem_of_cons. intros [Hne Hl]. unfold named at 1.
  rewrite bool_decide_eq_false_2 by done. by apply IH.
Qed.

Lemma existsb_app_r {A} (p : A -> bool) l x r :
  p x = true -> existsb p (l ++ x :: r) = true.
Proof. intros Hx. rewrite existsb_app. simpl. rewrite Hx. apply orb_true_r. Qed.

(** Entries appended by the registration loop are the ones the
    unregistration loop removes, when their names are new to the array and
    not original. *)
Lemma removeDeclared_round_trip orig cs : ∀ l,
  (∀ n, (n ∈ names cs) -> (n ∉ orig) ∧ (n ∉ names l)) ->
  removeDeclared orig (l ++ cs) cs = l.
Proof.
  induction cs as [|c cs IH]; intros l H; simpl; [by rewrite app_nil_r|].
  destruct (H (c_name c)) as [Ho Hl]; [apply list_elem_of_here|].
  rewrite decide_False by done.
  rewrite remove_first_app_fresh;
    [| by apply existsb_named_false | by apply bool_decide_eq_true_2].
  apply IH. intros n Hn. apply H. by apply list_elem_of_further.
Qed.

Lemma disownDeclared_round_trip orig cs : ∀ l o,
  (∀ n, (n ∈ names cs) -> (n ∉ orig) ∧ (n ∉ names l)) ->
  disownDeclared orig (l ++ cs) o cs = o ∖ list_to_set (names cs).
Proof.
  induction cs as [|c cs IH]; intros l o H; simpl.
  - by rewrite difference_empty_L.
  - destruct (H (c_name c)) as [Ho Hl]; [apply list_elem_of_here|].
    rewrite decide_False by done.
    rewrite existsb_app_r by (by apply bool_decide_eq_true_2).
    rewrite remove_first_app_fresh;
      [| by apply existsb_named_false | by apply bool_decide_eq_true_2].
    rewrite IH by (intros n Hn; apply H; by apply list_elem_of_further).
    by rewrite difference_difference_l_L.
Qed.

(** ** Registering and then unregistering: the service table *)

Lemma stopDeclared_lookup orig scs : ∀ m ty,
  (∀ sc, sc ∈ scs -> serviceType sc ∉ orig) ->
  stopDeclared orig m scs !! ty =
  if decide (ty ∈ serviceType <$> scs) then None else m !! ty.
Proof.
  induction scs as [|sc scs IH]; intros m ty H.
  - done.
  - cbn [stopDeclared]. rewrite decide_False by (apply H, list_elem_of_here).
    rewrite IH by (intros sc' Hsc'; apply H; by apply list_elem_of_further).
    rewrite fmap_cons.
    destruct (decide (ty ∈ serviceType <$> scs)) as [Hin|Hnin].
    + rewrite decide_True; [done | by apply list_elem_of_further].
    + destruct (decide (serviceType sc = ty)) as [<-|Hne].
      * rewrite decide_True by apply list_elem_of_here. apply lookup_delete_eq.
      * rewrite decide_False by (rewrite not_elem_of_cons; done).
        by apply lookup_delete_ne.
Qed.

Lemma started_types_declared scs ty :
  ty ∈ (started scs).*1 -> ty ∈ serviceType <$> scs.
Proof.
  intros Hin. apply list_elem_of_fmap in Hin as ([ty' svc] & -> & Hin).
  apply started_elem in Hin as (sc & Hsc & <- & _). simpl.
  by apply list_elem_of_fmap_2.
Qed.

Lemma services_round_trip orig scs m :
  (∀ sc, sc ∈ scs -> (serviceType sc ∉ orig) ∧ m !! serviceType sc = None) ->
  stopDeclared orig (installServices (started scs) m) scs = m.
Proof.
  intros H. apply map_eq. intros ty.
  rewrite stopDeclared_lookup by (intros sc Hsc; by apply H).
  destruct (decide (ty ∈ serviceType <$> scs)) as [Hin|Hnin].
  - apply list_elem_of_fmap in Hin as (sc & -> & Hsc). symmetry. by apply H.
  - apply installServices_lookup_other. intros Hst.
    by apply Hnin, started_types_declared.
Qed.

Lemma disownServices_spec orig scs : ∀ m o,
  (∀ sc, sc ∈ scs -> serviceType sc ∉ orig) ->
  o ⊆ dom m ->
  disownServices orig m o scs = o ∖ list_to_set (serviceType <$> scs).
Proof.
  induction scs as [|sc scs IH]; intros m o H Hsub; simpl.
  - by rewrite difference_empty_L.
  - rewrite decide_False by (apply H, list_elem_of_here).
    assert (H' : ∀ sc', sc' ∈ scs -> serviceType sc' ∉ orig)
      by (intros sc' Hsc'; apply H; by apply list_elem_of_further).
    destruct (m !! serviceType sc) as [svc|] eqn:Hm.
    + rewrite (IH _ _ H').
      * by rewrite difference_difference_l_L.
      * rewrite dom_delete_L. apply difference_mono_r. done.
    + rewrite (IH _ _ H' Hsub).
      apply not_elem_of_dom in Hm.
      apply set_eq. intros x. rewrite !elem_of_difference, elem_of_union,
        elem_of_singleton. split.
      * intros [Hx Hn]. split; [done|]. intros [->|?]; [|done].
        apply Hm. by apply Hsub.
      * intros [Hx Hn]. split; [done|]. intros ?. apply Hn. by right.
Qed.

Lemma installServices_dom l m ty : ty ∈ l.*1 -> ty ∈ dom (installServices l m).
Proof. intros H. apply elem_of_dom. by apply installServices_lookup_started. Qed.

Lemma owned_services_round_trip orig scs m :
  (∀ sc, sc ∈ scs -> serviceType sc ∉ orig) ->
  disownServices orig (installServices (started scs) m)
    (∅ ∪ list_to_set (started scs).*1) scs = ∅.
Proof.
  intros H. rewrite disownServices_spec; [| done |].
  - apply set_eq. intros x. rewrite elem_of_difference, elem_of_union,
      !elem_of_list_to_set. split; [|by intros ?%not_elem_of_empty].
    intros [[?%not_elem_of_empty|Hx] Hn]; [done|].
    destruct Hn. by apply started_types_declared.
  - intros x. rewrite elem_of_union, elem_of_list_to_set.
    intros [?%not_elem_of_empty|Hx]; [done|]. by apply installServices_dom.
Qed.

(** ** Registering and then unregistering: the event bus *)

Lemma nonEmpty_filter_ext (P Q : Handler -> Prop)
    `{!∀ x, Decision (P x), !∀ x, Decision (Q x)} o :
  (∀ x, P x ↔ Q x) ->
  nonEmpty (filter P <$> o) = nonEmpty (filter Q <$> o).
Proof.
  intros Hiff. destruct o as [l|]; simpl; [|done].
  by rewrite (list_filter_iff P Q l Hiff).
Qed.

Lemma nonEmpty_filter_filter (P Q : Handler -> Prop)
    `{!∀ x, Decision (P x), !∀ x, Decision (Q x)} o :
  nonEmpty (filter P <$> nonEmpty (filter Q <$> o))
  = nonEmpty (filter (fun x => P x ∧ Q x) <$> o).
Proof.
  destruct o as [l|]; simpl; [|done]. rewrite <- list_filter_filter.
  by destruct (filter Q l).
Qed.

Lemma dropHandler_lookup_ne e h m e' :
  e ≠ e' -> dropHandler e h m !! e' = m !! e'.
Proof.
  intros Hne. unfold dropHandler. destruct (m !! e) as [hs|]; [|done].
  destruct (filter _ hs); [by rewrite lookup_delete_ne | by rewrite lookup_insert_ne].
Qed.

Lemma dropHandler_lookup_eq e h m :
  dropHandler e h m !! e = nonEmpty (filter (fun x => x ≠ h) <$> (m !! e)).
Proof.
  unfold dropHandler. destruct (m !! e) as [hs|] eqn:Hm; simpl; [|by rewrite Hm].
  destruct (filter _ hs); [by rewrite lookup_delete_eq | by rewrite lookup_insert_eq].
Qed.

Lemma dropHandlers_lookup_ne e hs e' : ∀ m,
  e ≠ e' -> dropHandlers e hs m !! e' = m !! e'.
Proof.
  unfold dropHandlers. induction hs as [|h hs IH]; intros m Hne; simpl; [done|].
  by rewrite IH, dropHandler_lookup_ne.
Qed.

Lemma dropHandlers_lookup_eq e hs : ∀ m,
  hs ≠ [] ->
  dropHandlers e hs m !! e = nonEmpty (filter (fun x => x ∉ hs) <$> (m !! e)).
Proof.
  unfold dropHandlers. induction hs as [|h hs IH]; intros m Hne; [done|]. simpl.
  destruct hs as [|h' hs].
  - simpl. rewrite dropHandler_lookup_eq. apply nonEmpty_filter_ext.
    intros x. by rewrite list_elem_of_singleton.
  - rewrite IH by done. rewrite dropHandler_lookup_eq, nonEmpty_filter_filter.
    apply nonEmpty_filter_ext. intros x.
    rewrite (not_elem_of_cons (h' :: hs) x h). tauto.
Qed.

Lemma anyTracked_false_isTracked tracked e h :
  anyTracked tracked e = false -> isTracked tracked e h = false.
Proof.
  unfold anyTracked, isTracked. induction tracked as [|[e0 hs] tr IH]; simpl; [done|].
  intros [H1 H2]%orb_false_iff. rewrite (IH H2), orb_false_r.
  destruct (bool_decide (e0 = e)); simpl in *; [|done].
  apply negb_false_iff, bool_decide_eq_true_1 in H1. subst hs.
  apply bool_decide_eq_false_2, not_elem_of_nil.
Qed.

(** What the unregistration loops leave under an event: the entry as it
    was when the Map tracks no handler for it; otherwise the handlers not
    tracked, or no entry when none is left. *)
Lemma dropTracked_lookup tracked e : ∀ m,
  dropTracked tracked m !! e =
  if anyTracked tracked e
  then nonEmpty (filter (fun h => isTracked tracked e h = false) <$> (m !! e))
  else m !! e.
Proof.
  unfold dropTracked. induction tracked as [|[e0 hs] tr IH]; intros m; [done|].
  cbn [foldl]. rewrite IH. cbn [fst snd anyTracked isTracked existsb].
  fold (anyTracked tr e).
  destruct (decide (e0 = e)) as [->|Hne].
  - rewrite (bool_decide_eq_true_2 (e = e)) by done. cbn [andb].
    destruct hs as [|h hs].
    + cbn [dropHandlers foldl].
      rewrite (bool_decide_eq_true_2 ([] = [])) by done. cbn [negb orb].
      destruct (anyTracked tr e); [|done].
      apply nonEmpty_filter_ext. intros x.
      rewrite (bool_decide_eq_false_2 (x ∈ [])) by apply not_elem_of_nil. done.
    + rewrite (bool_decide_eq_false_2 (h :: hs = [])) by done. cbn [negb orb].
      rewrite dropHandlers_lookup_eq by done.
      destruct (anyTracked tr e) eqn:Hany.
      * rewrite nonEmpty_filter_filter. apply nonEmpty_filter_ext. intros x.
        rewrite orb_false_iff, bool_decide_eq_false. tauto.
      * apply nonEmpty_filter_ext. intros x.
        pose proof (anyTracked_false_isTracked _ _ x Hany) as Hx.
        unfold isTracked in Hx. rewrite Hx, orb_false_r.
        by rewrite bool_decide_eq_false.
  - rewrite (bool_decide_eq_false_2 (e0 = e)) by done. cbn [andb orb].
    by rewrite dropHandlers_lookup_ne.
Qed.

Lemma addHandlers_lookup e hs e' : ∀ m,
  addHandlers e hs m !! e' =
  if decide (e = e')
  then match hs with
       | [] => m !! e'
       | _ => Some (default [] (m !! e') ++ hs)
       end
  else m !! e'.
Proof.
  unfold addHandlers. induction hs as [|h hs IH]; intros m; simpl.
  - by destruct (decide (e = e')).
  - rewrite IH. unfold addHandler. destruct (decide (e = e')) as [<-|Hne].
    + rewrite lookup_insert_eq. simpl.
      destruct hs; simpl; [done | by rewrite <- app_assoc].
    + by rewrite lookup_insert_ne.
Qed.

Lemma addEvents_lookup evs e : ∀ m,
  addEvents evs m !! e =
  match declaredHandlers evs e with
  | [] => m !! e
  | a => Some (default [] (m !! e) ++ a)
  end.
Proof.
  unfold addEvents, declaredHandlers.
  induction evs as [|[e0 hs] evs IH]; intros m; [done|].
  cbn [foldl flat_map fst snd]. rewrite IH, addHandlers_lookup.
  destruct (decide (e0 = e)) as [->|Hne]; [|done].
  destruct hs as [|h hs]; [done|]. simpl.
  destruct (flat_map _ evs) as [|a l]; simpl.
  - by rewrite app_nil_r.
  - by rewrite <- app_assoc.
Qed.

(** ** The tracking Map a registration builds *)

Lemma elem_of_oset_add x h l : x ∈ oset_add h l ↔ x = h ∨ x ∈ l.
Proof.
  unfold oset_add. destruct (decide (h ∈ l)) as [Hin|Hnin].
  - split; [by right | by intros [->|?]].
  - rewrite elem_of_app, list_elem_of_singleton. tauto.
Qed.

Lemma alist_get_None_keys {V} k (l : list (string * V)) :
  alist_get k l = None ↔ k ∉ l.*1.
Proof.
  induction l as [|[k0 v] l IH]; simpl.
  - split; [intros _; apply not_elem_of_nil | done].
  - rewrite not_elem_of_cons. destruct (decide (k0 = k)) as [->|Hne].
    + split; [done | by intros [? _]].
    + rewrite IH. split; [by intros ? | by intros [_ ?]].
Qed.

Lemma alist_set_keys {V} k (v : V) l :
  (alist_set k v l).*1 = if decide (k ∈ l.*1) then l.*1 else l.*1 ++ [k].
Proof.
  induction l as [|[k0 v0] l IH].
  - simpl. destruct (decide (k ∈ [])) as [Hin|_]; [by apply elem_of_nil in Hin | done].
  - cbn [alist_set]. destruct (decide (k0 = k)) as [->|Hne].
    + cbn [fmap list_fmap fst].
      destruct (decide (k ∈ k :: l.*1)) as [_|Hnin]; [done|].
      destruct Hnin. apply list_elem_of_here.
    + cbn [fmap list_fmap fst]. fold (fmap (M:=list) (@fst string V)).
      rewrite IH. destruct (decide (k ∈ l.*1)) as [Hin|Hnin].
      * destruct (decide (k ∈ k0 :: l.*1)) as [_|Hnin]; [done|].
        destruct Hnin. by apply list_elem_of_further.
      * destruct (decide (k ∈ k0 :: l.*1)) as [Hin|_]; [|done].
        apply elem_of_cons in Hin as [->|Hin]; done.
Qed.

Lemma alist_set_NoDup {V} k (v : V) l : NoDup l.*1 -> NoDup (alist_set k v l).*1.
Proof.
  intros Hnd. rewrite alist_set_keys. destruct (decide (k ∈ l.*1)); [done|].
  apply NoDup_app. split; [done|]. split; [|apply NoDup_singleton].
  intros x Hx ?%list_elem_of_singleton. by subst.
Qed.

Lemma isTracked_alist tr e h :
  NoDup tr.*1 ->
  isTracked tr e h = bool_decide (h ∈ default [] (alist_get e tr)).
Proof.
  unfold isTracked. induction tr as [|[e0 hs] tr IH]; simpl.
  - done.
  - intros [Hnin Hnd]%NoDup_cons. rewrite (IH Hnd).
    destruct (decide (e0 = e)) as [->|Hne].
    + rewrite bool_decide_eq_true_2 by done. simpl.
      apply alist_get_None_keys in Hnin. rewrite Hnin.
      apply orb_false_r.
    + by rewrite bool_decide_eq_false_2 by done.
Qed.

Lemma anyTracked_alist tr e :
  NoDup tr.*1 ->
  anyTracked tr e = negb (bool_decide (default [] (alist_get e tr) = [])).
Proof.
  unfold anyTracked. induction tr as [|[e0 hs] tr IH]; simpl.
  - done.
  - intros [Hnin Hnd]%NoDup_cons. rewrite (IH Hnd).
    destruct (decide (e0 = e)) as [->|Hne].
    + rewrite bool_decide_eq_true_2 by done. simpl.
      apply alist_get_None_keys in Hnin. rewrite Hnin.
      apply orb_false_r.
    + by rewrite bool_decide_eq_false_2 by done.
Qed.

Lemma trackHandlers_spec e hs : ∀ tr,
  NoDup tr.*1 ->
  NoDup (trackHandlers e hs tr).*1 ∧
  ∀ e' x, x ∈ default [] (alist_get e' (trackHandlers e hs tr)) ↔
          x ∈ default [] (alist_get e' tr) ∨ (e = e' ∧ x ∈ hs).
Proof.
  unfold trackHandlers. induction hs as [|h hs IH]; intros tr Hnd; simpl.
  - split; [done|]. intros e' x. rewrite elem_of_nil. tauto.
  - destruct (IH (trackHandler e h tr)) as [Hnd' Hget].
    { by apply alist_set_NoDup. }
    split; [done|]. intros e' x. rewrite Hget. unfold trackHandler.
    rewrite alist_get_set, elem_of_cons.
    destruct (decide (e = e')) as [<-|Hne]; simpl.
    + rewrite elem_of_oset_add. tauto.
    + tauto.
Qed.

Lemma ensureEvent_spec e tr :
  NoDup tr.*1 ->
  NoDup (ensureEvent e tr).*1 ∧
  ∀ e', default [] (alist_get e' (ensureEvent e tr)) = default [] (alist_get e' tr).
Proof.
  intros Hnd. unfold ensureEvent. destruct (alist_get e tr) as [l|] eqn:Hg; [done|].
  split; [by apply alist_set_NoDup|]. intros e'. rewrite alist_get_set.
  destruct (decide (e = e')) as [<-|Hne]; [by rewrite Hg | done].
Qed.

Lemma declaredHandlers_cons e0 hs evs e :
  declaredHandlers ((e0, hs) :: evs) e =
  (if decide (e0 = e) then hs else []) ++ declaredHandlers evs e.
Proof. done. Qed.

Lemma elem_of_declaredHandlers evs e x :
  x ∈ declaredHandlers evs e ↔ ∃ hs, (e, hs) ∈ evs ∧ x ∈ hs.
Proof.
  induction evs as [|[e0 hs0] evs IH].
  - split; [by intros ?%elem_of_nil | by intros (? & ?%elem_of_nil & _)].
  - rewrite declaredHandlers_cons, elem_of_app, IH. split.
    + intros [Hx|(hs & Hin & Hx)].
      * destruct (decide (e0 = e)) as [->|Hne]; [|by apply elem_of_nil in Hx].
        exists hs0. split; [apply list_elem_of_here | done].
      * exists hs. split; [by apply list_elem_of_further | done].
    + intros (hs & Hin & Hx). apply elem_of_cons in Hin as [Heq|Hin].
      * injection Heq as -> ->. left. by rewrite decide_True.
      * right. eauto.
Qed.

Lemma trackEvents_spec evs : ∀ tr,
  NoDup tr.*1 ->
  NoDup (trackEvents evs tr).*1 ∧
  ∀ e x, x ∈ default [] (alist_get e (trackEvents evs tr)) ↔
         x ∈ default [] (alist_get e tr) ∨ x ∈ declaredHandlers evs e.
Proof.
  unfold trackEvents. induction evs as [|[e0 hs] evs IH]; intros tr Hnd.
  - split; [done|]. intros e x. unfold declaredHandlers. simpl.
    rewrite elem_of_nil. tauto.
  - cbn [foldl fst snd].
    destruct (ensureEvent_spec e0 tr Hnd) as [Hnd1 Hg1].
    destruct (trackHandlers_spec e0 hs _ Hnd1) as [Hnd2 Hg2].
    destruct (IH _ Hnd2) as [Hnd3 Hg3].
    split; [done|]. intros e x.
    rewrite Hg3, Hg2, Hg1, declaredHandlers_cons, elem_of_app.
    destruct (decide (e0 = e)) as [->|Hne]; [tauto|].
    rewrite elem_of_nil. tauto.
Qed.

(** What the Map built from an empty one tracks: exactly the handlers the
    plugin declares, event by event. *)
Lemma trackEvents_isTracked evs e h :
  isTracked (trackEvents evs []) e h = bool_decide (h ∈ declaredHandlers evs e).
Proof.
  destruct (trackEvents_spec evs [] (NoDup_nil_2)) as [Hnd Hg].
  rewrite (isTracked_alist _ _ _ Hnd). apply bool_decide_ext.
  rewrite Hg. simpl. rewrite elem_of_nil. tauto.
Qed.

Lemma trackEvents_anyTracked evs e :
  anyTracked (trackEvents evs []) e = negb (bool_decide (declaredHandlers evs e = [])).
Proof.
  destruct (trackEvents_spec evs [] (NoDup_nil_2)) as [Hnd Hg].
  rewrite (anyTracked_alist _ _ Hnd). f_equal. apply bool_decide_ext.
  split; intros Hnil.
  - apply elem_of_nil_inv. intros x Hx.
    assert (Hx' : x ∈ default [] (alist_get e (trackEvents evs []))).
    { apply Hg. by right. }
    rewrite Hnil in Hx'. by apply elem_of_nil in Hx'.
  - apply elem_of_nil_inv. intros x Hx. apply Hg in Hx as [Hx|Hx].
    + by apply elem_of_nil in Hx.
    + rewrite Hnil in Hx. by apply elem_of_nil in Hx.
Qed.

Lemma filter_drops_all {A} (P : A -> Prop) `{!∀ x, Decision (P x)} (l : list A) :
  (∀ x, x ∈ l -> ¬ P x) -> filter P l = [].
Proof.
  induction l as [|x l IH]; intros Hall; [done|].
  rewrite filter_cons_False by (apply Hall, list_elem_of_here).
  apply IH. intros y Hy. apply Hall. by apply list_elem_of_further.
Qed.

(** Handlers registered for an event and then unregistered leave the
    event's entry as it was, when none of them was registered for that event
    before and the host keeps no empty handler array. *)
Lemma events_round_trip evs m :
  (∀ e h, h ∈ declaredHandlers evs e ->
          m !! e ≠ Some [] ∧ h ∉ default [] (m !! e)) ->
  dropTracked (trackEvents evs []) (addEvents evs m) = m.
Proof.
  intros H. apply map_eq. intros e.
  rewrite dropTracked_lookup, trackEvents_anyTracked, addEvents_lookup.
  destruct (declaredHandlers evs e) as [|a l] eqn:Hd.
  - by rewrite bool_decide_eq_true_2.
  - rewrite bool_decide_eq_false_2 by done. simpl.
    assert (Hold : filter (fun h => isTracked (trackEvents evs []) e h = false)
                     (default [] (m !! e) ++ a :: l) = default [] (m !! e)).
    { rewrite filter_app.
      rewrite (filter_keeps_all _ (default [] (m !! e))).
      - rewrite (filter_drops_all _ (a :: l)); [by rewrite app_nil_r|].
        intros x Hx. rewrite trackEvents_isTracked, Hd.
        by rewrite bool_decide_eq_true_2.
      - intros x Hx. rewrite trackEvents_isTracked.
        apply bool_decide_eq_false_2. intros Hin.
        by destruct (H e x Hin) as [_ Hnin]. }
    rewrite Hold.
    destruct (H e a) as [Hne _]; [rewrite Hd; apply list_elem_of_here|].
    destruct (m !! e) as [[|x l']|]; simpl; done.
Qed.

(** ** Register, load, unload *)

Lemma freshNames_spec k P s :
  freshNames k P s = true ->
  ∀ n, (n ∈ names (declared k P)) ->
       (n ∉ originalNames k s) ∧ (n ∉ names (hostList k (runtime s))).
Proof.
  unfold freshNames. rewrite forallb_forall. intros Hall n Hin.
  apply list_elem_of_In, Hall, andb_prop in Hin as [H1 H2].
  apply bool_decide_eq_true_1 in H1. split; [done|].
  apply negb_true_iff in H2. intros Hn. unfold names in Hn.
  apply list_elem_of_fmap in Hn as (c & -> & Hc).
  assert (Hex : existsb (named (c_name c)) (hostList k (runtime s)) = true).
  { apply existsb_exists. exists c. split; [by apply list_elem_of_In|].
    unfold named. by apply bool_decide_eq_true_2. }
  congruence.
Qed.

Lemma freshServices_spec P s :
  freshServices P s = true ->
  ∀ sc, sc ∈ services P ->
        (serviceType sc ∉ originalServices s) ∧
        rt_services (runtime s) !! serviceType sc = None.
Proof.
  unfold freshServices. rewrite forallb_forall. intros Hall sc Hin.
  apply list_elem_of_In, Hall, andb_prop in Hin as [H1 H2].
  apply bool_decide_eq_true_1 in H1. split; [done|].
  apply negb_true_iff, bool_decide_eq_false_1 in H2.
  by apply eq_None_not_Some.
Qed.

Lemma freshHandlers_spec P s :
  freshHandlers P s = true ->
  ∀ e h, h ∈ declaredHandlers (events P) e ->
         rt_events (runtime s) !! e ≠ Some [] ∧ h ∉ default [] (rt_events (runtime s) !! e).
Proof.
  unfold freshHandlers. rewrite forallb_forall. intros Hall e h Hin.
  apply elem_of_declaredHandlers in Hin as (hs & Hev & Hh).
  apply list_elem_of_In, Hall in Hev. simpl in Hev.
  rewrite forallb_forall in Hev. apply list_elem_of_In, Hev, andb_prop in Hh as [H1 H2].
  apply negb_true_iff, bool_decide_eq_false_1 in H1.
  apply bool_decide_eq_true_1 in H2. done.
Qed.

(** *** The table around one record *)

Lemma alist_set_set {V} k (v v' : V) l :
  alist_set k v' (alist_set k v l) = alist_set k v' l.
Proof.
  induction l as [|[k0 v0] l IH]; simpl.
  - by rewrite decide_True.
  - destruct (decide (k0 = k)) as [->|Hne]; simpl.
    + by rewrite decide_True.
    + rewrite decide_False by done. by rewrite IH.
Qed.

Lemma findPluginState_alist_set_fresh P k r l :
  findPluginState P l = None -> same_plugin P r = true ->
  findPluginState P (alist_set k r l) = Some r.
Proof.
  intros Hnone Hr. induction l as [|[k0 ps0] l IH]; simpl in *.
  - by rewrite Hr.
  - destruct (same_plugin P ps0) eqn:E; [done|].
    destruct (decide (k0 = k)) as [->|Hne]; simpl.
    + by rewrite Hr.
    + rewrite E. by apply IH.
Qed.

Lemma update_found_alist_set_fresh P f k r l :
  findPluginState P l = None -> same_plugin P r = true ->
  update_found P f (alist_set k r l) = alist_set k (set_ps_components f r) l.
Proof.
  intros Hnone Hr. induction l as [|[k0 ps0] l IH]; simpl in *.
  - by rewrite Hr.
  - destruct (same_plugin P ps0) eqn:E; [done|].
    destruct (decide (k0 = k)) as [->|Hne]; simpl.
    + by rewrite Hr.
    + rewrite E. by rewrite IH.
Qed.

(** *** What the two calls before the unload leave *)

Lemma registerPlugin_ok_inv w P s pluginId s' :
  registerPlugin w P s = (Ok pluginId, s') ->
  ∃ r, ps_id r = pluginId ∧ ps_status r = READY ∧ ps_plugin r = Some P ∧
       ps_name r = plugin_name P ∧
       ps_components r = emptyComponents ∧
       s' = set_runtime (set_rt_emitted (fun l => l ++ [(PLUGIN_READY, pluginId)]))
              (set_plugins (alist_set pluginId r) s).
Proof.
  unfold registerPlugin. rewrite run_bind. unfold gets at 1.
  destruct (getPlugin (w_uuid w (plugin_name P)) s); [discriminate|].
  intros [= <- <-]. eexists (Build_PluginState _ _ _ _ _ _ _ _ _ _ _). repeat split.
Qed.

Lemma loadPlugin_ok_inv w pluginId force s s' ps P :
  loadPlugin w pluginId force s = (Ok tt, s') ->
  getPlugin pluginId s = Some ps -> ps_status ps = READY -> ps_plugin ps = Some P ->
  ∃ psf ps1,
    findPluginState P (plugins s) = Some psf ∧
    alist_get pluginId
      (plugins (afterRegistration w P (ps_id psf)
         (set_runtime (set_rt_emitted (fun l => l ++ [(PLUGIN_BUILDING, pluginId)])) s)))
      = Some ps1 ∧
    s' = set_runtime (set_rt_emitted (fun l => l ++ [(PLUGIN_LOADED, pluginId)]))
           (set_plugins (alist_set pluginId (loaded_update (w_now w) ps1))
              (afterRegistration w P (ps_id psf)
                 (set_runtime
                    (set_rt_emitted (fun l => l ++ [(PLUGIN_BUILDING, pluginId)])) s))).
Proof.
  intros H Hget Hst Hpl. unfold loadPlugin in H. rewrite run_bind in H.
  unfold gets at 1 in H. rewrite Hget, Hst in H.
  rewrite (bool_decide_eq_false_2 (READY = LOADED)) in H by done.
  rewrite (bool_decide_eq_false_2 (READY ≠ READY)) in H by (by intros Hne; apply Hne).
  cbn [andb] in H. rewrite Hpl in H.
  unfold try_catch in H. rewrite loadPlugin_try_split in H.
  destruct ((emitEvent PLUGIN_BUILDING pluginId ;; _ ;; _) s) as [[[]|e] s1] eqn:Hpre.
  2:{ destruct (loadPlugin_catch pluginId e s1) as [r s2] eqn:Hc.
      apply loadPlugin_catch_never_returns in Hc. subst r. discriminate. }
  apply bind_ok_inv in Hpre as ([] & t0 & He & Hpre).
  apply bind_ok_inv in Hpre as ([] & t1 & Hi & Hreg).
  injection He as <-.
  assert (t1 = set_runtime (set_rt_emitted (fun l => l ++ [(PLUGIN_BUILDING, pluginId)])) s)
    as ->.
  { destruct (init P) as [[|m]|]; cbv [runInit mret M_ret throw] in Hi; congruence. }
  assert (Hkeep : holds_at pluginId (fun _ => True) s1).
  { eapply (preserves_registerPluginComponents w pluginId (fun _ => True) P);
      [by intros ? ? ? | | exact Hreg].
    by exists ps. }
  apply registerPluginComponents_ok in Hreg as (psf & Hf & ->).
  simpl in Hf. exists psf. destruct Hkeep as (ps1 & Hg1 & _).
  exists ps1. split; [done|]. split; [exact Hg1|].
  rewrite run_bind, (updatePluginState_run _ _ _ _ Hg1) in H.
  by injection H as <-.
Qed.

(** The table, the host and the record once a freshly registered plugin
    has been loaded. *)
Lemma load_registered w1 w2 P force pluginId s0 s1 s2 :
  findPluginState P (plugins s0) = None ->
  registerPlugin w1 P s0 = (Ok pluginId, s1) ->
  loadPlugin w2 pluginId force s1 = (Ok tt, s2) ->
  ∃ r2,
    plugins s2 = alist_set pluginId r2 (plugins s0) ∧
    (ps_id r2 = pluginId ∧ ps_status r2 = LOADED ∧ ps_plugin r2 = Some P ∧
     ps_name r2 = plugin_name P) ∧
    ps_components r2
    = {| pc_actions := ∅ ∪ list_to_set (names (actions P));
         pc_providers := ∅ ∪ list_to_set (names (providers P));
         pc_evaluators := ∅ ∪ list_to_set (names (evaluators P));
         pc_services := ∅ ∪ list_to_set (started (services P)).*1;
         pc_eventHandlers := trackEvents (events P) [] |} ∧
    (rt_actions (runtime s2) = rt_actions (runtime s0) ++ actions P ∧
     rt_providers (runtime s2) = rt_providers (runtime s0) ++ providers P ∧
     rt_evaluators (runtime s2) = rt_evaluators (runtime s0) ++ evaluators P ∧
     rt_services (runtime s2)
     = installServices (started (services P)) (rt_services (runtime s0)) ∧
     rt_events (runtime s2) = addEvents (events P) (rt_events (runtime s0)) ∧
     rt_plugins (runtime s2) = rt_plugins (runtime s0) ++ [P]) ∧
    (rt_actions (runtime s1) = rt_actions (runtime s0) ∧
     rt_providers (runtime s1) = rt_providers (runtime s0) ∧
     rt_evaluators (runtime s1) = rt_evaluators (runtime s0) ∧
     rt_services (runtime s1) = rt_services (runtime s0) ∧
     rt_events (runtime s1) = rt_events (runtime s0) ∧
     rt_plugins (runtime s1) = rt_plugins (runtime s0)) ∧
    (originalPlugins s2 = originalPlugins s0 ∧
     originalActions s2 = originalActions s0 ∧
     originalProviders s2 = originalProviders s0 ∧
     originalEvaluators s2 = originalEvaluators s0 ∧
     originalServices s2 = originalServices s0).
Proof.
  intros Hnone Hreg Hload.
  apply registerPlugin_ok_inv in Hreg as (r0 & Hid0 & Hst0 & Hpl0 & Hnm0 & Hc0 & ->).
  assert (Hsame : same_plugin P r0 = true).
  { unfold same_plugin. rewrite Hpl0. by apply bool_decide_eq_true_2. }
  eapply loadPlugin_ok_inv in Hload as (psf & ps1 & Hf & Hg1 & ->);
    [| unfold getPlugin; simpl; by rewrite alist_get_set, decide_True | done | done].
  simpl in Hf. rewrite (findPluginState_alist_set_fresh _ _ _ _ Hnone Hsame) in Hf.
  injection Hf as <-.
  simpl in Hg1.
  rewrite !update_found_alist_set_fresh in Hg1 by done.
  rewrite alist_get_set, decide_True in Hg1 by done.
  injection Hg1 as <-.
  eexists. split.
  { simpl. rewrite !update_found_alist_set_fresh by done. by rewrite alist_set_set. }
  split; [done|]. split; [simpl; by rewrite Hc0|]. done.
Qed.

(** Unloading from such a state. *)
Lemma unload_registered w3 P pluginId s0 s2 r2 :
  nonColliding P s0 = true ->
  plugins s2 = alist_set pluginId r2 (plugins s0) ->
  ps_id r2 = pluginId ∧ ps_status r2 = LOADED ∧ ps_plugin r2 = Some P ∧
    ps_name r2 = plugin_name P ->
  ps_components r2
  = {| pc_actions := ∅ ∪ list_to_set (names (actions P));
       pc_providers := ∅ ∪ list_to_set (names (providers P));
       pc_evaluators := ∅ ∪ list_to_set (names (evaluators P));
       pc_services := ∅ ∪ list_to_set (started (services P)).*1;
       pc_eventHandlers := trackEvents (events P) [] |} ->
  rt_actions (runtime s2) = rt_actions (runtime s0) ++ actions P ∧
    rt_providers (runtime s2) = rt_providers (runtime s0) ++ providers P ∧
    rt_evaluators (runtime s2) = rt_evaluators (runtime s0) ++ evaluators P ∧
    rt_services (runtime s2)
    = installServices (started (services P)) (rt_services (runtime s0)) ∧
    rt_events (runtime s2) = addEvents (events P) (rt_events (runtime s0)) ∧
    rt_plugins (runtime s2) = rt_plugins (runtime s0) ++ [P] ->
  originalPlugins s2 = originalPlugins s0 ∧
    originalActions s2 = originalActions s0 ∧
    originalProviders s2 = originalProviders s0 ∧
    originalEvaluators s2 = originalEvaluators s0 ∧
    originalServices s2 = originalServices s0 ->
  ∃ s3 r,
    unloadPlugin w3 pluginId s2 = (Ok tt, s3) ∧
    rt_actions (runtime s3) = rt_actions (runtime s0) ∧
    rt_providers (runtime s3) = rt_providers (runtime s0) ∧
    rt_evaluators (runtime s3) = rt_evaluators (runtime s0) ∧
    rt_services (runtime s3) = rt_services (runtime s0) ∧
    rt_events (runtime s3) = rt_events (runtime s0) ∧
    rt_plugins (runtime s3) = rt_plugins (runtime s0) ∧
    getPlugin pluginId s3 = Some r ∧
    ps_status r = UNLOADED ∧
    ps_components r = emptyComponents ∧
    getComponentRegistrations pluginId s3 = [].
Proof.
  intros Hnc Hp2 (Hid2 & Hst2 & Hpl2 & Hnm2) Hc2
    (Hra & Hrp & Hre & Hrs & Hrv & Hrl) (Hop & Hoa & Hopr & Hoe & Hos).
  unfold nonColliding in Hnc.
  apply andb_prop in Hnc as [Hnc Hev]. apply andb_prop in Hnc as [Hnc Hsv].
  apply andb_prop in Hnc as [Hnc Hke]. apply andb_prop in Hnc as [Hnc Hkp].
  apply andb_prop in Hnc as [Hnc Hka]. apply andb_prop in Hnc as [Hnc Hact].
  apply andb_prop in Hnc as [Hnone Horig].
  apply negb_true_iff in Hact, Horig.
  apply negb_true_iff, bool_decide_eq_false_1, eq_None_not_Some in Hnone.
  pose proof (freshNames_spec _ _ _ Hka) as Ha.
  pose proof (freshNames_spec _ _ _ Hkp) as Hp.
  pose proof (freshNames_spec _ _ _ Hke) as He.
  pose proof (freshServices_spec _ _ Hsv) as Hs.
  pose proof (freshHandlers_spec _ _ Hev) as Hh.
  clear Hka Hkp Hke Hsv Hev.
  assert (Hsame2 : same_plugin P r2 = true).
  { unfold same_plugin. rewrite Hpl2. by apply bool_decide_eq_true_2. }
  destruct (unloadPlugin_run w3 pluginId s2 r2 P) as (psf & ps3 & Hf & Hg3 & Hpl3 & Hrun).
  { unfold getPlugin. by rewrite Hp2, alist_get_set, decide_True. }
  { done. }
  { unfold isOriginal. by rewrite Hnm2, Hop. }
  { done. }
  rewrite Hp2, (findPluginState_alist_set_fresh _ _ _ _ Hnone Hsame2) in Hf.
  injection Hf as <-.
  rewrite Hrun. simpl in Hg3. clear Hrun.
  rewrite Hp2 in Hg3. rewrite !update_found_alist_set_fresh in Hg3 by done.
  rewrite alist_get_set, decide_True in Hg3 by done. injection Hg3 as <-.
  eexists _, _. split; [reflexivity|].
  unfold getPlugin, getComponentRegistrations, foundComponents. simpl.
  unfold foundComponents. simpl.
  rewrite Hp2, !update_found_alist_set_fresh by done.
  rewrite (findPluginState_alist_set_fresh _ _ _ _ Hnone) by done.
  rewrite alist_set_set, alist_get_set, decide_True by done.
  rewrite Hra, Hrp, Hre, Hrs, Hrv, Hrl, Hoa, Hopr, Hoe, Hos, Hid2.
  split; [by apply removeDeclared_round_trip|].
  split; [by apply removeDeclared_round_trip|].
  split; [by apply removeDeclared_round_trip|].
  split; [by apply services_round_trip|].
  split; [simpl; rewrite Hc2; by apply events_round_trip|].
  split.
  { rewrite (remove_first_app_fresh _ _ P []); [apply app_nil_r | done |].
    unfold plugin_named. by apply bool_decide_eq_true_2. }
  split; [reflexivity|]. split; [done|].
  split; [|by rewrite lookup_delete_eq].
  simpl. rewrite Hc2. apply PluginComponents_eq; simpl.
  - rewrite disownDeclared_round_trip by done.
    rewrite union_empty_l_L. apply difference_diag_L.
  - rewrite disownDeclared_round_trip by done.
    rewrite union_empty_l_L. apply difference_diag_L.
  - rewrite disownDeclared_round_trip by done.
    rewrite union_empty_l_L. apply difference_diag_L.
  - apply owned_services_round_trip. intros sc Hsc. by apply Hs.
  - done.
Qed.

(** C2. A plugin object that collides with nothing is registered, loaded and
    unloaded: the unload returns normally, the host's actions, providers,
    evaluators, services, event handlers and active plugins are exactly what
    they were before the load, and the plugin's record is still in the table,
    [UNLOADED], with empty component sets and no registration left in the
    audit trail. *)
Theorem register_load_unload_round_trip
    (w1 w2 w3 : World) (P : Plugin) (force : bool) (pluginId : string)
    (s0 s1 s2 : State) :
  nonColliding P s0 = true ->
  registerPlugin w1 P s0 = (Ok pluginId, s1) ->
  loadPlugin w2 pluginId force s1 = (Ok tt, s2) ->
  ∃ s3 r,
    unloadPlugin w3 pluginId s2 = (Ok tt, s3) ∧
    rt_actions (runtime s3) = rt_actions (runtime s1) ∧
    rt_providers (runtime s3) = rt_providers (runtime s1) ∧
    rt_evaluators (runtime s3) = rt_evaluators (runtime s1) ∧
    rt_services (runtime s3) = rt_services (runtime s1) ∧
    rt_events (runtime s3) = rt_events (runtime s1) ∧
    rt_plugins (runtime s3) = rt_plugins (runtime s1) ∧
    getPlugin pluginId s3 = Some r ∧
    ps_status r = UNLOADED ∧
    ps_components r = emptyComponents ∧
    getComponentRegistrations pluginId s3 = [].
Proof.
  intros Hnc Hreg Hload.
  assert (Hnone : findPluginState P (plugins s0) = None).
  { unfold nonColliding in Hnc. do 7 apply andb_prop in Hnc as [Hnc _].
    by apply negb_true_iff, bool_decide_eq_false_1, eq_None_not_Some in Hnc. }
  destruct (load_registered _ _ _ _ _ _ _ _ Hnone Hreg Hload)
    as (r2 & Hp2 & Hr2 & Hc2 & Hrt2 & Hrt1 & Ho2).
  destruct Hrt1 as (-> & -> & -> & -> & -> & ->).
  by apply (unload_registered w3 P pluginId s0 s2 r2).
Qed.

(** ** The claims on concrete plugins *)

(** Decide a closed proposition by evaluation. *)
Ltac by_evaluation := apply (bool_decide_unpack _); vm_compute; exact I.

Lemma fetchCatalog_never_raises_stale_or_empty_witness :
  getAvailablePluginsFromRegistry offlineLater (fetchAll [installWorld] freshManager)
  = (Ok {[ "pkg-a" := pkgA_entry ]}, fetchAll [installWorld] freshManager) ∧
  getAvailablePluginsFromRegistry offlineLater freshManager = (Ok ∅, freshManager).
Proof.
  split.
  - apply (proj2 (fetchCatalog_never_raises_stale_or_empty offlineLater
                    [installWorld] freshManager)).
    + reflexivity.
    + split; [vm_compute; reflexivity | discriminate].
  - apply (proj2 (fetchCatalog_never_raises_stale_or_empty offlineLater [] freshManager)).
    + reflexivity.
    + split; [vm_compute; reflexivity | discriminate].
Defined.

Lemma loadPlugin_twice_is_noop_witness :
  loadPlugin plainWorld "uuid:p" false pLoaded = (Ok tt, pLoaded) ∧
  holds_at "uuid:p" (fun ps => ps_status ps = LOADED) pLoaded.
Proof.
  apply (loadPlugin_twice_is_noop plainWorld plainWorld "uuid:p" false pRegistered pLoaded).
  vm_compute. reflexivity.
Defined.

Lemma loadPlugin_failure_sets_error_witness :
  (∃ s', loadPlugin plainWorld "uuid:core" true managerWithCore
         = (Throw (Foreign "boom"), s') ∧
         holds_at "uuid:core"
           (fun ps => ps_status ps = ERROR ∧ ps_error ps = Some (message (Foreign "boom")))
           s') ∧
  (∃ s', loadPlugin faultyWorld "uuid:p" false pRegistered
         = (Throw (Foreign "rejected"), s') ∧
         holds_at "uuid:p"
           (fun ps => ps_status ps = ERROR ∧ ps_error ps = Some (message (Foreign "rejected")))
           s').
Proof.
  split.
  - apply (loadPlugin_failure_sets_error plainWorld "uuid:core" true managerWithCore
             (initialState plainWorld brittlePlugin) brittlePlugin (Foreign "boom")).
    + reflexivity.
    + reflexivity.
    + by left.
    + left. by exists "boom".
  - eapply (loadPlugin_failure_sets_error faultyWorld "uuid:p" false pRegistered
              _ pluginP (Foreign "rejected")).
    + vm_compute. reflexivity.
    + reflexivity.
    + right. by left.
    + right. split; [by left|]. eexists. vm_compute. reflexivity.
Defined.

(** C1 as stated fails.  [pluginQ] and [pluginP] are loaded in this order
    and both declare an action named [X], which is not an original name.
    [unloadPlugin] of [pluginP] succeeds, and the host registry still holds an
    action named [X]: the first entry of that name, [pluginQ]'s, was removed,
    and [pluginP]'s own action object is still registered. *)
Lemma unload_keeps_name_declared_by_two_plugins :
  (∃ ps, getPlugin "uuid:p" bothLoaded = Some ps ∧ ps_status ps = LOADED ∧
         ps_plugin ps = Some pluginP ∧ isOriginal ps bothLoaded = false) ∧
  ("X" ∈ names (actions pluginP)) ∧
  ("X" ∉ originalActions bothLoaded) ∧
  rt_actions (runtime bothLoaded)
  = [{| c_name := "X"; c_ref := 12%nat |}; {| c_name := "X"; c_ref := 10%nat |};
     {| c_name := "Y"; c_ref := 11%nat |}] ∧
  ∃ s', unloadPlugin plainWorld "uuid:p" bothLoaded = (Ok tt, s') ∧
        rt_actions (runtime s') = [{| c_name := "X"; c_ref := 10%nat |}] ∧
        ("X" ∈ names (rt_actions (runtime s'))).
Proof.
  split.
  { eexists. split; [vm_compute; reflexivity|]. repeat split. }
  split; [apply list_elem_of_here|].
  split; [by_evaluation|].
  split; [vm_compute; reflexivity|].
  eexists. split; [vm_compute; reflexivity|].
  split; [reflexivity | apply list_elem_of_here].
Qed.

Lemma unload_removes_first_entry_per_declaration_witness :
  ∃ s', unloadPlugin plainWorld "uuid:p" bothLoaded = (Ok tt, s') ∧
        countNamed "X" (rt_actions (runtime s')) = 1%nat ∧
        countNamed "Y" (rt_actions (runtime s')) = 0%nat ∧
        ("Y" ∉ names (rt_actions (runtime s'))).
Proof.
  destruct (unload_removes_first_entry_per_declaration plainWorld "uuid:p" bothLoaded
              _ pluginP ltac:(vm_compute; reflexivity) ltac:(reflexivity)
              ltac:(vm_compute; reflexivity) ltac:(reflexivity))
    as (s' & Hrun & _ & Hn).
  exists s'. split; [exact Hrun|].
  destruct (Hn "X" ltac:(apply list_elem_of_here)) as [_ HX].
  destruct (Hn "Y" ltac:(apply list_elem_of_further, list_elem_of_here)) as [_ HY].
  destruct (HX ltac:(by_evaluation)) as [HX1 _].
  destruct (HY ltac:(by_evaluation)) as [HY1 HY2].
  split; [rewrite HX1; vm_compute; reflexivity|].
  split; [rewrite HY1; vm_compute; reflexivity|].
  apply HY2. vm_compute. lia.
Defined.

Lemma register_load_unload_round_trip_witness :
  nonColliding pluginP emptyManager = true ∧
  ∃ s3 r,
    unloadPlugin plainWorld "uuid:p" pLoaded = (Ok tt, s3) ∧
    rt_actions (runtime s3) = [] ∧
    rt_services (runtime s3) = ∅ ∧
    rt_events (runtime s3) = ∅ ∧
    rt_plugins (runtime s3) = [] ∧
    getPlugin "uuid:p" s3 = Some r ∧
    ps_status r = UNLOADED ∧
    ps_components r = emptyComponents ∧
    getComponentRegistrations "uuid:p" s3 = [].
Proof.
  assert (Hnc : nonColliding pluginP emptyManager = true) by (vm_compute; reflexivity).
  split; [exact Hnc|].
  destruct (register_load_unload_round_trip plainWorld plainWorld plainWorld pluginP
              false "uuid:p" emptyManager pRegistered pLoaded Hnc
              ltac:(vm_compute; reflexivity) ltac:(vm_compute; reflexivity))
    as (s3 & r & Hrun & Ha & _ & _ & Hs & He & Hp & Hg & Hst & Hc & Hreg).
  exists s3, r. repeat split; assumption.
Defined.

Lemma failing_service_start_is_skipped_witness :
  ∃ s', registerPluginComponents plainWorld pluginP pRegistered = (Ok tt, s') ∧
        (pluginP ∈ rt_plugins (runtime s')) ∧
        is_Some (rt_services (runtime s') !! "SVC") ∧
        rt_services (runtime s') !! "BAD" = None.
Proof.
  destruct (failing_service_start_is_skipped plainWorld pluginP pRegistered _ _
              ltac:(vm_compute; reflexivity) ltac:(vm_compute; reflexivity))
    as (s' & Hrun & Hp & Hok & Hbad).
  exists s'. split; [exact Hrun|]. split; [|split].
  - rewrite Hp. apply elem_of_app. right. apply list_elem_of_here.
  - apply (Hok svcOk {| svc_ref := 30%nat; stop := None |});
      [apply list_elem_of_further, list_elem_of_here | reflexivity].
  - destruct (Hbad "BAD") as (-> & _); [|reflexivity].
    intros sc Hin Hty. apply elem_of_cons in Hin as [->|Hin]; [by exists "no port"|].
    apply list_elem_of_singleton in Hin. subst sc. discriminate.
Defined.

(** [pluginA] and [pluginB] are loaded and each registered the handler
    [#40] for event [E].  Unloading [pluginA] unregisters that reference,
    and the host drops every occurrence of it: the event is left without a
    handler, although [pluginB] is still [LOADED] and still tracks the
    handler as registered. *)
Lemma unload_drops_handler_shared_with_another_plugin :
  handlersOf sharedLoaded "E" = [40%nat; 40%nat] ∧
  (ps_status <$> getPlugin "uuid:a" sharedLoaded) = Some LOADED ∧
  (ps_status <$> getPlugin "uuid:b" sharedLoaded) = Some LOADED ∧
  ∃ s', unloadPlugin plainWorld "uuid:a" sharedLoaded = (Ok tt, s') ∧
        handlersOf s' "E" = [] ∧
        (ps_status <$> getPlugin "uuid:b" s') = Some LOADED ∧
        pc_eventHandlers (foundComponents pluginB s') = [("E", [40%nat])].
Proof. repeat split; try (by vm_compute). eexists. by vm_compute. Qed.

Lemma unload_unregisters_only_own_handlers_witness :
  handlersOf bothLoaded "E" = [21%nat; 20%nat] ∧
  ∃ s', unloadPlugin plainWorld "uuid:p" bothLoaded = (Ok tt, s') ∧
        pc_eventHandlers (foundComponents pluginP s') = [] ∧
        handlersOf s' "E" = [21%nat] ∧
        pc_eventHandlers (foundComponents pluginQ s') = [("E", [21%nat])].
Proof.
  split; [vm_compute; reflexivity|].
  destruct (unload_unregisters_only_own_handlers plainWorld "uuid:p" bothLoaded
              _ pluginP ltac:(vm_compute; reflexivity) ltac:(reflexivity)
              ltac:(vm_compute; reflexivity) ltac:(reflexivity))
    as (s' & Hrun & Hclear & Hfilter & _ & _ & Hother).
  exists s'. split; [exact Hrun|]. split; [exact Hclear|]. split.
  - rewrite Hfilter. vm_compute. reflexivity.
  - rewrite (Hother pluginQ); [vm_compute; reflexivity | discriminate].
Defined.

(** * Further properties of the service *)

(** ** The registry cache *)

Lemma getLocalRegistryIndex_fetches w s data :
  cacheFresh w (registryCache s) = false ->
  w_fetch w = FetchData data ->
  getLocalRegistryIndex w s
  = (Ok data, set_registryCache (Some {| rc_data := data; rc_timestamp := w_now w |}) s).
Proof.
  intros Hfresh Hfetch.
  unfold getLocalRegistryIndex, getLocalRegistryIndex_try. run_m.
  destruct (registryCache s) as [c|] eqn:Ec.
  - rewrite Hfresh, Hfetch. done.
  - rewrite Hfetch. done.
Qed.

Lemma getLocalRegistryIndex_hit w s c :
  registryCache s = Some c ->
  w_now w - rc_timestamp c < CACHE_DURATION ->
  getLocalRegistryIndex w s = (Ok (rc_data c), s).
Proof.
  intros Hc Hlt. unfold getLocalRegistryIndex. rewrite run_bind. unfold gets.
  rewrite Hc. unfold cacheFresh. by rewrite bool_decide_eq_true_2.
Qed.

(** A catalog fetched successfully is served from the cache, whatever the
    network would answer, to every request made less than [CACHE_DURATION]
    milliseconds later; a request made exactly [CACHE_DURATION] later, or
    later still, goes to the network again and, when it gets a catalog,
    returns it and restarts the clock. *)
Theorem catalog_is_cached_for_one_hour
    (w1 w2 : World) (s : State) (data : gmap string RegistryEntry) :
  cacheFresh w1 (registryCache s) = false ->
  w_fetch w1 = FetchData data ->
  ∃ s1,
    getAvailablePluginsFromRegistry w1 s = (Ok data, s1) ∧
    registryCache s1 = Some {| rc_data := data; rc_timestamp := w_now w1 |} ∧
    (w_now w2 - w_now w1 < CACHE_DURATION ->
     getAvailablePluginsFromRegistry w2 s1 = (Ok data, s1)) ∧
    (CACHE_DURATION <= w_now w2 - w_now w1 ->
     ∀ data', w_fetch w2 = FetchData data' ->
       ∃ s2, getAvailablePluginsFromRegistry w2 s1 = (Ok data', s2) ∧
             registryCache s2 = Some {| rc_data := data'; rc_timestamp := w_now w2 |}).
Proof.
  intros Hstale Hfetch. unfold getAvailablePluginsFromRegistry.
  rewrite (getLocalRegistryIndex_fetches _ _ _ Hstale Hfetch).
  eexists. split; [reflexivity|]. split; [reflexivity|]. split.
  - intros Hlt.
    by apply (getLocalRegistryIndex_hit w2 _ {| rc_data := data; rc_timestamp := w_now w1 |}).
  - intros Hge data' Hfetch'.
    rewrite (getLocalRegistryIndex_fetches w2 _ data'); [by eexists | | done].
    simpl. apply bool_decide_eq_false_2. lia.
Qed.

Lemma catalog_is_cached_for_one_hour_witness :
  getAvailablePluginsFromRegistry plainWorld
    (getAvailablePluginsFromRegistry installWorld freshManager).2
  = (Ok {[ "pkg-a" := pkgA_entry ]},
     (getAvailablePluginsFromRegistry installWorld freshManager).2).
Proof.
  destruct (catalog_is_cached_for_one_hour installWorld plainWorld freshManager
              {[ "pkg-a" := pkgA_entry ]} eq_refl eq_refl)
    as (s1 & Hrun & _ & Hhit & _).
  rewrite Hrun. apply Hhit. reflexivity.
Defined.

(** [resetRegistryCache] forgets the catalog: the next request goes to the
    network even within the hour, and when that fetch fails the caller gets
    the empty catalog, not the one cached before the reset. *)
Theorem resetRegistryCache_forgets_the_catalog (w : World) (s : State) :
  let s0 := (resetRegistryCache s).2 in
  registryCache s0 = None ∧
  (∀ data, w_fetch w = FetchData data ->
     getAvailablePluginsFromRegistry w s0
     = (Ok data, set_registryCache (Some {| rc_data := data; rc_timestamp := w_now w |}) s0)) ∧
  ((∀ data, w_fetch w ≠ FetchData data) ->
     getAvailablePluginsFromRegistry w s0 = (Ok ∅, s0)).
Proof.
  simpl. split; [done|]. split.
  - intros data Hfetch. by apply getLocalRegistryIndex_fetches.
  - intros Hfail. unfold getAvailablePluginsFromRegistry.
    by rewrite getLocalRegistryIndex_failing.
Qed.

(** ** The installer *)

Lemma bind_inv {A B} (m : M A) (k : A -> M B) s r s' :
  (m ≫= k) s = (r, s') ->
  (∃ e, m s = (Throw e, s') ∧ r = Throw e) ∨
  (∃ a s1, m s = (Ok a, s1) ∧ k a s1 = (r, s')).
Proof.
  rewrite run_bind. destruct (m s) as [[a|e] s1].
  - right. eauto.
  - intros [= <- <-]. left. eauto.
Qed.

Lemma exec_run w c s :
  exec w c s =
  match w_run w c with
  | Some m => (Throw (Foreign m), s)
  | None => (Ok tt, s)
  end.
Proof. unfold exec. by destruct (w_run w c). Qed.

Lemma preserves_parsePluginMetadata w I pluginPath :
  preserves I (parsePluginMetadata w pluginPath).
Proof. unfold parsePluginMetadata. repeat preserves_step. Qed.

Lemma preserves_install w I req :
  (∀ s c, I s -> I (set_registryCache c s)) ->
  (∀ s f, I s -> I (set_installedPlugins f s)) ->
  preserves I (install w req).
Proof.
  intros Hc Hi. destruct req as [pluginName version | bundlePath]; simpl.
  - unfold installPluginFromRegistry.
    repeat first [ apply preserves_exec | apply preserves_parsePluginMetadata
                 | apply preserves_installPlugin; exact Hc
                 | preserves_step ]; auto.
  - unfold installFromLocalBundle.
    repeat first [ apply preserves_exec | apply preserves_parsePluginMetadata
                 | preserves_step ]; auto.
Qed.

Lemma install_throw_inv w req s e s' :
  install w req s = (Throw e, s') -> installedPlugins s' = installedPlugins s.
Proof.
  set (I := fun x : State => installedPlugins x = installedPlugins s).
  assert (Hexec : ∀ c, preserves I (exec w c)) by (intros c; apply preserves_exec).
  destruct req as [pluginName version | bundlePath]; simpl.
  - unfold installPluginFromRegistry. rewrite run_bind. unfold gets at 1.
    rewrite try_catch_rethrow. intros H.
    apply bind_inv in H as [(e0 & H & _) | ([] & s1 & H1 & H)].
    { by apply (Hexec _ _ _ _ eq_refl H). }
    pose proof (Hexec _ _ _ _ eq_refl H1) as I1.
    apply bind_inv in H as [(e0 & H & _) | ([] & s2 & H2 & H)].
    { eapply (preserves_installPlugin w I); [done | exact I1 | exact H]. }
    assert (I2 : I s2).
    { eapply (preserves_installPlugin w I); [done | exact I1 | exact H2]. }
    apply bind_inv in H as [(e0 & H & _) | (md & s3 & H3 & H)].
    { eapply (preserves_parsePluginMetadata w I); [exact I2 | exact H]. }
    apply bind_inv in H as [(e0 & H & _) | ([] & s4 & H4 & H)]; discriminate.
  - unfold installFromLocalBundle. rewrite try_catch_rethrow.
    destruct (w_pathExists w bundlePath); simpl; [|by intros [= _ <-]].
    destruct (w_isDirectory w bundlePath); simpl; [|by intros [= _ <-]].
    intros H.
    apply bind_inv in H as [(e0 & H & _) | (md & s1 & H1 & H)].
    { by apply (preserves_parsePluginMetadata w I _ _ _ _ eq_refl H). }
    pose proof (preserves_parsePluginMetadata w I _ _ _ _ eq_refl H1) as I1.
    apply bind_inv in H as [(e0 & H & _) | (dir & s1' & [= <- <-] & H)]; [discriminate|].
    apply bind_inv in H as [(e0 & H & _) | ([] & s2 & H2 & H)].
    { by apply (Hexec _ _ _ _ I1 H). }
    pose proof (Hexec _ _ _ _ I1 H2) as I2.
    apply bind_inv in H as [(e0 & H & _) | ([] & s3 & H3 & H)].
    { by apply (Hexec _ _ _ _ I2 H). }
    pose proof (Hexec _ _ _ _ I2 H3) as I3.
    apply bind_inv in H as [(e0 & H & _) | ([] & s4 & H4 & H)].
    { destruct (negb _); [by apply (Hexec _ _ _ _ I3 H) | discriminate]. }
    apply bind_inv in H as [(e0 & H & _) | ([] & s5 & H5 & H)]; discriminate.
Qed.

(** Installing, from the registry or from a local bundle, never touches the
    plugin table, the host runtime, the original-component sets or the audit
    trail, whether it succeeds or fails; and an install that fails leaves the
    table of installed plugins as it was: no partial record is stored. *)
Theorem install_leaves_the_lifecycle_alone
    (w : World) (req : InstallRequest) (s s' : State) (r : Result DynamicPluginInfo) :
  install w req s = (r, s') ->
  sameLifecycle s s' ∧
  (∀ e, r = Throw e -> installedPlugins s' = installedPlugins s).
Proof.
  intros H. split.
  - by apply (preserves_install w (sameLifecycle s) req
                ltac:(done) ltac:(done) s r s').
  - intros e ->. by apply (install_throw_inv w req s e s').
Qed.

Lemma install_leaves_the_lifecycle_alone_witness :
  sameLifecycle freshManager
    (install installWorld (FromRegistry "pkg-a" None) freshManager).2 ∧
  installedPlugins (install plainWorld (FromRegistry "pkg-a" None) freshManager).2
  = installedPlugins freshManager.
Proof.
  split.
  - apply (install_leaves_the_lifecycle_alone installWorld
             (FromRegistry "pkg-a" None) freshManager _ _
             ltac:(apply surjective_pairing)).
  - apply (proj2 (install_leaves_the_lifecycle_alone plainWorld
                    (FromRegistry "pkg-a" None) freshManager _ _
                    ltac:(apply surjective_pairing)) (NotInRegistry "pkg-a")).
    vm_compute. reflexivity.
Defined.

(** A plugin name the catalog does not list is refused, once the install
    directories exist: with [NotInRegistry], unless the name is that of a
    member every object inherits from [Object.prototype] (such as
    [constructor] or [toString]), which the lookup [registry[pluginName]]
    finds; such a name is refused with [NoInstallMethod].  That covers every
    name when the registry cannot be reached and nothing is cached, since the
    catalog is then empty.  Only the registry cache may have changed. *)
Theorem installPluginFromRegistry_unknown_name
    (w : World) (pluginName : string) (version : option string) (s s1 : State)
    (registry : gmap string RegistryEntry) :
  w_run w (EnsureDir (path_dirname (getPluginInstallPath pluginName s))) = None ->
  w_run w (EnsureDir (getPluginInstallPath pluginName s)) = None ->
  getAvailablePluginsFromRegistry w s = (Ok registry, s1) ->
  registry !! pluginName = None ->
  installPluginFromRegistry w pluginName version s
  = (Throw (if bool_decide (pluginName ∈ objectPrototypeMembers)
            then NoInstallMethod pluginName
            else NotInRegistry pluginName), s1).
Proof.
  intros Hroot Hdir Hreg Hnone.
  unfold installPluginFromRegistry, installPlugin, exec,
    getAvailablePluginsFromRegistry, registry_get in *.
  cbv [try_catch throw gets mbind mret M_bind M_ret].
  rewrite Hroot, Hdir, Hreg, Hnone.
  by destruct (bool_decide (pluginName ∈ objectPrototypeMembers)).
Qed.

Lemma installPluginFromRegistry_unknown_name_witness :
  installPluginFromRegistry plainWorld "pkg-a" None freshManager
  = (Throw (NotInRegistry "pkg-a"), freshManager) ∧
  installPluginFromRegistry plainWorld "constructor" None freshManager
  = (Throw (NoInstallMethod "constructor"), freshManager).
Proof.
  split.
  - apply (installPluginFromRegistry_unknown_name plainWorld "pkg-a" None
             freshManager freshManager ∅); reflexivity.
  - apply (installPluginFromRegistry_unknown_name plainWorld "constructor" None
             freshManager freshManager ∅); reflexivity.
Defined.

(** [installFromGit] removes its temp directory in a [finally] block: once
    the directory has been created, a failure to remove it is the error the
    caller gets, whatever the clone, the checkout, the dependency install and
    the copy did; when the removal succeeds, a failed clone is reported as
    such. *)
Theorem installFromGit_cleans_up_in_finally
    (w : World) (gitRepo version targetDir : string) (s : State) :
  w_run w (EnsureDir (gitTempDir w targetDir)) = None ->
  (∀ m, w_run w (RemoveDir (gitTempDir w targetDir)) = Some m ->
        installFromGit w gitRepo version targetDir s = (Throw (Foreign m), s)) ∧
  (w_run w (RemoveDir (gitTempDir w targetDir)) = None ->
   ∀ m, w_run w (GitClone gitRepo (gitTempDir w targetDir)) = Some m ->
        installFromGit w gitRepo version targetDir s = (Throw (Foreign m), s)).
Proof.
  intros Hmk. unfold installFromGit. rewrite try_catch_rethrow. cbv zeta.
  fold (gitTempDir w targetDir). rewrite run_bind, exec_run, Hmk.
  unfold try_finally.
  assert (Hbody : ∀ m : M unit, preserves (fun x => x = s) m ->
                  ∃ r, m s = (r, s)).
  { intros m Hm. destruct (m s) as [r s1] eqn:E. exists r.
    by rewrite (Hm _ _ _ eq_refl E). }
  split.
  - intros m Hrm.
    match goal with |- context [(let (_, _) := ?b s in _)] =>
      destruct (Hbody b) as [r ->] end.
    { repeat first [apply preserves_exec | preserves_step]. }
    by rewrite exec_run, Hrm.
  - intros Hrm m Hclone. rewrite run_bind, exec_run, Hclone.
    by rewrite exec_run, Hrm.
Qed.

Lemma installFromGit_cleans_up_in_finally_witness :
  installFromGit stickyTempWorld "https://example.org/pkg-g.git" "main" "./plugins/x"
    freshManager
  = (Throw (Foreign "EBUSY"), freshManager).
Proof.
  apply (proj1 (installFromGit_cleans_up_in_finally stickyTempWorld
                  "https://example.org/pkg-g.git" "main" "./plugins/x" freshManager
                  eq_refl)).
  reflexivity.
Defined.

(** ** The install path *)

Lemma safe_char_not_separator c :
  safe_char c = true -> c ∉ chars "/\.".
Proof.
  intros H Hin. simpl in Hin.
  repeat (apply elem_of_cons in Hin as [->|Hin]; [vm_compute in H; discriminate|]).
  by apply elem_of_nil in Hin.
Qed.

Lemma safe_char_not_slash c : safe_char c = true -> c ≠ slash.
Proof. intros H ->. vm_compute in H. discriminate. Qed.

Lemma safe_char_not_dot c : safe_char c = true -> c ≠ Ascii.ascii_of_nat 46.
Proof. intros H ->. vm_compute in H. discriminate. Qed.

Lemma segments_nonempty p : segments p ≠ [].
Proof.
  destruct p as [|c p]; simpl; [done|].
  destruct (decide (c = slash)); [done|]. by destruct (segments p).
Qed.

Lemma segments_app a b :
  segments (a +:+ String slash b) = segments a ++ segments b.
Proof.
  induction a as [|c a IH]; simpl.
  - by destruct (decide (slash = slash)).
  - rewrite IH. destruct (decide (c = slash)); [done|].
    pose proof (segments_nonempty a). by destruct (segments a).
Qed.

Lemma segments_safe seg :
  Forall (fun c => safe_char c = true) (chars seg) -> segments seg = [seg].
Proof.
  induction seg as [|c seg IH]; simpl; [done|].
  intros [Hc Hs]%Forall_cons. rewrite decide_False by by apply safe_char_not_slash.
  by rewrite IH.
Qed.

Lemma normalizeStep_plain allow res seg : plainSegment seg -> normalizeStep allow res seg = res ++ [seg].
Proof.
  intros [Hne Hs]. unfold normalizeStep. rewrite decide_False by done.
  destruct seg as [|c seg]; [done|]. apply Forall_cons in Hs as [Hc _].
  pose proof (safe_char_not_dot c Hc) as Hd.
  rewrite !decide_False; [done | |]; intros [= -> _]; by apply Hd.
Qed.

Lemma string_app_assoc (a b c : string) : (a +:+ b) +:+ c = a +:+ (b +:+ c).
Proof.
  induction a as [|x a IH]; [done|].
  change (String x ((a +:+ b) +:+ c) = String x (a +:+ (b +:+ c))). by f_equal.
Qed.

Lemma string_app_nil_r (a : string) : a +:+ EmptyString = a.
Proof.
  induction a as [|x a IH]; [done|].
  change (String x (a +:+ EmptyString) = String x a). by f_equal.
Qed.

Lemma concat_snoc sep l seg :
  l ≠ [] -> String.concat sep (l ++ [seg]) = String.concat sep l +:+ sep +:+ seg.
Proof.
  induction l as [|x l IH]; [done|]. intros _. destruct l as [|y l].
  - simpl. done.
  - specialize (IH ltac:(done)). change ((x :: y :: l) ++ [seg]) with (x :: (y :: l) ++ [seg]).
    change (String.concat sep (x :: (y :: l) ++ [seg]))
      with (x +:+ sep +:+ String.concat sep ((y :: l) ++ [seg])).
    rewrite IH.
    change (String.concat sep (x :: y :: l))
      with (x +:+ sep +:+ String.concat sep (y :: l)).
    by rewrite !string_app_assoc.
Qed.

Lemma isAbsolute_app a b : a ≠ EmptyString -> isAbsolute (a +:+ b) = isAbsolute a.
Proof. by destruct a. Qed.

Lemma endsWithSlash_app a b : b ≠ EmptyString -> endsWithSlash (a +:+ b) = endsWithSlash b.
Proof.
  intros Hb. induction a as [|c a IH]; [done|].
  simpl. rewrite IH. destruct (a +:+ b) eqn:E; [|done].
  destruct a; [by destruct b | done].
Qed.

Lemma endsWithSlash_safe seg :
  Forall (fun c => safe_char c = true) (chars seg) -> endsWithSlash seg = false.
Proof.
  induction seg as [|c seg IH]; [done|]. intros [Hc Hs]%Forall_cons.
  simpl. destruct seg; [|by apply IH].
  apply bool_decide_eq_false_2. by apply safe_char_not_slash.
Qed.

Lemma normalizeString_snoc p seg allow :
  plainSegment seg ->
  normalizeString (p +:+ String slash seg) allow = normalizeString p allow ++ [seg].
Proof.
  intros Hs. unfold normalizeString.
  rewrite segments_app, (segments_safe seg) by apply Hs.
  rewrite foldl_app. simpl. by apply normalizeStep_plain.
Qed.

(** Normalising a path that ends in a plain segment. *)
Lemma path_normalize_snoc p seg :
  p ≠ EmptyString -> plainSegment seg ->
  path_normalize (p +:+ String slash seg) =
  (if isAbsolute p then "/" else EmptyString)
  +:+ String.concat "/" (normalizeString p (negb (isAbsolute p)) ++ [seg]).
Proof.
  intros Hp Hs. unfold path_normalize.
  rewrite decide_False by by destruct p.
  rewrite isAbsolute_app by done.
  rewrite normalizeString_snoc by done.
  change (String slash seg) with ("/" +:+ seg).
  rewrite (endsWithSlash_app p ("/" +:+ seg)) by done.
  assert (E : endsWithSlash ("/" +:+ seg) = false).
  { destruct Hs as [Hne Hs]. destruct seg; [done|]. by apply (endsWithSlash_safe (String a seg)). }
  rewrite E.
  destruct (normalizeString p (negb (isAbsolute p)) ++ [seg]) eqn:El.
  { by apply app_nil in El as [_ ?]. }
  by rewrite string_app_nil_r.
Qed.

Lemma plainSegment_not_absolute seg : plainSegment seg -> isAbsolute seg = false.
Proof.
  intros [Hne Hs]. destruct seg as [|c seg]; [done|].
  apply Forall_cons in Hs as [Hc _]. simpl.
  apply bool_decide_eq_false_2. by apply safe_char_not_slash.
Qed.

Lemma path_normalize_plain seg : plainSegment seg -> path_normalize seg = seg.
Proof.
  intros Hs. pose proof Hs as [Hne Hsafe]. unfold path_normalize, normalizeString.
  rewrite decide_False by done.
  rewrite (segments_safe seg) by done. simpl.
  rewrite (normalizeStep_plain _ [] seg) by done. simpl.
  rewrite plainSegment_not_absolute, endsWithSlash_safe by done.
  simpl. apply string_app_nil_r.
Qed.

(** [path.join(a, b)] when [b] is a plain segment. *)
Lemma path_join_plain a b :
  plainSegment b ->
  path_join a b =
  if decide (a = EmptyString) then b
  else (if isAbsolute a then "/" else EmptyString)
       +:+ String.concat "/" (normalizeString a (negb (isAbsolute a)) ++ [b]).
Proof.
  intros Hb. pose proof Hb as [Hbne _]. unfold path_join, path_join_all.
  destruct (decide (a = EmptyString)) as [->|Ha].
  - rewrite filter_cons_False by (intros H; by apply H).
    rewrite filter_cons_True by done. simpl. by apply path_normalize_plain.
  - rewrite !filter_cons_True by done. rewrite filter_nil.
    change (String.concat "/" [a; b]) with (a +:+ String slash b).
    by apply path_normalize_snoc.
Qed.

Lemma path_join3_plain a b seg :
  plainSegment b -> plainSegment seg ->
  path_join3 a b seg = path_join a b +:+ "/" +:+ seg.
Proof.
  intros Hb Hs. pose proof Hb as [Hbne _]. pose proof Hs as [Hsne _].
  rewrite path_join_plain by done. unfold path_join3, path_join_all.
  destruct (decide (a = EmptyString)) as [->|Ha].
  - rewrite filter_cons_False by (intros H; by apply H).
    rewrite !filter_cons_True by done. rewrite filter_nil.
    change (String.concat "/" [b; seg]) with (b +:+ String slash seg).
    rewrite path_normalize_snoc by done.
    rewrite plainSegment_not_absolute by done. unfold normalizeString.
    rewrite (segments_safe b) by apply Hb. simpl.
    by rewrite (normalizeStep_plain _ [] b) by done.
  - rewrite !filter_cons_True by done. rewrite filter_nil.
    change (String.concat "/" [a; b; seg]) with (a +:+ "/" +:+ b +:+ String slash seg).
    rewrite <- (string_app_assoc a "/" (b +:+ String slash seg)).
    rewrite <- (string_app_assoc (a +:+ "/") b (String slash seg)).
    rewrite (string_app_assoc a "/" b).
    change (a +:+ "/" +:+ b) with (a +:+ String slash b).
    rewrite path_normalize_snoc; [| by destruct a | done].
    rewrite isAbsolute_app by done.
    rewrite normalizeString_snoc by done.
    rewrite concat_snoc by (intros [_ ?]%app_nil; done).
    by rewrite !string_app_assoc.
Qed.

Lemma path_join3_empty a b : path_join3 a b EmptyString = path_join a b.
Proof.
  unfold path_join3, path_join, path_join_all.
  destruct (decide (a = EmptyString)) as [->|Ha], (decide (b = EmptyString)) as [->|Hb];
    repeat first [ rewrite filter_cons_True by done
                 | rewrite filter_cons_False by (intros H; by apply H) ]; done.
Qed.

Lemma chars_app a b : chars (a +:+ b) = chars a ++ chars b.
Proof.
  induction a as [|c a IH]; [done|].
  change (c :: chars (a +:+ b) = c :: chars a ++ chars b). by f_equal.
Qed.

Lemma unchars_chars s : unchars (chars s) = s.
Proof. induction s as [|c s IH]; simpl; [done | by rewrite IH]. Qed.

Lemma drop_while_all {A} (p : A -> bool) l l' :
  Forall (fun x => p x = true) l -> drop_while p (l ++ l') = drop_while p l'.
Proof. induction 1 as [|x l Hx _ IH]; simpl; [done | by rewrite Hx]. Qed.

Lemma drop_while_head {A} (p : A -> bool) x l :
  p x = false -> drop_while p (x :: l) = x :: l.
Proof. intros H. simpl. by rewrite H. Qed.

(** The parent of [base/seg] is [base]. *)
Lemma path_dirname_snoc base seg :
  plainSegment seg -> base ≠ EmptyString -> base ≠ "/" ->
  path_dirname (base +:+ "/" +:+ seg) = base.
Proof.
  intros [Hne Hs] Hb Hroot. destruct base as [|c0 rest]; [done|].
  change (String c0 rest +:+ "/" +:+ seg) with (String c0 (rest +:+ String slash seg)).
  unfold path_dirname. rewrite chars_app. simpl chars.
  rewrite reverse_app, reverse_cons, <- app_assoc. simpl.
  assert (Hns : Forall (fun c => negb (is_slash c) = true) (reverse (chars seg))).
  { apply Forall_reverse. eapply Forall_impl; [exact Hs|]. intros c Hc.
    apply negb_true_iff, bool_decide_eq_false_2. by apply safe_char_not_slash. }
  assert (Hd1 : drop_while is_slash (reverse (chars seg) ++ slash :: reverse (chars rest))
                = reverse (chars seg) ++ slash :: reverse (chars rest)).
  { destruct (reverse (chars seg)) as [|x l] eqn:E.
    - apply (f_equal reverse) in E. rewrite reverse_involutive in E.
      destruct seg; done.
    - apply Forall_cons in Hns as [Hx _]. simpl. apply negb_true_iff in Hx. by rewrite Hx. }
  rewrite Hd1, drop_while_all by done.
  rewrite drop_while_head by done.
  rewrite reverse_involutive, unchars_chars.
  destruct (is_slash c0) eqn:Ec; simpl; [|done].
  destruct (reverse (chars rest)) as [|x l] eqn:E; [|done].
  apply (f_equal reverse) in E. rewrite reverse_involutive in E.
  destruct rest; [|done]. apply bool_decide_eq_true_1 in Ec. by subst c0.
Qed.

Lemma ends_plain_not_root X b :
  plainSegment b -> X +:+ b ≠ EmptyString ∧ X +:+ b ≠ "/".
Proof.
  intros [Hne Hs]. split.
  - intros E. apply (f_equal chars) in E. rewrite chars_app in E.
    apply app_nil in E as [_ E]. by destruct b.
  - intros E. apply (f_equal chars) in E. rewrite chars_app in E. simpl in E.
    destruct (chars X) as [|x l].
    + simpl in E. destruct b as [|c b]; [done|]. apply Forall_cons in Hs as [Hc _].
      injection E as -> _. by apply (safe_char_not_slash slash).
    + injection E as _ E. apply app_nil in E as [_ E]. by destruct b.
Qed.

Lemma concat_ends sep l b : ∃ Y, String.concat sep (l ++ [b]) = Y +:+ b.
Proof.
  destruct l as [|x l].
  - by exists EmptyString.
  - exists (String.concat sep (x :: l) +:+ sep).
    rewrite concat_snoc by done. by rewrite string_app_assoc.
Qed.

Lemma path_join_plain_not_root a b :
  plainSegment b -> path_join a b ≠ EmptyString ∧ path_join a b ≠ "/".
Proof.
  intros Hb. rewrite path_join_plain by done.
  destruct (decide (a = EmptyString)).
  - by apply (ends_plain_not_root EmptyString).
  - destruct (concat_ends "/" (normalizeString a (negb (isAbsolute a))) b) as [Y ->].
    rewrite <- string_app_assoc. by apply ends_plain_not_root.
Qed.

Lemma path_dirname_join3 a b seg :
  plainSegment b -> plainSegment seg ->
  path_dirname (path_join3 a b seg) = path_join a b.
Proof.
  intros Hb Hs. rewrite path_join3_plain by done.
  destruct (path_join_plain_not_root a b Hb). by apply path_dirname_snoc.
Qed.

Lemma sanitize_byte_chars c :
  Forall (fun c => safe_char c = true) (chars (sanitize_byte c)).
Proof.
  unfold sanitize_byte. destruct (safe_char c) eqn:E.
  - by repeat constructor.
  - repeat (match goal with |- context [if ?b then _ else _] => destruct b end);
      by repeat constructor.
Qed.

Lemma sanitize_chars n : Forall (fun c => safe_char c = true) (chars (sanitize n)).
Proof.
  induction n as [|c n IH]; simpl; [constructor|].
  rewrite chars_app. apply Forall_app. split; [apply sanitize_byte_chars | done].
Qed.

Lemma sanitize_safe n :
  Forall (fun c => safe_char c = true) (chars n) -> sanitize n = n.
Proof.
  induction n as [|c n IH]; simpl; [done|].
  intros [Hc Hn]%Forall_cons. unfold sanitize_byte. rewrite Hc, IH by done. done.
Qed.

(** The directory a plugin is installed into is named by letters, digits,
    [-] and [_] only, whatever the plugin's name: the name holds no slash,
    no backslash and no dot.  When that name is not empty, the directory is
    the direct child of that name of [installedDir], the directory
    [path.join(pluginDirectory || './plugins', 'installed')], which is its
    [path.dirname]; the empty plugin name is given [installedDir] itself.
    Sanitizing leaves a name of such characters unchanged, so sanitizing
    twice is sanitizing once. *)
Theorem getPluginInstallPath_stays_under_root (pluginName : string) (s : State) :
  Forall (fun c => safe_char c = true ∧ c ∉ chars "/\.")
         (chars (sanitize pluginName)) ∧
  (sanitize pluginName ≠ EmptyString ->
   getPluginInstallPath pluginName s = installedDir s +:+ "/" +:+ sanitize pluginName ∧
   path_dirname (getPluginInstallPath pluginName s) = installedDir s) ∧
  getPluginInstallPath EmptyString s = installedDir s ∧
  (Forall (fun c => safe_char c = true) (chars pluginName) ->
   sanitize pluginName = pluginName) ∧
  sanitize (sanitize pluginName) = sanitize pluginName.
Proof.
  assert (Hinst : plainSegment "installed") by (split; [done | by repeat constructor]).
  split; [|split; [|split; [|split]]].
  - eapply Forall_impl; [apply sanitize_chars|].
    intros c Hc. split; [done | by apply safe_char_not_separator].
  - intros Hne.
    assert (Hseg : plainSegment (sanitize pluginName)).
    { split; [done | apply sanitize_chars]. }
    unfold getPluginInstallPath, installedDir. split.
    + by apply path_join3_plain.
    + by apply path_dirname_join3.
  - apply path_join3_empty.
  - apply sanitize_safe.
  - apply sanitize_safe, sanitize_chars.
Qed.

Lemma getPluginInstallPath_stays_under_root_witness :
  getPluginInstallPath "@org/plugin.x" freshManager = "plugins/installed/_org_plugin_x" ∧
  path_dirname (getPluginInstallPath "@org/plugin.x" freshManager) = "plugins/installed".
Proof.
  apply (proj1 (proj2 (getPluginInstallPath_stays_under_root "@org/plugin.x" freshManager))).
  discriminate.
Defined.

(** ** Registering a plugin *)

(** A successful [registerPlugin] stores a [READY] record with empty
    component sets under the id derived from the plugin's name, touches no
    other record, and announces it; registering again any plugin whose name
    gives the same id is refused with [AlreadyRegistered] and changes
    nothing. *)
Theorem registerPlugin_rejects_second_registration
    (w w' : World) (P P' : Plugin) (s s' : State) (pluginId : string) :
  registerPlugin w P s = (Ok pluginId, s') ->
  w_uuid w' (plugin_name P') = pluginId ->
  registerPlugin w' P' s' = (Throw (AlreadyRegistered (plugin_name P')), s') ∧
  pluginId = w_uuid w (plugin_name P) ∧
  getPlugin pluginId s = None ∧
  (∃ ps, getPlugin pluginId s' = Some ps ∧ ps_status ps = READY ∧
         ps_plugin ps = Some P ∧ ps_components ps = emptyComponents) ∧
  (∀ k, k ≠ pluginId -> getPlugin k s' = getPlugin k s) ∧
  rt_emitted (runtime s') = rt_emitted (runtime s) ++ [(PLUGIN_READY, pluginId)].
Proof.
  intros Hreg Hid.
  assert (Hnew : pluginId = w_uuid w (plugin_name P) ∧ getPlugin pluginId s = None).
  { unfold registerPlugin in Hreg. rewrite run_bind in Hreg. unfold gets at 1 in Hreg.
    destruct (getPlugin (w_uuid w (plugin_name P)) s) eqn:E; [discriminate|].
    by injection Hreg as <- _. }
  destruct Hnew as [Hk Hnone].
  apply registerPlugin_ok_inv in Hreg as (r & Hrid & Hst & Hpl & Hnm & Hc & ->).
  assert (Hget : getPlugin pluginId
                   (set_runtime (set_rt_emitted (fun l => l ++ [(PLUGIN_READY, pluginId)]))
                      (set_plugins (alist_set pluginId r) s)) = Some r).
  { unfold getPlugin. simpl. by rewrite alist_get_set, decide_True. }
  split.
  { unfold registerPlugin. rewrite run_bind. unfold gets at 1. by rewrite Hid, Hget. }
  split; [done|]. split; [done|]. split; [by exists r|]. split; [|done].
  intros k Hne. unfold getPlugin. simpl. by rewrite alist_get_set, decide_False.
Qed.

Lemma registerPlugin_rejects_second_registration_witness :
  registerPlugin plainWorld pluginP pRegistered
  = (Throw (AlreadyRegistered "p"), pRegistered).
Proof.
  apply (registerPlugin_rejects_second_registration plainWorld plainWorld
           pluginP pluginP emptyManager pRegistered "uuid:p");
    vm_compute; reflexivity.
Defined.

(** ** Loading *)

Lemma mayLoad_checks force ps :
  mayLoad force ps ->
  bool_decide (ps_status ps = LOADED) && negb force = false ∧
  bool_decide (ps_status ps ≠ READY) && bool_decide (ps_status ps ≠ UNLOADED)
    && negb force = false.
Proof.
  intros [-> | [Hst | Hst]].
  - split; apply andb_false_r.
  - rewrite Hst. done.
  - rewrite Hst. done.
Qed.

(** Past its checks, [loadPlugin] is its [try] block under its [catch]. *)
Lemma loadPlugin_past_checks w pluginId force s ps P :
  getPlugin pluginId s = Some ps -> ps_plugin ps = Some P -> mayLoad force ps ->
  loadPlugin w pluginId force s
  = try_catch (loadPlugin_try w pluginId ps P) (loadPlugin_catch pluginId) s.
Proof.
  intros Hget Hpl Hguard. destruct (mayLoad_checks _ _ Hguard) as [G1 G2].
  unfold loadPlugin. rewrite run_bind. unfold gets at 1.
  by rewrite Hget, G1, G2, Hpl.
Qed.

Lemma forM_app {A} (f : A -> M unit) l1 l2 s :
  forM_ (l1 ++ l2) f s =
  match forM_ l1 f s with
  | (Ok _, s1) => forM_ l2 f s1
  | (Throw e, s1) => (Throw e, s1)
  end.
Proof.
  revert s. induction l1 as [|x l1 IH]; intros s; [done|].
  rewrite <- app_comm_cons, !forM_cons. destruct (f x s) as [[[]|e] s1]; [apply IH | done].
Qed.

Lemma registerList_run w k P pluginId cs :
  (∀ c, c ∈ cs -> w_host_fault w (c_name c) = None) ->
  ∀ s, forM_ cs (fun c =>
         registerComponent w k c ;;
         withComponents P (set_owned k (fun x => x ∪ {[c_name c]})) ;;
         trackComponentRegistration w pluginId (kindType k) (c_name c)) s
       = (Ok tt, afterRegister w k P pluginId cs s).
Proof.
  intros Hok s.
  match goal with |- ?m s = _ => assert (Hex : ∃ s', m s = (Ok tt, s')) end.
  { revert s. induction cs as [|c cs IH]; intros s; [by exists s|].
    rewrite forM_cons. cbv beta. rewrite run_bind, registerComponent_run.
    rewrite (Hok c) by apply list_elem_of_here.
    unfold withComponents, trackComponentRegistration, modify. rewrite run_bind.
    cbv beta iota. apply IH. intros c' Hc'. apply Hok. by apply list_elem_of_further. }
  destruct Hex as (s' & Hrun). rewrite Hrun. f_equal.
  by apply registerList_ok in Hrun.
Qed.

Lemma registerHandlers_run w P pluginId e hs :
  (hs ≠ [] -> w_host_fault w e = None) ->
  ∀ s, forM_ hs (fun h =>
         registerEvent w e h ;;
         withComponents P (set_pc_eventHandlers (trackHandler e h)) ;;
         trackComponentRegistration w pluginId CTeventHandler e) s
       = (Ok tt, afterRegisterHandlers w P pluginId e hs s).
Proof.
  intros Hok s.
  match goal with |- ?m s = _ => assert (Hex : ∃ s', m s = (Ok tt, s')) end.
  { destruct hs as [|h0 hs0]; [by exists s|].
    assert (Hnone : w_host_fault w e = None) by (by apply Hok).
    clear Hok. revert s. generalize (h0 :: hs0). intros l.
    induction l as [|h l IH]; intros s; [by exists s|].
    rewrite forM_cons. cbv beta. rewrite run_bind, registerEvent_run, Hnone.
    unfold withComponents, trackComponentRegistration, modify. rewrite run_bind.
    cbv beta iota. apply IH. }
  destruct Hex as (s' & Hrun). rewrite Hrun. f_equal.
  by apply registerHandlers_ok in Hrun.
Qed.

Lemma registerEvents_run w P pluginId evs :
  (∀ ev, ev ∈ evs -> ev.2 ≠ [] -> w_host_fault w ev.1 = None) ->
  ∀ s, forM_ evs (fun '(eventName, eventHandlers) =>
         withComponents P (set_pc_eventHandlers (ensureEvent eventName)) ;;
         forM_ eventHandlers (fun eventHandler =>
           registerEvent w eventName eventHandler ;;
           withComponents P (set_pc_eventHandlers (trackHandler eventName eventHandler)) ;;
           trackComponentRegistration w pluginId CTeventHandler eventName)) s
       = (Ok tt, afterRegisterEvents w P pluginId evs s).
Proof.
  intros Hok s.
  match goal with |- ?m s = _ => assert (Hex : ∃ s', m s = (Ok tt, s')) end.
  { revert s. induction evs as [|[e hs] evs IH]; intros s; [by exists s|].
    rewrite forM_cons. cbv beta iota. rewrite run_bind.
    unfold withComponents at 1, modify at 1. cbv beta iota.
    rewrite registerHandlers_run.
    - apply IH. intros ev Hev. apply Hok. by apply list_elem_of_further.
    - apply (Hok (e, hs)). apply list_elem_of_here. }
  destruct Hex as (s' & Hrun). rewrite Hrun. f_equal.
  by apply registerEvents_ok in Hrun.
Qed.

Lemma hostAccepts_spec w P :
  hostAccepts w P = true ->
  (∀ k c, c ∈ declared k P -> w_host_fault w (c_name c) = None) ∧
  (∀ ev, ev ∈ events P -> ev.2 ≠ [] -> w_host_fault w ev.1 = None).
Proof.
  unfold hostAccepts. intros [Hc He]%andb_prop.
  rewrite forallb_forall in Hc. rewrite forallb_forall in He. split.
  - intros k c Hin.
    assert (Hin' : c ∈ actions P ++ providers P ++ evaluators P).
    { rewrite !elem_of_app. destruct k; simpl in Hin; auto. }
    apply list_elem_of_In, Hc in Hin'. by apply bool_decide_eq_true_1 in Hin'.
  - intros ev Hin Hne. apply list_elem_of_In, He in Hin.
    destruct (ev.2); [done | by apply bool_decide_eq_true_1 in Hin].
Qed.

Lemma registerPluginComponents_run w P s ps :
  findPluginState P (plugins s) = Some ps ->
  hostAccepts w P = true ->
  registerPluginComponents w P s = (Ok tt, afterRegistration w P (ps_id ps) s).
Proof.
  intros Hf [Hc He]%hostAccepts_spec.
  unfold registerPluginComponents. rewrite run_bind. unfold gets at 1. rewrite Hf.
  unfold registerActions, registerProviders, registerEvaluators, registerComponents,
    registerEvents, registerServices.
  rewrite run_bind, registerList_run by apply (Hc KAction).
  rewrite run_bind, registerList_run by apply (Hc KProvider).
  rewrite run_bind, registerList_run by apply (Hc KEvaluator).
  rewrite run_bind, registerEvents_run by done.
  rewrite run_bind, registerServices_run. reflexivity.
Qed.

Lemma init_returns P s :
  (∀ m, init P ≠ Some (InitThrows m)) ->
  match init P with Some hook => runInit hook | None => mret tt end s = (Ok tt, s).
Proof. intros H. destruct (init P) as [[|m]|]; [done | by destruct (H m) | done]. Qed.

(** The state a load leaves when nothing throws. *)
Lemma loadPlugin_run w pluginId force s ps P psf :
  getPlugin pluginId s = Some ps -> ps_plugin ps = Some P -> mayLoad force ps ->
  findPluginState P (plugins s) = Some psf ->
  (∀ m, init P ≠ Some (InitThrows m)) ->
  hostAccepts w P = true ->
  ∃ ps1,
    alist_get pluginId
      (plugins (afterRegistration w P (ps_id psf)
         (set_runtime (set_rt_emitted (fun l => l ++ [(PLUGIN_BUILDING, pluginId)])) s)))
      = Some ps1 ∧
    loadPlugin w pluginId force s =
      (Ok tt,
       set_runtime (set_rt_emitted (fun l => l ++ [(PLUGIN_LOADED, pluginId)]))
         (set_plugins (alist_set pluginId (loaded_update (w_now w) ps1))
            (afterRegistration w P (ps_id psf)
               (set_runtime
                  (set_rt_emitted (fun l => l ++ [(PLUGIN_BUILDING, pluginId)])) s)))).
Proof.
  intros Hget Hpl Hguard Hf Hinit Hacc.
  set (s0 := set_runtime (set_rt_emitted (fun l => l ++ [(PLUGIN_BUILDING, pluginId)])) s).
  assert (Hreg : registerPluginComponents w P s0
                 = (Ok tt, afterRegistration w P (ps_id psf) s0)).
  { by apply registerPluginComponents_run. }
  assert (Hkeep : holds_at pluginId (fun _ => True)
                    (afterRegistration w P (ps_id psf) s0)).
  { eapply (preserves_registerPluginComponents w pluginId (fun _ => True) P);
      [by intros ? ? ? | | exact Hreg].
    by exists ps. }
  destruct Hkeep as (ps1 & Hg1 & _). exists ps1. split; [exact Hg1|].
  rewrite (loadPlugin_past_checks _ _ _ _ _ _ Hget Hpl Hguard).
  unfold try_catch. rewrite loadPlugin_try_split.
  rewrite run_bind. unfold emitEvent at 1, modify at 1. fold s0.
  rewrite run_bind, (init_returns _ _ Hinit), Hreg.
  rewrite run_bind, (updatePluginState_run _ _ _ _ Hg1). reflexivity.
Qed.

(** When the record passes the status checks (or [force] is given), the
    [init] hook does not throw and the host rejects none of the plugin's
    components and handlers, [loadPlugin] returns: the record is [LOADED]
    with a fresh [loadedAt] and no [error], every declared action, provider
    and evaluator has been appended to its host array, the plugin object to
    the host's plugin list, and the two lifecycle events have been emitted.
    This holds for a forced load of a loaded plugin too, which appends the
    components a second time.  Every handler the plugin declares for an
    event follows the handlers the host already had for it, in declaration
    order. *)
Theorem loadPlugin_succeeds_when_host_accepts
    (w : World) (pluginId : string) (force : bool) (s : State) (ps : PluginState)
    (P : Plugin) :
  getPlugin pluginId s = Some ps ->
  ps_plugin ps = Some P ->
  mayLoad force ps ->
  (∀ m, init P ≠ Some (InitThrows m)) ->
  hostAccepts w P = true ->
  ∃ s',
    loadPlugin w pluginId force s = (Ok tt, s') ∧
    holds_at pluginId
      (fun r => ps_status r = LOADED ∧ ps_loadedAt r = Some (w_now w) ∧ ps_error r = None)
      s' ∧
    rt_actions (runtime s') = rt_actions (runtime s) ++ actions P ∧
    rt_providers (runtime s') = rt_providers (runtime s) ++ providers P ∧
    rt_evaluators (runtime s') = rt_evaluators (runtime s) ++ evaluators P ∧
    rt_plugins (runtime s') = rt_plugins (runtime s) ++ [P] ∧
    rt_emitted (runtime s')
    = rt_emitted (runtime s) ++ [(PLUGIN_BUILDING, pluginId); (PLUGIN_LOADED, pluginId)] ∧
    (∀ e, handlersOf s' e = handlersOf s e ++ declaredHandlers (events P) e).
Proof.
  intros Hget Hpl Hguard Hinit Hacc.
  destruct (findPluginState_exists P _ _ _ Hget Hpl) as (psf & Hf).
  destruct (loadPlugin_run w _ _ _ _ _ _ Hget Hpl Hguard Hf Hinit Hacc)
    as (ps1 & Hg1 & Hrun).
  eexists. split; [exact Hrun|]. split.
  { exists (loaded_update (w_now w) ps1). split; [|done].
    simpl. by rewrite alist_get_set, decide_True. }
  repeat split; simpl; try done.
  - by rewrite <- app_assoc.
  - intros e. unfold handlersOf. simpl. rewrite addEvents_lookup.
    destruct (declaredHandlers (events P) e); simpl; [by rewrite app_nil_r | done].
Qed.

Lemma loadPlugin_succeeds_when_host_accepts_witness :
  ∃ s', loadPlugin plainWorld "uuid:p" true pLoaded = (Ok tt, s') ∧
        rt_actions (runtime s')
        = [{| c_name := "X"; c_ref := 10%nat |}; {| c_name := "Y"; c_ref := 11%nat |};
           {| c_name := "X"; c_ref := 10%nat |}; {| c_name := "Y"; c_ref := 11%nat |}].
Proof.
  destruct (loadPlugin_succeeds_when_host_accepts plainWorld "uuid:p" true pLoaded
              _ pluginP ltac:(vm_compute; reflexivity) ltac:(reflexivity)
              ltac:(by left) ltac:(discriminate) ltac:(reflexivity))
    as (s' & Hrun & _ & Ha & _).
  exists s'. split; [exact Hrun|]. rewrite Ha. vm_compute. reflexivity.
Defined.

(** ** What a failed load leaves behind *)

Lemma registerList_fails w k P pluginId pre c post m s :
  (∀ a, a ∈ pre -> w_host_fault w (c_name a) = None) ->
  w_host_fault w (c_name c) = Some m ->
  forM_ (pre ++ c :: post) (fun c =>
    registerComponent w k c ;;
    withComponents P (set_owned k (fun x => x ∪ {[c_name c]})) ;;
    trackComponentRegistration w pluginId (kindType k) (c_name c)) s
  = (Throw (Foreign m), afterRegister w k P pluginId pre s).
Proof.
  intros Hpre Hc. rewrite forM_app, registerList_run by done.
  rewrite forM_cons. cbv beta. by rewrite run_bind, registerComponent_run, Hc.
Qed.

Lemma holds_at_afterRegister w k P pluginId' cs pluginId R s :
  ignores_components R ->
  holds_at pluginId R s -> holds_at pluginId R (afterRegister w k P pluginId' cs s).
Proof.
  intros HR H. unfold holds_at, afterRegister. simpl.
  by apply alist_get_update_found_ignoring.
Qed.

(** A load whose registration is cut short by the host rejecting an action
    is not rolled back: the actions registered before the rejected one stay
    in the host's array, the record is left in [ERROR] with the host's
    message, and the host's error is what the caller gets.  The plugin object
    is not added to the host's plugin list. *)
Theorem failed_load_keeps_earlier_registrations
    (w : World) (pluginId : string) (force : bool) (s : State) (ps : PluginState)
    (P : Plugin) (pre post : list Component) (c : Component) (m : string) :
  getPlugin pluginId s = Some ps ->
  ps_plugin ps = Some P ->
  mayLoad force ps ->
  (∀ m, init P ≠ Some (InitThrows m)) ->
  actions P = pre ++ c :: post ->
  (∀ a, a ∈ pre -> w_host_fault w (c_name a) = None) ->
  w_host_fault w (c_name c) = Some m ->
  ∃ s',
    loadPlugin w pluginId force s = (Throw (Foreign m), s') ∧
    rt_actions (runtime s') = rt_actions (runtime s) ++ pre ∧
    rt_plugins (runtime s') = rt_plugins (runtime s) ∧
    holds_at pluginId (fun r => ps_status r = ERROR ∧ ps_error r = Some m) s' ∧
    rt_emitted (runtime s')
    = rt_emitted (runtime s) ++ [(PLUGIN_BUILDING, pluginId); (PLUGIN_ERROR, pluginId)].
Proof.
  intros Hget Hpl Hguard Hinit Hact Hpre Hc.
  destruct (findPluginState_exists P _ _ _ Hget Hpl) as (psf & Hf).
  set (s0 := set_runtime (set_rt_emitted (fun l => l ++ [(PLUGIN_BUILDING, pluginId)])) s).
  set (s1 := afterRegister w KAction P (ps_id psf) pre s0).
  assert (Hreg : registerPluginComponents w P s0 = (Throw (Foreign m), s1)).
  { unfold registerPluginComponents. rewrite run_bind. unfold gets at 1.
    assert (Hf0 : findPluginState P (plugins s0) = Some psf) by done.
    rewrite Hf0. rewrite run_bind.
    unfold registerActions, registerComponents. simpl declared. rewrite Hact.
    by rewrite (registerList_fails w KAction P (ps_id psf) pre c post m s0). }
  assert (Hkeep : holds_at pluginId (fun _ => True) s1).
  { apply holds_at_afterRegister; [by intros ? ? ? |]. by exists ps. }
  destruct Hkeep as (ps1 & Hg1 & _).
  rewrite (loadPlugin_past_checks _ _ _ _ _ _ Hget Hpl Hguard).
  unfold try_catch. rewrite loadPlugin_try_split.
  rewrite run_bind. unfold emitEvent at 1, modify at 1. fold s0.
  rewrite run_bind, (init_returns _ _ Hinit), Hreg.
  unfold loadPlugin_catch. rewrite run_bind, (updatePluginState_run _ _ _ _ Hg1).
  unfold emitEvent, modify, throw. rewrite run_bind. cbv beta iota.
  eexists. split; [reflexivity|]. simpl.
  split; [done|]. split; [done|]. split.
  - exists (error_update m ps1). split; [|done].
    simpl. by rewrite alist_get_set, decide_True.
  - by rewrite <- app_assoc.
Qed.

Lemma failed_load_keeps_earlier_registrations_witness :
  ∃ s', loadPlugin faultyWorld "uuid:p" false pRegistered
        = (Throw (Foreign "rejected"), s') ∧
        rt_actions (runtime s') = [{| c_name := "X"; c_ref := 10%nat |}] ∧
        rt_plugins (runtime s') = [].
Proof.
  destruct (failed_load_keeps_earlier_registrations faultyWorld "uuid:p" false
              pRegistered _ pluginP [{| c_name := "X"; c_ref := 10%nat |}] []
              {| c_name := "Y"; c_ref := 11%nat |} "rejected"
              ltac:(vm_compute; reflexivity) ltac:(reflexivity)
              ltac:(right; by left) ltac:(discriminate) ltac:(reflexivity))
    as (s' & Hrun & Ha & Hp & _).
  - intros a Ha. apply list_elem_of_singleton in Ha. by subst a.
  - reflexivity.
  - exists s'. split; [exact Hrun|]. split; [exact Ha | exact Hp].
Defined.

(** After a load that threw from its [try] block, the record is in
    [ERROR]: loading it again without [force] is refused with
    [InvalidState] and changes nothing. *)
Theorem failed_load_is_not_retried_without_force
    (w w' : World) (pluginId : string) (force : bool) (s s' : State)
    (ps : PluginState) (P : Plugin) (e : Error) :
  getPlugin pluginId s = Some ps ->
  ps_plugin ps = Some P ->
  mayLoad force ps ->
  loadPlugin w pluginId force s = (Throw e, s') ->
  loadPlugin w' pluginId false s' = (Throw (InvalidState (ps_name ps) ERROR), s').
Proof.
  intros Hget Hpl Hguard Hrun.
  rewrite (loadPlugin_past_checks _ _ _ _ _ _ Hget Hpl Hguard) in Hrun.
  unfold try_catch in Hrun. rewrite loadPlugin_try_split in Hrun.
  destruct ((emitEvent PLUGIN_BUILDING pluginId ;; _ ;; _) s) as [[[]|e0] s1] eqn:Hpre.
  - assert (Hkeep : holds_at pluginId (fun _ => True) s1).
    { eapply (preserves_loadPlugin_try_prefix w pluginId P);
        [apply ignores_components_True | | exact Hpre]. by exists ps. }
    destruct Hkeep as (ps1 & Hg1 & _).
    rewrite run_bind, (updatePluginState_run _ _ _ _ Hg1) in Hrun. discriminate.
  - assert (Hkeep : holds_at pluginId (fun r => ps_name r = ps_name ps) s1).
    { eapply (preserves_loadPlugin_try_prefix w pluginId P);
        [by intros ? ? ? | | exact Hpre]. by exists ps. }
    destruct Hkeep as (ps1 & Hg1 & Hn1).
    unfold loadPlugin_catch in Hrun.
    rewrite run_bind, (updatePluginState_run _ _ _ _ Hg1) in Hrun.
    unfold emitEvent, modify, throw in Hrun. rewrite run_bind in Hrun.
    injection Hrun as <- <-.
    unfold loadPlugin. rewrite run_bind. unfold gets at 1, getPlugin. simpl.
    rewrite alist_get_set, decide_True by done. simpl. by rewrite Hn1.
Qed.

Lemma failed_load_is_not_retried_without_force_witness :
  loadPlugin plainWorld "uuid:p" false
    (loadPlugin faultyWorld "uuid:p" false pRegistered).2
  = (Throw (InvalidState "p" ERROR), (loadPlugin faultyWorld "uuid:p" false pRegistered).2).
Proof.
  apply (failed_load_is_not_retried_without_force faultyWorld plainWorld "uuid:p"
           false pRegistered _ _ pluginP (Foreign "rejected")
           ltac:(vm_compute; reflexivity) ltac:(reflexivity) ltac:(right; by left)).
  vm_compute. reflexivity.
Defined.

(** ** The record of a plugin and its audit trail *)

Lemma onlyRecordOf_table P pluginId l ps :
  (∀ k r, (k, r) ∈ l -> same_plugin P r = true -> k = pluginId) ->
  alist_get pluginId l = Some ps -> same_plugin P ps = true ->
  findPluginState P l = Some ps ∧
  ∀ f, update_found P f l = alist_set pluginId (set_ps_components f ps) l.
Proof.
  induction l as [|[k0 r0] l IH]; intros Honly Hget Hsame; [done|].
  simpl in *. destruct (same_plugin P r0) eqn:E.
  - assert (k0 = pluginId) as -> by (apply (Honly k0 r0); [apply list_elem_of_here | done]).
    rewrite decide_True in Hget by done. injection Hget as ->.
    split; [done|]. intros f. by rewrite decide_True.
  - destruct (decide (k0 = pluginId)) as [->|Hne].
    { injection Hget as ->. congruence. }
    destruct IH as [Hf Hu]; [|done|done|].
    { intros k r Hin. apply Honly. by apply list_elem_of_further. }
    split; [done|]. intros f. by rewrite Hu.
Qed.

Lemma trackAll_lookup w pluginId ty ns : ∀ reg,
  default [] (trackAll w pluginId ty ns reg !! pluginId)
  = default [] (reg !! pluginId) ++ (auditEntry w pluginId ty <$> ns).
Proof.
  unfold trackAll. induction ns as [|n ns IH]; intros reg; simpl.
  - by rewrite app_nil_r.
  - rewrite IH, lookup_insert_eq. simpl. by rewrite <- app_assoc.
Qed.

Lemma trackAll_lookup_ne w pluginId ty ns k : ∀ reg,
  k ≠ pluginId -> trackAll w pluginId ty ns reg !! k = reg !! k.
Proof.
  unfold trackAll. induction ns as [|n ns IH]; intros reg Hne; simpl; [done|].
  rewrite IH by done. by rewrite lookup_insert_ne.
Qed.

(** [loadPlugin_ok_inv] for any record that passes the checks. *)
Lemma loadPlugin_ok_shape w pluginId force s s' ps P :
  loadPlugin w pluginId force s = (Ok tt, s') ->
  getPlugin pluginId s = Some ps -> ps_plugin ps = Some P -> mayLoad force ps ->
  ∃ psf ps1,
    findPluginState P (plugins s) = Some psf ∧
    alist_get pluginId
      (plugins (afterRegistration w P (ps_id psf)
         (set_runtime (set_rt_emitted (fun l => l ++ [(PLUGIN_BUILDING, pluginId)])) s)))
      = Some ps1 ∧
    s' = set_runtime (set_rt_emitted (fun l => l ++ [(PLUGIN_LOADED, pluginId)]))
           (set_plugins (alist_set pluginId (loaded_update (w_now w) ps1))
              (afterRegistration w P (ps_id psf)
                 (set_runtime
                    (set_rt_emitted (fun l => l ++ [(PLUGIN_BUILDING, pluginId)])) s))).
Proof.
  intros H Hget Hpl Hguard.
  rewrite (loadPlugin_past_checks _ _ _ _ _ _ Hget Hpl Hguard) in H.
  unfold try_catch in H. rewrite loadPlugin_try_split in H.
  destruct ((emitEvent PLUGIN_BUILDING pluginId ;; _ ;; _) s) as [[[]|e] s1] eqn:Hpre.
  2:{ destruct (loadPlugin_catch pluginId e s1) as [r s2] eqn:Hc.
      apply loadPlugin_catch_never_returns in Hc. subst r. discriminate. }
  apply bind_ok_inv in Hpre as ([] & t0 & He & Hpre).
  apply bind_ok_inv in Hpre as ([] & t1 & Hi & Hreg).
  injection He as <-.
  assert (t1 = set_runtime (set_rt_emitted (fun l => l ++ [(PLUGIN_BUILDING, pluginId)])) s)
    as ->.
  { destruct (init P) as [[|m]|]; cbv [runInit mret M_ret throw] in Hi; congruence. }
  assert (Hkeep : holds_at pluginId (fun _ => True) s1).
  { eapply (preserves_registerPluginComponents w pluginId (fun _ => True) P);
      [by intros ? ? ? | | exact Hreg].
    by exists ps. }
  apply registerPluginComponents_ok in Hreg as (psf & Hf & ->).
  simpl in Hf. exists psf. destruct Hkeep as (ps1 & Hg1 & _).
  exists ps1. split; [done|]. split; [exact Hg1|].
  rewrite run_bind, (updatePluginState_run _ _ _ _ Hg1) in H.
  by injection H as <-.
Qed.

(** A load that returns has added to the record's component sets the names
    of the plugin's actions, providers and evaluators, the types of the
    services that started and the handlers of its events, and has appended
    to the plugin's audit trail one entry per registration, in the order
    actions, providers, evaluators, event handlers, services, each stamped
    with the time of the load.  The sets and trails of the other plugins are
    untouched. *)
Theorem load_records_components_and_audit_trail
    (w : World) (pluginId : string) (force : bool) (s s' : State)
    (ps : PluginState) (P : Plugin) :
  getPlugin pluginId s = Some ps ->
  ps_plugin ps = Some P ->
  ps_id ps = pluginId ->
  mayLoad force ps ->
  onlyRecordOf P pluginId s ->
  loadPlugin w pluginId force s = (Ok tt, s') ->
  getPluginComponents pluginId s' = Some (withRegistered P (ps_components ps)) ∧
  getComponentRegistrations pluginId s'
  = getComponentRegistrations pluginId s ++ registrationsOf w pluginId P ∧
  (∀ k, k ≠ pluginId ->
        getPluginComponents k s' = getPluginComponents k s ∧
        getComponentRegistrations k s' = getComponentRegistrations k s).
Proof.
  intros Hget Hpl Hid Hguard Honly Hrun.
  assert (Hsame : same_plugin P ps = true).
  { unfold same_plugin. rewrite Hpl. by apply bool_decide_eq_true_2. }
  destruct (onlyRecordOf_table P pluginId (plugins s) ps Honly Hget Hsame) as [Hfind Hupd].
  destruct (loadPlugin_ok_shape _ _ _ _ _ _ _ Hrun Hget Hpl Hguard)
    as (psf & ps1 & Hf & Hg1 & ->).
  rewrite Hfind in Hf. injection Hf as <-. rewrite Hid in *.
  assert (Htbl : ∀ f r, same_plugin P r = true ->
            update_found P f (alist_set pluginId r (plugins s))
            = alist_set pluginId (set_ps_components f r) (plugins s)).
  { intros f r Hr.
    destruct (onlyRecordOf_table P pluginId (alist_set pluginId r (plugins s)) r)
      as [_ Hu]; [| by rewrite alist_get_set, decide_True | done |].
    - intros k r' Hin Hr'. destruct (decide (k = pluginId)) as [|Hne]; [done|].
      apply (Honly k r'); [|done].
      clear -Hin Hne. induction (plugins s) as [|[k0 r0] l IH]; simpl in Hin.
      + apply list_elem_of_singleton in Hin. congruence.
      + destruct (decide (k0 = pluginId)) as [->|Hne0].
        * apply elem_of_cons in Hin as [Heq|Hin]; [congruence|].
          by apply list_elem_of_further.
        * apply elem_of_cons in Hin as [Heq|Hin]; [rewrite Heq; apply list_elem_of_here|].
          apply list_elem_of_further. by apply IH.
    - by rewrite Hu, alist_set_set. }
  simpl in Hg1. rewrite Hupd in Hg1. rewrite !Htbl in Hg1 by done.
  rewrite alist_get_set, decide_True in Hg1 by done. injection Hg1 as <-.
  split; [|split].
  - unfold getPluginComponents, getPlugin. simpl.
    by rewrite alist_get_set, decide_True.
  - unfold getComponentRegistrations. simpl.
    rewrite !trackAll_lookup. unfold registrationsOf. by rewrite <- !app_assoc.
  - intros k Hne. split.
    + unfold getPluginComponents, getPlugin. simpl.
      rewrite alist_get_set, decide_False by done.
      rewrite Hupd, !Htbl by done. by rewrite alist_get_set, decide_False.
    + unfold getComponentRegistrations. simpl.
      by rewrite !trackAll_lookup_ne.
Qed.

Lemma onlyRecordOf_pRegistered : onlyRecordOf pluginP "uuid:p" pRegistered.
Proof.
  intros k r Hin _. vm_compute in Hin.
  apply list_elem_of_singleton in Hin. by injection Hin as -> _.
Qed.

Lemma load_records_components_and_audit_trail_witness :
  cr_componentName <$> getComponentRegistrations "uuid:p" pLoaded = ["X"; "Y"; "E"; "SVC"] ∧
  cr_componentType <$> getComponentRegistrations "uuid:p" pLoaded
  = [CTaction; CTaction; CTeventHandler; CTservice].
Proof.
  destruct (load_records_components_and_audit_trail plainWorld "uuid:p" false
              pRegistered pLoaded _ pluginP
              ltac:(vm_compute; reflexivity) ltac:(reflexivity) ltac:(reflexivity)
              ltac:(right; by left) onlyRecordOf_pRegistered
              ltac:(vm_compute; reflexivity))
    as (_ & Haudit & _).
  rewrite Haudit. split; vm_compute; reflexivity.
Defined.

(** ** Unloading *)

(** How [unloadPlugin] can return normally: the record was not [LOADED]
    and nothing happened, or the plugin was unregistered and its record is
    now [UNLOADED]. *)
Lemma unloadPlugin_ok_inv w pluginId s s' :
  unloadPlugin w pluginId s = (Ok tt, s') ->
  (∃ ps, getPlugin pluginId s = Some ps ∧ ps_status ps ≠ LOADED ∧ s' = s) ∨
  (∃ ps P psf ps1,
     getPlugin pluginId s = Some ps ∧ ps_status ps = LOADED ∧
     isOriginal ps s = false ∧ ps_plugin ps = Some P ∧
     findPluginState P (plugins s) = Some psf ∧
     alist_get pluginId (plugins (afterUnregistration P (ps_id psf) s)) = Some ps1 ∧
     s' = set_runtime (set_rt_emitted (fun l => l ++ [(PLUGIN_UNLOADED, pluginId)]))
            (set_plugins (alist_set pluginId (unloaded_update (w_now w) ps1))
               (afterUnregistration P (ps_id psf) s))).
Proof.
  intros H. pose proof H as H0.
  unfold unloadPlugin in H. rewrite run_bind in H. unfold gets at 1 in H.
  destruct (getPlugin pluginId s) as [ps|] eqn:Hget; [|discriminate].
  destruct (decide (ps_status ps = LOADED)) as [Hst|Hst].
  2:{ rewrite bool_decide_eq_true_2 in H by done. injection H as <-. left. eauto. }
  rewrite bool_decide_eq_false_2 in H by (by intros Hn; apply Hn).
  rewrite run_bind in H. unfold gets at 1 in H.
  destruct (isOriginal ps s) eqn:Horig; [discriminate|].
  destruct (ps_plugin ps) as [P|] eqn:Hpl.
  - destruct (unloadPlugin_run w _ _ _ _ Hget Hst Horig Hpl)
      as (psf & ps1 & Hf & Hg1 & _ & Hrun).
    rewrite Hrun in H0. injection H0 as <-. right. exists ps, P, psf, ps1. done.
  - unfold try_catch, unloadPlugin_try in H. rewrite Hpl in H.
    unfold throw at 1, unloadPlugin_catch in H. rewrite run_bind in H.
    destruct (updatePluginState _ _ _) as [[[]|e] s1]; discriminate.
Qed.

(** Unloading is idempotent: once [unloadPlugin] has returned normally, a
    second [unloadPlugin] of the same id returns normally and changes
    nothing, the record not being [LOADED]. *)
Theorem unloadPlugin_twice_is_noop
    (w w' : World) (pluginId : string) (s s' : State) :
  unloadPlugin w pluginId s = (Ok tt, s') ->
  unloadPlugin w' pluginId s' = (Ok tt, s') ∧
  holds_at pluginId (fun ps => ps_status ps ≠ LOADED) s'.
Proof.
  intros H.
  assert (Hst : holds_at pluginId (fun ps => ps_status ps ≠ LOADED) s').
  { apply unloadPlugin_ok_inv in H
      as [(ps & Hget & Hst & ->) | (ps & P & psf & ps1 & _ & _ & _ & _ & _ & _ & ->)].
    - by exists ps.
    - exists (unloaded_update (w_now w) ps1). split; [|done].
      simpl. by rewrite alist_get_set, decide_True. }
  split; [|done]. destruct Hst as (ps' & Hget' & Hst').
  unfold unloadPlugin. rewrite run_bind. unfold gets at 1, getPlugin.
  rewrite Hget'. by rewrite bool_decide_eq_true_2.
Qed.

Lemma unloadPlugin_twice_is_noop_witness :
  unloadPlugin plainWorld "uuid:p" (unloadPlugin plainWorld "uuid:p" pLoaded).2
  = (Ok tt, (unloadPlugin plainWorld "uuid:p" pLoaded).2).
Proof.
  apply (unloadPlugin_twice_is_noop plainWorld plainWorld "uuid:p" pLoaded).
  vm_compute. reflexivity.
Defined.

Lemma stopDeclared_lookup_any orig scs : ∀ m ty,
  stopDeclared orig m scs !! ty =
  if decide (ty ∈ serviceType <$> scs ∧ ty ∉ orig) then None else m !! ty.
Proof.
  induction scs as [|sc scs IH]; intros m ty.
  - cbn [stopDeclared].
    destruct (decide (ty ∈ serviceType <$> [] ∧ ty ∉ orig)) as [[Hin _]|_]; [|done].
    by apply elem_of_nil in Hin.
  - cbn [stopDeclared]. rewrite IH, fmap_cons.
    assert (Hiff : (ty ∈ serviceType sc :: (serviceType <$> scs) ∧ ty ∉ orig) ↔
                   ((ty = serviceType sc ∧ ty ∉ orig) ∨
                    (ty ∈ serviceType <$> scs ∧ ty ∉ orig))).
    { rewrite elem_of_cons. tauto. }
    destruct (decide (ty ∈ serviceType <$> scs ∧ ty ∉ orig)) as [Hy|Hn];
      destruct (decide (ty ∈ serviceType sc :: (serviceType <$> scs) ∧ ty ∉ orig))
        as [Hy'|Hn']; try done.
    + destruct Hn'. apply Hiff. by right.
    + apply Hiff in Hy' as [[-> Hno]|Hy']; [|done].
      rewrite decide_False by done. by rewrite lookup_delete_eq.
    + destruct (decide (serviceType sc ∈ orig)) as [Ho|Ho]; [done|].
      rewrite lookup_delete_ne; [done|]. intros <-. apply Hn'. apply Hiff. by left.
Qed.

(** Unloading a loaded, non-original plugin removes from the host's
    service table the entry of every service type the plugin declares that
    is not an original type, whether or not the instance's [stop] rejects,
    and leaves every other entry, those of original types included, as it
    was. *)
Theorem unload_removes_services_whatever_stop_does
    (w : World) (pluginId : string) (s : State) (ps : PluginState) (P : Plugin) :
  getPlugin pluginId s = Some ps ->
  ps_status ps = LOADED ->
  isOriginal ps s = false ->
  ps_plugin ps = Some P ->
  ∃ s',
    unloadPlugin w pluginId s = (Ok tt, s') ∧
    ∀ ty, rt_services (runtime s') !! ty =
          if decide (ty ∈ serviceType <$> services P ∧ ty ∉ originalServices s)
          then None else rt_services (runtime s) !! ty.
Proof.
  intros Hget Hst Horig Hpl.
  destruct (unloadPlugin_run w _ _ _ _ Hget Hst Horig Hpl)
    as (psf & ps1 & Hf & Hg1 & _ & Hrun).
  eexists. split; [exact Hrun|]. intros ty. simpl.
  apply stopDeclared_lookup_any.
Qed.

Lemma unload_removes_services_whatever_stop_does_witness :
  rt_services (runtime sLoaded) !! "STUB"
  = Some {| svc_ref := 31%nat; stop := Some "stop failed" |} ∧
  ∃ s', unloadPlugin plainWorld "uuid:s" sLoaded = (Ok tt, s') ∧
        rt_services (runtime s') !! "STUB" = None.
Proof.
  split; [vm_compute; reflexivity|].
  destruct (unload_removes_services_whatever_stop_does plainWorld "uuid:s" sLoaded
              _ pluginS ltac:(vm_compute; reflexivity) ltac:(reflexivity)
              ltac:(vm_compute; reflexivity) ltac:(reflexivity))
    as (s' & Hrun & Hsvc).
  exists s'. split; [exact Hrun|]. rewrite Hsvc. vm_compute. reflexivity.
Defined.

(** ** Construction *)

Lemma initializeRegistry_elements w originals k ps :
  (k, ps) ∈ initializeRegistry w originals ->
  ∃ p, p ∈ originals ∧ k = w_uuid w (plugin_name p) ∧ ps = initialState w p.
Proof.
  unfold initializeRegistry.
  induction originals as [|p l IH] using rev_ind; [by intros ?%elem_of_nil|].
  rewrite foldl_app. simpl.
  set (tbl := foldl _ [] l) in *. clearbody tbl.
  intros Hin.
  assert (Hcase : (k, ps) ∈ tbl ∨
                  (k = w_uuid w (plugin_name p) ∧ ps = initialState w p)).
  { clear IH. induction tbl as [|[k0 r0] tbl IHt]; simpl in Hin.
    - apply list_elem_of_singleton in Hin. injection Hin as -> ->. by right.
    - destruct (decide (k0 = w_uuid w (plugin_name p))) as [->|Hne].
      + apply elem_of_cons in Hin as [Heq|Hin].
        * injection Heq as -> ->. by right.
        * left. by apply list_elem_of_further.
      + apply elem_of_cons in Hin as [Heq|Hin].
        * left. rewrite Heq. apply list_elem_of_here.
        * destruct (IHt Hin) as [Ht|Hr]; [left; by apply list_elem_of_further | by right]. }
  destruct Hcase as [Ht | [-> ->]].
  - destruct (IH Ht) as (q & Hq & Hk & Hps). exists q.
    split; [apply elem_of_app; by left | done].
  - exists p. split; [apply elem_of_app; right; apply list_elem_of_here | done].
Qed.

(** A newly constructed manager: every record of its table is the [LOADED]
    record of a plugin the host held, and counts as original; every such
    plugin has a record; so [getLoadedPlugins] returns the whole table.  The
    original names are exactly the names of the host's actions, providers and
    evaluators and the types of its services at that moment.  Nothing is
    installed, no registration is in the audit trail, and the host is
    untouched. *)
Theorem construct_records_the_host_as_original
    (w : World) (rt : Runtime) (configDirectory : option string)
    (cache : option RegistryCache) :
  let s := construct w rt configDirectory cache in
  (∀ ps, ps ∈ getAllPlugins s ->
         ps_status ps = LOADED ∧ isOriginal ps s = true ∧
         ∃ p, p ∈ rt_plugins rt ∧ ps = initialState w p) ∧
  (∀ p, p ∈ rt_plugins rt -> is_Some (getPlugin (w_uuid w (plugin_name p)) s)) ∧
  getLoadedPlugins s = getAllPlugins s ∧
  (∀ k n, n ∈ originalNames k s ↔ n ∈ names (hostList k rt)) ∧
  (∀ ty, ty ∈ originalServices s ↔ is_Some (rt_services rt !! ty)) ∧
  (∀ k, getComponentRegistrations k s = []) ∧
  listInstalledPlugins s = [] ∧
  runtime s = rt.
Proof.
  simpl.
  assert (Hall : ∀ ps, ps ∈ getAllPlugins (construct w rt configDirectory cache) ->
            ps_status ps = LOADED ∧
            isOriginal ps (construct w rt configDirectory cache) = true ∧
            ∃ p, p ∈ rt_plugins rt ∧ ps = initialState w p).
  { intros ps Hin. unfold getAllPlugins in Hin. simpl in Hin.
    apply list_elem_of_fmap in Hin as ([k r] & -> & Hin).
    apply initializeRegistry_elements in Hin as (p & Hp & _ & ->).
    split; [done|]. split; [|by exists p].
    unfold isOriginal. simpl. apply existsb_exists. exists p.
    split; [by apply list_elem_of_In | by apply bool_decide_eq_true_2]. }
  split; [exact Hall|]. split.
  { intros p Hp.
    destruct (construct_originals_loaded w rt configDirectory cache p Hp)
      as (ps & Hget & _). by exists ps. }
  split.
  { unfold getLoadedPlugins. apply filter_keeps_all. intros ps Hin.
    by destruct (Hall ps Hin). }
  split.
  { intros k n. destruct k; simpl; apply elem_of_list_to_set. }
  split; [intros ty; apply elem_of_dom|].
  split; [intros k; unfold getComponentRegistrations; simpl; by rewrite lookup_empty|].
  split; [|done]. unfold listInstalledPlugins. simpl. by rewrite map_to_list_empty.
Qed.

(** ** Invariants of the service *)



Lemma alist_get_elem {V} k (v : V) l : alist_get k l = Some v -> (k, v) ∈ l.
Proof.
  induction l as [|[k0 v0] l IH]; simpl; [done|].
  destruct (decide (k0 = k)) as [->|Hne].
  - intros [= ->]. apply list_elem_of_here.
  - intros H. apply list_elem_of_further. by apply IH.
Qed.

(** [I] is an invariant of the state and [U] bounds the updates of a
    record: those the service makes itself and those a caller passes to
    [updatePluginState]. *)
Section Invariant.
Context (I : State -> Prop) (U : (PluginState -> PluginState) -> Prop).
Hypothesis U_internal : ∀ u, keepsIdentity u -> U u.
Hypothesis I_emit : ∀ s f, I s -> I (set_runtime (set_rt_emitted f) s).
Hypothesis I_register :
  ∀ s k c, I s -> I (set_runtime (set_hostList k (fun l => l ++ [c])) s).
Hypothesis I_event :
  ∀ s e h, I s -> I (set_runtime (set_rt_events (addHandler e h)) s).
Hypothesis I_service :
  ∀ s sc svc, I s -> start sc = inr svc ->
              I (set_runtime (set_rt_services <[serviceType sc := svc]>) s).
Hypothesis I_activate :
  ∀ s P, I s -> I (set_runtime (set_rt_plugins (fun l => l ++ [P])) s).
Hypothesis I_components : ∀ s P f, I s -> I (set_plugins (update_found P f) s).
Hypothesis I_update :
  ∀ s id u ps, I s -> alist_get id (plugins s) = Some ps -> U u ->
               I (set_plugins (alist_set id (u ps)) s).
Hypothesis I_new :
  ∀ s k r P, I s -> ps_id r = k -> ps_plugin r = Some P -> ps_name r = plugin_name P ->
             I (set_plugins (alist_set k r) s).
Hypothesis I_audit : ∀ s f, I s -> I (set_componentRegistry f s).
Hypothesis I_unregister :
  ∀ s k n, I s -> n ∉ originalNames k s ->
           I (set_runtime (set_hostList k (remove_first (named n))) s).
Hypothesis I_unevent :
  ∀ s e h, I s -> I (set_runtime (set_rt_events (dropHandler e h)) s).
Hypothesis I_unservice :
  ∀ s ty, I s -> ty ∉ originalServices s ->
          I (set_runtime (set_rt_services (delete ty)) s).
Hypothesis I_deactivate :
  ∀ s n, I s -> I (set_runtime (set_rt_plugins (remove_first (plugin_named n))) s).
Hypothesis I_installed : ∀ s f, I s -> I (set_installedPlugins f s).
Hypothesis I_cache : ∀ s c, I s -> I (set_registryCache c s).

Lemma inv_updatePluginState id u :
  U u -> preserves I (updatePluginState id u).
Proof.
  intros Hu. unfold updatePluginState. apply preserves_modify. intros s Hs.
  destruct (alist_get id (plugins s)) as [ps|] eqn:Hget; [|done].
  by apply (I_update s id u ps).
Qed.

Lemma inv_registerPlugin w P : preserves I (registerPlugin w P).
Proof.
  unfold registerPlugin, emitEvent. cbv zeta.
  repeat preserves_step; auto.
  intros s Hs. by eapply I_new.
Qed.

Lemma inv_registerServices w P pluginId : preserves I (registerServices w P pluginId).
Proof.
  unfold registerServices. apply preserves_forM. intros sc.
  apply preserves_try_catch; [|intros ?; apply preserves_ret].
  unfold startService, trackComponentRegistration, withComponents.
  destruct (start sc) as [m|svc] eqn:Est.
  - intros s r s' Hs H. cbv [mbind M_bind throw] in H. by injection H as <- <-.
  - assert (Hk : ∀ {B} (k : Service -> M B),
               preserves I (k svc) -> preserves I (mret svc ≫= k)).
    { intros B k Hk s r s' Hs H. by apply (Hk s r s' Hs). }
    apply Hk. repeat preserves_step; auto.
Qed.

Lemma inv_registerPluginComponents w P : preserves I (registerPluginComponents w P).
Proof.
  unfold registerPluginComponents, registerActions, registerProviders,
    registerEvaluators, registerComponents, registerComponent, registerAction,
    registerProvider, registerEvaluator, registerEvents,
    registerEvent, hostRegister, trackComponentRegistration,
    withComponents.
  repeat first [apply inv_registerServices | preserves_step]; auto.
  - intros s Hs. apply (I_register s KAction). done.
  - intros s Hs. apply (I_register s KProvider). done.
  - intros s Hs. apply (I_register s KEvaluator). done.
Qed.

Lemma inv_unregisterComponents k P : preserves I (unregisterComponents k P).
Proof.
  unfold unregisterComponents. apply preserves_forM. intros c s r s' Hs.
  rewrite run_bind. unfold gets at 1.
  destruct (decide (c_name c ∈ originalNames k s)) as [Hin|Hnin].
  { by intros [= <- <-]. }
  destruct (existsb (named (c_name c)) (hostList k (runtime s))).
  - unfold withComponents, modify. rewrite run_bind. intros [= <- <-].
    apply I_components. by apply I_unregister.
  - by intros [= <- <-].
Qed.

Lemma inv_unregisterServices P : preserves I (unregisterServices P).
Proof.
  unfold unregisterServices. apply preserves_forM. intros sc s r s' Hs.
  rewrite run_bind. unfold gets at 1.
  destruct (decide (serviceType sc ∈ originalServices s)) as [Hin|Hnin].
  { by intros [= <- <-]. }
  destruct (rt_services (runtime s) !! serviceType sc) as [svc|].
  - rewrite run_bind.
    assert (Hstop : try_catch (stopService svc) (fun _ => mret tt) s = (Ok tt, s)).
    { unfold try_catch, stopService. by destruct (stop svc). }
    rewrite Hstop. unfold withComponents, modify. rewrite run_bind.
    intros [= <- <-]. apply I_components. by apply I_unservice.
  - by intros [= <- <-].
Qed.

Lemma inv_unregisterPluginComponents P : preserves I (unregisterPluginComponents P).
Proof.
  unfold unregisterPluginComponents, unregisterActions, unregisterProviders,
    unregisterEvaluators, unregisterEvents, unregisterEvent, withComponents.
  repeat first [ apply inv_unregisterComponents | apply inv_unregisterServices
               | preserves_step ]; auto.
Qed.

Lemma keepsIdentity_loaded now : keepsIdentity (loaded_update now).
Proof. by intros ps. Qed.

Lemma keepsIdentity_unloaded now : keepsIdentity (unloaded_update now).
Proof. by intros ps. Qed.

Lemma keepsIdentity_error msg : keepsIdentity (error_update msg).
Proof. by intros ps. Qed.

Lemma inv_loadPlugin w pluginId force : preserves I (loadPlugin w pluginId force).
Proof.
  unfold loadPlugin, loadPlugin_try, loadPlugin_catch, emitEvent, runInit.
  repeat first [ apply inv_registerPluginComponents
               | apply inv_updatePluginState; apply U_internal;
                   first [ apply keepsIdentity_loaded | apply keepsIdentity_unloaded
                         | apply keepsIdentity_error ]
               | preserves_step ]; auto.
Qed.

Lemma inv_unloadPlugin w pluginId : preserves I (unloadPlugin w pluginId).
Proof.
  unfold unloadPlugin, unloadPlugin_try, unloadPlugin_catch, emitEvent.
  repeat first [ apply inv_unregisterPluginComponents
               | apply inv_updatePluginState; apply U_internal;
                   first [ apply keepsIdentity_loaded | apply keepsIdentity_unloaded
                         | apply keepsIdentity_error ]
               | preserves_step ]; auto.
Qed.

Lemma inv_loadInstalledPlugin w pluginName : preserves I (loadInstalledPlugin w pluginName).
Proof.
  unfold loadInstalledPlugin, loadInstalledPlugin_try, loadInstalledPlugin_catch,
    loadPluginModule.
  repeat first [ apply inv_registerPlugin | apply inv_loadPlugin
               | preserves_step ]; auto.
Qed.

Lemma inv_call w c s : updatesWithin U c -> I s -> I (call w c s).
Proof.
  intros Hu Hs. destruct c; simpl.
  - eapply inv_registerPlugin; [exact Hs | apply surjective_pairing].
  - eapply inv_loadPlugin; [exact Hs | apply surjective_pairing].
  - eapply inv_unloadPlugin; [exact Hs | apply surjective_pairing].
  - eapply (preserves_install w I); [by auto | by auto | exact Hs | apply surjective_pairing].
  - eapply inv_loadInstalledPlugin; [exact Hs | apply surjective_pairing].
  - eapply (preserves_getLocalRegistryIndex w I); [by auto | exact Hs | apply surjective_pairing].
  - by apply I_cache.
  - exact (inv_updatePluginState id _ Hu s (Ok tt) _ Hs eq_refl).
Qed.

Lemma inv_session cs :
  Forall (fun wc => updatesWithin U wc.2) cs -> ∀ s, I s -> I (session cs s).
Proof.
  induction 1 as [|[w c] cs Hc _ IH]; intros s Hs; [done|].
  simpl. apply IH. by apply inv_call.
Qed.

End Invariant.

(** ** Original components are never removed *)



Lemma hostList_other_fields k rt f :
  hostList k (set_rt_emitted f rt) = hostList k rt.
Proof. by destruct k. Qed.




(** ** The table stays well formed, and what can be thrown *)

















(** ** Loading an installed plugin *)

Lemma lifecycle_keeps_installed w (X : gmap string DynamicPluginInfo) P pluginId force :
  preserves (fun x => installedPlugins x = X) (registerPlugin w P) ∧
  preserves (fun x => installedPlugins x = X) (loadPlugin w pluginId force).
Proof.
  split.
  - by apply inv_registerPlugin.
  - by apply (inv_loadPlugin _ keepsIdentity).
Qed.

Lemma holds_plugin_loadPlugin w id P pluginId force :
  preserves (holds_at id (fun x => ps_plugin x = Some P)) (loadPlugin w pluginId force).
Proof.
  apply (inv_loadPlugin _ keepsIdentity); try (by intros; assumption).
  - intros s P' f H. unfold holds_at in *. simpl.
    apply alist_get_update_found_ignoring; [by intros ? ? ? | done].
  - intros s id' u ps (ps0 & Hg0 & Hp0) Hget Hu. unfold holds_at. simpl.
    rewrite alist_get_set. destruct (decide (id' = id)) as [->|Hne]; [|by exists ps0].
    exists (u ps). split; [done|]. destruct (Hu ps) as (_ & _ & ->). congruence.
Qed.

Lemma loadInstalledPlugin_try_throws w pluginName info s e s1 :
  loadInstalledPlugin_try w pluginName info s = (Throw e, s1) ->
  installedPlugins s1 = installedPlugins s ∧
  (w_import w (dpi_path info) = None -> e = ModuleLoadFailed ∧ s1 = s).
Proof.
  unfold loadInstalledPlugin_try, loadPluginModule. rewrite run_bind.
  unfold mret at 1, M_ret at 1. cbv beta iota.
  destruct (w_import w (dpi_path info)) as [P|].
  2:{ intros [= <- <-]. done. }
  intros H. split; [|done].
  apply bind_inv in H as [(e0 & H & _) | (pluginId & s2 & H2 & H)].
  { by apply (proj1 (lifecycle_keeps_installed w _ P EmptyString false) _ _ _ eq_refl H). }
  pose proof (proj1 (lifecycle_keeps_installed w _ P EmptyString false) _ _ _ eq_refl H2) as I2.
  apply bind_inv in H as [(e0 & H & _) | ([] & s3 & H3 & H)].
  { rewrite <- I2.
    by apply (proj2 (lifecycle_keeps_installed w _ P pluginId false) _ _ _ eq_refl H). }
  apply bind_inv in H as [(e0 & H & _) | ([] & s4 & H4 & H)]; discriminate.
Qed.

Lemma loadInstalledPlugin_catch_run pluginName e s :
  loadInstalledPlugin_catch pluginName e s =
  match messageProperty e with
  | Some details =>
      (Throw e,
       set_installedPlugins (alter (set_dpi_errorDetails details) pluginName)
         (set_installedPlugins (alter (set_dpi_status error None) pluginName) s))
  | None =>
      (Throw (cannotReadMessage e),
       set_installedPlugins (alter (set_dpi_status error None) pluginName) s)
  end.
Proof.
  unfold loadInstalledPlugin_catch. rewrite run_bind. unfold modify at 1.
  by destruct (messageProperty e).
Qed.

(** Setting the status and then the details is one update of the record. *)
Lemma mark_error pluginName m s :
  set_installedPlugins (alter (set_dpi_errorDetails (Some m)) pluginName)
    (set_installedPlugins (alter (set_dpi_status error None) pluginName) s)
  = set_installedPlugins (alter (set_dpi_status error (Some m)) pluginName) s.
Proof.
  unfold set_installedPlugins. simpl. f_equal.
  rewrite alter_alter_eq. by apply alter_ext.
Qed.

Lemma messageProperty_own e :
  ¬ isForeign e -> messageProperty e = Some (Some (message e)).
Proof. intros H. destruct e; try done. destruct H. by eexists. Qed.

Lemma messageProperty_None e :
  messageProperty e = None -> e = Foreign ThrownUndefined ∨ e = Foreign ThrownNull.
Proof. destruct e as [| | | | | | | | | | | | | | |[]]; try done; auto. Qed.

(** When [loadInstalledPlugin] throws past its two checks, the installed
    record is left with status [error], its fields other than [status] and
    [errorDetails] unchanged, and the other installed records as they were.
    [errorDetails] is the [message] member of the value the caller gets, so
    the message of every error the service raises itself; save that when the
    plugin's [init] hook threw [undefined] or [null], reading that member
    throws, the caller gets that [TypeError] instead and [errorDetails] is
    left as it was.  When the module yields no valid plugin export, the
    error is [ModuleLoadFailed] and nothing else has changed. *)
Theorem loadInstalledPlugin_failure_marks_error
    (w : World) (pluginName : string) (s s' : State) (info : DynamicPluginInfo)
    (e : Error) :
  getInstalledPluginInfo pluginName s = Some info ->
  dpi_status info ≠ needs_configuration ->
  loadInstalledPlugin w pluginName s = (Throw e, s') ->
  (∃ details,
     getInstalledPluginInfo pluginName s'
     = Some (set_dpi_errorDetails details (set_dpi_status error None info)) ∧
     (messageProperty e = Some details ∨
      details = dpi_errorDetails info ∧
      (e = cannotReadMessage (Foreign ThrownUndefined) ∨
       e = cannotReadMessage (Foreign ThrownNull)))) ∧
  (∀ q, q ≠ pluginName -> getInstalledPluginInfo q s' = getInstalledPluginInfo q s) ∧
  (¬ isForeign e ->
   getInstalledPluginInfo pluginName s'
   = Some (set_dpi_status error (Some (message e)) info)) ∧
  (w_import w (dpi_path info) = None ->
   e = ModuleLoadFailed ∧
   s' = set_installedPlugins
          (alter (set_dpi_status error (Some (message ModuleLoadFailed))) pluginName) s).
Proof.
  intros Hget Hst H.
  unfold loadInstalledPlugin in H. rewrite run_bind in H. unfold gets at 1 in H.
  rewrite Hget in H. rewrite bool_decide_eq_false_2 in H by done.
  unfold try_catch in H.
  destruct (loadInstalledPlugin_try w pluginName info s) as [[id|e0] s1] eqn:Htry;
    [discriminate|].
  apply loadInstalledPlugin_try_throws in Htry as [Hinst Hnone].
  rewrite loadInstalledPlugin_catch_run in H.
  unfold getInstalledPluginInfo in *.
  destruct (messageProperty e0) as [details|] eqn:Hm.
  - injection H as <- <-. simpl. rewrite Hinst.
    split; [|split; [|split]].
    + exists details. rewrite !lookup_alter_eq, Hget. split; [done | by left].
    + intros q Hq. by rewrite !lookup_alter_ne.
    + intros Hown. rewrite (messageProperty_own _ Hown) in Hm. injection Hm as <-.
      by rewrite !lookup_alter_eq, Hget.
    + intros Himp. destruct (Hnone Himp) as [-> ->]. split; [done|].
      injection Hm as <-. apply mark_error.
  - injection H as <- <-. simpl. rewrite Hinst.
    split; [|split; [|split]].
    + exists (dpi_errorDetails info). rewrite lookup_alter_eq, Hget.
      split; [done|]. right. split; [done|].
      by destruct (messageProperty_None _ Hm) as [-> | ->]; [left | right].
    + intros q Hq. by rewrite lookup_alter_ne.
    + intros Hown. destruct Hown. by eexists.
    + intros Himp. by destruct (Hnone Himp) as [-> _].
Qed.

Lemma loadInstalledPlugin_failure_marks_error_witness :
  (∃ s', loadInstalledPlugin plainWorld "pkg-b" managerWithPkgB
         = (Throw ModuleLoadFailed, s') ∧
         (dpi_status <$> getInstalledPluginInfo "pkg-b" s') = Some error ∧
         (dpi_errorDetails <$> getInstalledPluginInfo "pkg-b" s')
         = Some (Some "Failed to load plugin module")) ∧
  (∃ s', loadInstalledPlugin undefinedWorld "pkg-b" managerWithPkgB
         = (Throw (Foreign "Cannot read properties of undefined (reading 'message')"),
            s') ∧
         (dpi_status <$> getInstalledPluginInfo "pkg-b" s') = Some error ∧
         (dpi_errorDetails <$> getInstalledPluginInfo "pkg-b" s') = Some None).
Proof.
  split.
  - eexists. split; [vm_compute; reflexivity|].
    destruct (loadInstalledPlugin_failure_marks_error plainWorld "pkg-b" managerWithPkgB
                _ pkgB_info ModuleLoadFailed ltac:(vm_compute; reflexivity)
                ltac:(discriminate) ltac:(vm_compute; reflexivity))
      as (_ & _ & Hinfo & _).
    rewrite Hinfo; [split; reflexivity|]. by intros [v Hv].
  - eexists. split; [vm_compute; reflexivity|].
    destruct (loadInstalledPlugin_failure_marks_error undefinedWorld "pkg-b"
                managerWithPkgB _ pkgB_info _ ltac:(vm_compute; reflexivity)
                ltac:(discriminate) ltac:(vm_compute; reflexivity))
      as ((details & Hinfo & Hd) & _).
    rewrite Hinfo. split; [reflexivity|].
    destruct Hd as [Hd | [-> _]]; [|reflexivity].
    vm_compute in Hd. by injection Hd as <-.
Defined.

(** A [loadInstalledPlugin] that returns has imported a plugin object
    from the install path, registered it under the id of its own name,
    loaded it, and set the installed record's status to [loaded].  A second
    call then imports the module again and is refused by [registerPlugin]
    with [AlreadyRegistered]: the installed record flips to [error] although
    the plugin's record is still [LOADED]. *)
Theorem loadInstalledPlugin_loads_only_once
    (w w' : World) (pluginName pluginId : string) (s s' : State)
    (info : DynamicPluginInfo) :
  getInstalledPluginInfo pluginName s = Some info ->
  loadInstalledPlugin w pluginName s = (Ok pluginId, s') ->
  ∃ P,
    w_import w (dpi_path info) = Some P ∧
    pluginId = w_uuid w (plugin_name P) ∧
    holds_at pluginId (fun ps => ps_status ps = LOADED ∧ ps_plugin ps = Some P) s' ∧
    getInstalledPluginInfo pluginName s' = Some (set_dpi_status loaded None info) ∧
    ∀ P', w_import w' (dpi_path info) = Some P' ->
          w_uuid w' (plugin_name P') = pluginId ->
          loadInstalledPlugin w' pluginName s'
          = (Throw (AlreadyRegistered (plugin_name P')),
             set_installedPlugins
               (alter (set_dpi_status error
                         (Some (message (AlreadyRegistered (plugin_name P')))))
                      pluginName) s').
Proof.
  intros Hget H.
  unfold loadInstalledPlugin in H. rewrite run_bind in H. unfold gets at 1 in H.
  rewrite Hget in H.
  destruct (bool_decide (dpi_status info = needs_configuration)) eqn:Hcfg; [discriminate|].
  apply bool_decide_eq_false_1 in Hcfg.
  unfold try_catch in H.
  destruct (loadInstalledPlugin_try w pluginName info s) as [[id|e0] s1] eqn:Htry.
  2:{ rewrite loadInstalledPlugin_catch_run in H. by destruct (messageProperty e0). }
  injection H as -> ->.
  unfold loadInstalledPlugin_try, loadPluginModule in Htry. rewrite run_bind in Htry.
  unfold mret at 1, M_ret at 1 in Htry. cbv beta iota in Htry.
  destruct (w_import w (dpi_path info)) as [P|] eqn:Himp; [|discriminate].
  exists P. split; [done|].
  apply bind_ok_inv in Htry as (id & s2 & H2 & Htry).
  apply bind_ok_inv in Htry as ([] & s3 & H3 & Htry).
  apply bind_ok_inv in Htry as ([] & s4 & H4 & Htry).
  injection Htry as <- <-. unfold modify in H4. injection H4 as <-.
  pose proof (proj1 (lifecycle_keeps_installed w _ P EmptyString false) _ _ _ eq_refl H2) as I2.
  pose proof (proj2 (lifecycle_keeps_installed w _ P id false) _ _ _ I2 H3) as I3.
  assert (Hid : id = w_uuid w (plugin_name P)).
  { unfold registerPlugin in H2. rewrite run_bind in H2. unfold gets at 1 in H2.
    destruct (getPlugin (w_uuid w (plugin_name P)) s); [discriminate|].
    by injection H2 as <- _. }
  apply registerPlugin_ok_inv in H2 as (r & Hrid & Hrst & Hrpl & Hrnm & Hrc & ->).
  assert (Hplug : holds_at id (fun ps => ps_plugin ps = Some P) s3).
  { eapply (holds_plugin_loadPlugin w id P id false); [|exact H3].
    exists r. simpl. by rewrite alist_get_set, decide_True. }
  assert (Hloaded : holds_at id (fun ps => ps_status ps = LOADED ∧ ps_plugin ps = Some P) s3).
  { destruct Hplug as (ps3 & Hg3 & Hpl3).
    eapply loadPlugin_ok_shape in H3 as (psf & ps1 & Hf & Hg1 & Heq);
      [| unfold getPlugin; simpl; by rewrite alist_get_set, decide_True
       | exact Hrpl | right; by left].
    rewrite Heq in Hg3 |- *. clear Heq.
    simpl in Hg3. rewrite alist_get_set, decide_True in Hg3 by done.
    injection Hg3 as <-. exists (loaded_update (w_now w) ps1). simpl.
    by rewrite alist_get_set, decide_True. }
  split; [done|]. split; [exact Hloaded|]. split.
  { unfold getInstalledPluginInfo in *. simpl. rewrite I3.
    by rewrite lookup_alter_eq, Hget. }
  intros P' Himp' Hid'.
  unfold loadInstalledPlugin. rewrite run_bind. unfold gets at 1.
  unfold getInstalledPluginInfo in *. simpl. rewrite I3, lookup_alter_eq, Hget. simpl.
  unfold try_catch, loadInstalledPlugin_try, loadPluginModule. rewrite run_bind.
  unfold mret at 1, M_ret at 1. cbv beta iota. simpl. rewrite Himp'.
  rewrite run_bind. unfold registerPlugin. rewrite run_bind. unfold gets at 1.
  rewrite Hid'. destruct Hloaded as (ps & Hg & _).
  unfold getPlugin. simpl. rewrite Hg. cbv [throw].
  rewrite loadInstalledPlugin_catch_run. cbn [messageProperty]. by rewrite mark_error.
Qed.

Lemma loadInstalledPlugin_loads_only_once_witness :
  ∃ s', loadInstalledPlugin moduleWorld "pkg-b" managerWithPkgB = (Ok "uuid:q", s') ∧
        (loadInstalledPlugin moduleWorld "pkg-b" s').1 = Throw (AlreadyRegistered "q").
Proof.
  eexists. split; [vm_compute; reflexivity|].
  destruct (loadInstalledPlugin_loads_only_once moduleWorld moduleWorld "pkg-b" "uuid:q"
              managerWithPkgB _ pkgB_info ltac:(vm_compute; reflexivity)
              ltac:(vm_compute; reflexivity)) as (P & _ & _ & _ & _ & Hsecond).
  by rewrite (Hsecond pluginQ ltac:(reflexivity) ltac:(reflexivity)).
Defined.

(** ** The search for a plugin export *)

Lemma head_filter_Some {A} (P : A -> Prop) `{!∀ x, Decision (P x)} (l : list A) x :
  head (filter P l) = Some x ->
  ∃ l1 l2, l = l1 ++ x :: l2 ∧ P x ∧ Forall (fun y => ¬ P y) l1.
Proof.
  induction l as [|y l IH]; [done|].
  destruct (decide (P y)) as [Hy|Hy].
  - rewrite filter_cons_True by done. intros [= ->]. by exists [], l.
  - rewrite filter_cons_False by done. intros Hh.
    destruct (IH Hh) as (l1 & l2 & -> & Hx & Hl1).
    exists (y :: l1), l2. split; [done|]. split; [done|]. by constructor.
Qed.

Lemma head_filter_None {A} (P : A -> Prop) `{!∀ x, Decision (P x)} (l : list A) :
  head (filter P l) = None -> Forall (fun y => ¬ P y) l.
Proof.
  induction l as [|y l IH]; [constructor|].
  destruct (decide (P y)) as [Hy|Hy].
  - by rewrite filter_cons_True.
  - rewrite filter_cons_False by done. intros Hh. constructor; [done | by apply IH].
Qed.

(** The export [loadPluginModule] settles on is always one of the module's
    exports and always passes [isValidPlugin]; it is the [default] export
    whenever that one is valid, and otherwise the first valid export in key
    order; and [null] is returned exactly when no export is valid. *)
Theorem findPluginExport_prefers_default_then_first_valid
    (module : list (string * JsValue)) :
  (∀ v, findPluginExport module = Some v ->
        v ∈ exportsOf module ∧ isValidPlugin v = true) ∧
  (∀ d, alist_get "default" module = Some d -> isValidPlugin d = true ->
        findPluginExport module = Some d) ∧
  (∀ v, findPluginExport module = Some v ->
        (∀ d, alist_get "default" module = Some d -> isValidPlugin d = false) ->
        ∃ l1 k l2, module = l1 ++ (k, v) :: l2 ∧
                   Forall (fun kv => isValidPlugin kv.2 = false) l1) ∧
  (findPluginExport module = None ↔
   Forall (fun v => isValidPlugin v = false) (exportsOf module)).
Proof.
  assert (Hvalid_truthy : ∀ v, isValidPlugin v = true -> js_truthy v = true).
  { intros v H. unfold isValidPlugin in H.
    by repeat (apply andb_prop in H as [H _]). }
  assert (Hnot : ∀ v : JsValue, ¬ (isValidPlugin v = true) ↔ isValidPlugin v = false).
  { intros v. by destruct (isValidPlugin v). }
  unfold findPluginExport, exportsOf. split; [|split; [|split]].
  - intros v H.
    destruct (alist_get "default" module) as [d|] eqn:Hd; simpl in H.
    + destruct (js_truthy d && isValidPlugin d) eqn:E.
      * injection H as <-. split.
        -- apply alist_get_elem in Hd. by apply (list_elem_of_fmap_2 snd) in Hd.
        -- by apply andb_prop in E as [_ ?].
      * destruct (head _) as [[k v']|] eqn:Hh; [|discriminate]. injection H as <-.
        apply head_filter_Some in Hh as (l1 & l2 & -> & Hv & _).
        split; [|done]. rewrite fmap_app, fmap_cons. apply elem_of_app. right.
        apply list_elem_of_here.
    + destruct (head _) as [[k v']|] eqn:Hh; [|discriminate]. injection H as <-.
      apply head_filter_Some in Hh as (l1 & l2 & -> & Hv & _).
      split; [|done]. rewrite fmap_app, fmap_cons. apply elem_of_app. right.
      apply list_elem_of_here.
  - intros d Hd Hv. rewrite Hd. simpl. by rewrite Hv, (Hvalid_truthy d Hv).
  - intros v H Hdef.
    assert (Hscan : snd <$> head (filter (fun kv => isValidPlugin kv.2 = true) module)
                    = Some v).
    { destruct (alist_get "default" module) as [d|] eqn:Hd; simpl in H; [|done].
      by rewrite (Hdef d eq_refl), andb_false_r in H. }
    destruct (head _) as [[k v']|] eqn:Hh; [|discriminate]. injection Hscan as <-.
    apply head_filter_Some in Hh as (l1 & l2 & -> & _ & Hl1).
    exists l1, k, l2. split; [done|].
    eapply Forall_impl; [exact Hl1|]. intros kv. apply Hnot.
  - split.
    + intros H.
      assert (Hscan : head (filter (fun kv => isValidPlugin kv.2 = true) module) = None).
      { destruct (js_truthy _ && isValidPlugin _); [discriminate|].
        by destruct (head _). }
      apply head_filter_None in Hscan. apply Forall_fmap.
      eapply Forall_impl; [exact Hscan|]. intros kv. apply Hnot.
    + intros Hall.
      assert (Hdef : isValidPlugin (default JsUndefined (alist_get "default" module))
                     = false).
      { destruct (alist_get "default" module) as [d|] eqn:Hd; [|done]. simpl.
        apply alist_get_elem in Hd. apply (list_elem_of_fmap_2 snd) in Hd.
        by apply (proj1 (Forall_forall _ _) Hall). }
      rewrite Hdef, andb_false_r.
      destruct (head _) as [[k v]|] eqn:Hh; [|done].
      apply head_filter_Some in Hh as (l1 & l2 & -> & Hv & _).
      rewrite fmap_app, fmap_cons in Hall.
      apply Forall_app in Hall as [_ Hall]. apply Forall_cons in Hall as [Hv' _].
      simpl in *. congruence.
Qed.

(** ** Records are never deleted *)

Lemma update_found_keys P f l : (update_found P f l).*1 = l.*1.
Proof.
  induction l as [|[k r] l IH]; [done|]. cbn [update_found].
  destruct (same_plugin P r); rewrite !fmap_cons; [done | by rewrite IH].
Qed.

Lemma alist_set_keys_grow {V} k (v : V) l : ∃ added, (alist_set k v l).*1 = l.*1 ++ added.
Proof.
  rewrite alist_set_keys. destruct (decide (k ∈ l.*1)).
  - exists []. by rewrite app_nil_r.
  - by exists [k].
Qed.

(** No call to the service deletes a record of the plugin table, whatever
    is passed to [updatePluginState]: after any session the table holds the
    ids it held, in the same order, followed by the ids registered since; so
    an id that resolved keeps resolving. *)
Theorem session_never_deletes_a_record (cs : list (World * Call)) (s : State) :
  (∃ added, (plugins (session cs s)).*1 = (plugins s).*1 ++ added) ∧
  (∀ pluginId, is_Some (getPlugin pluginId s) ->
               is_Some (getPlugin pluginId (session cs s))).
Proof.
  assert (Hkeys : ∃ added, (plugins (session cs s)).*1 = (plugins s).*1 ++ added).
  { apply (inv_session (fun x => ∃ added, (plugins x).*1 = (plugins s).*1 ++ added)
                         (fun _ => True));
      try (by intros; assumption); try done.
    - intros x P f (added & Hx). exists added. simpl. by rewrite update_found_keys.
    - intros x id u ps (added & Hx) _ _. simpl.
      destruct (alist_set_keys_grow id (u ps) (plugins x)) as (more & ->).
      exists (added ++ more). by rewrite Hx, app_assoc.
    - intros x k r P (added & Hx) _ _ _. simpl.
      destruct (alist_set_keys_grow k r (plugins x)) as (more & ->).
      exists (added ++ more). by rewrite Hx, app_assoc.
    - apply Forall_forall. intros [w c] _. by destruct c.
    - exists []. by rewrite app_nil_r. }
  split; [exact Hkeys|]. intros pluginId Hsome. destruct Hkeys as (added & Hk).
  unfold getPlugin in *. rewrite <- not_eq_None_Some in *.
  rewrite alist_get_None_keys in *. rewrite Hk, elem_of_app. tauto.
Qed.

(** ** Validating a local bundle *)

(** [installFromLocalBundle] validates before it writes: a path that does
    not exist is refused with [BundleNotFound], a path that is not a
    directory with [UnsupportedBundleFormat], and a directory whose manifest
    reads as [null] with [ManifestUnreadable]; in each case the state is
    unchanged, whatever the file operations and commands of that world would
    have done. *)
Theorem installFromLocalBundle_rejects_bad_bundle
    (w : World) (bundlePath : string) (s : State) :
  (w_pathExists w bundlePath = false ->
   installFromLocalBundle w bundlePath s = (Throw (BundleNotFound bundlePath), s)) ∧
  (w_pathExists w bundlePath = true -> w_isDirectory w bundlePath = false ->
   installFromLocalBundle w bundlePath s = (Throw UnsupportedBundleFormat, s)) ∧
  (w_pathExists w bundlePath = true -> w_isDirectory w bundlePath = true ->
   w_readJson w (path_join bundlePath "package.json") = ReadNull ->
   installFromLocalBundle w bundlePath s
   = (Throw (ManifestUnreadable (path_join bundlePath "package.json")), s)).
Proof.
  unfold installFromLocalBundle. rewrite try_catch_rethrow.
  split; [|split].
  - by intros ->.
  - by intros -> ->.
  - intros -> -> Hj. simpl. rewrite run_bind. unfold parsePluginMetadata. by rewrite Hj.
Qed.

Lemma installFromLocalBundle_rejects_bad_bundle_witness :
  let s := construct bundleWorld emptyRuntime None None in
  installFromLocalBundle bundleWorld "/missing" s = (Throw (BundleNotFound "/missing"), s) ∧
  installFromLocalBundle bundleWorld "/tmp/plugin.tgz" s = (Throw UnsupportedBundleFormat, s) ∧
  installFromLocalBundle bundleWorld "/tmp/empty" s
  = (Throw (ManifestUnreadable "/tmp/empty/package.json"), s).
Proof.
  intros s. split; [|split].
  - apply (proj1 (installFromLocalBundle_rejects_bad_bundle bundleWorld "/missing" s)).
    reflexivity.
  - apply (proj1 (proj2 (installFromLocalBundle_rejects_bad_bundle
                           bundleWorld "/tmp/plugin.tgz" s))); reflexivity.
  - apply (proj2 (proj2 (installFromLocalBundle_rejects_bad_bundle
                           bundleWorld "/tmp/empty" s))); reflexivity.
Defined.

(** ** A load replaces the instance of an original service *)

Lemma installServices_lookup_last l : ∀ m ty svc,
  NoDup l.*1 -> (ty, svc) ∈ l -> installServices l m !! ty = Some svc.
Proof.
  unfold installServices.
  induction l as [|[t v] l IH]; intros m ty svc Hnd Hin; [by apply elem_of_nil in Hin|].
  rewrite fmap_cons in Hnd. apply NoDup_cons in Hnd as [Hnotin Hnd].
  cbn [foldl fst snd]. apply elem_of_cons in Hin as [[= -> ->]|Hin].
  - fold (installServices l (<[t:=v]> m)).
    rewrite installServices_lookup_other by done. apply lookup_insert_eq.
  - by apply IH.
Qed.

Lemma started_keys scs : (started scs).*1 `sublist_of` serviceType <$> scs.
Proof.
  induction scs as [|sc scs IH]; [constructor|].
  unfold started. cbn [omap list_omap]. destruct (start sc) as [m|svc]; rewrite fmap_cons.
  - by apply sublist_cons.
  - cbn [fmap list_fmap fst]. by apply sublist_skip.
Qed.

Lemma elem_of_started scs sc svc :
  sc ∈ scs -> start sc = inr svc -> (serviceType sc, svc) ∈ started scs.
Proof.
  intros Hin Hst. unfold started. apply list_elem_of_omap. exists sc.
  split; [done|]. by rewrite Hst.
Qed.

Lemma holds_identity_loadPlugin w id P n pluginId force :
  preserves (holds_at id (fun x => ps_plugin x = Some P ∧ ps_name x = n))
            (loadPlugin w pluginId force).
Proof.
  apply (inv_loadPlugin _ keepsIdentity); try (by intros; assumption).
  - intros s P' f H. unfold holds_at in *. simpl.
    apply alist_get_update_found_ignoring; [by intros ? ? ? | done].
  - intros s id' u ps (ps0 & Hg0 & Hp0 & Hn0) Hget Hu. unfold holds_at. simpl.
    rewrite alist_get_set. destruct (decide (id' = id)) as [->|Hne]; [|by exists ps0].
    exists (u ps). split; [done|]. destruct (Hu ps) as (_ & -> & ->).
    split; congruence.
Qed.

(** A load puts the instance a service class's [start] returned in the
    host's table under the class's type, over whatever instance was there,
    that of an original type included.  The unload that follows skips the
    original types, so it neither removes that instance nor brings the
    original one back. *)
Theorem load_replaces_the_instance_of_an_original_service
    (w w' : World) (pluginId : string) (force : bool) (s : State) (ps : PluginState)
    (P : Plugin) (sc : ServiceClass) (svc : Service) :
  getPlugin pluginId s = Some ps ->
  ps_plugin ps = Some P ->
  mayLoad force ps ->
  isOriginal ps s = false ->
  (∀ m, init P ≠ Some (InitThrows m)) ->
  hostAccepts w P = true ->
  NoDup (serviceType <$> services P) ->
  sc ∈ services P ->
  start sc = inr svc ->
  ∃ s1,
    loadPlugin w pluginId force s = (Ok tt, s1) ∧
    rt_services (runtime s1) !! serviceType sc = Some svc ∧
    (serviceType sc ∈ originalServices s ->
     ∃ s2, unloadPlugin w' pluginId s1 = (Ok tt, s2) ∧
           rt_services (runtime s2) !! serviceType sc = Some svc).
Proof.
  intros Hget Hpl Hguard Horig Hinit Hacc Hnd Hin Hst.
  destruct (findPluginState_exists P _ _ _ Hget Hpl) as (psf & Hf).
  destruct (loadPlugin_run w _ _ _ _ _ _ Hget Hpl Hguard Hf Hinit Hacc)
    as (ps1 & Hg1 & Hrun).
  pose proof (holds_identity_loadPlugin w pluginId P (ps_name ps) pluginId force
                s _ _ ltac:(by exists ps) Hrun) as (r & Hgr & Hplr & Hnr).
  eexists. split; [exact Hrun|].
  assert (Hsvc : installServices (started (services P)) (rt_services (runtime s))
                 !! serviceType sc = Some svc).
  { apply installServices_lookup_last; [|by apply elem_of_started].
    exact (sublist_NoDup _ _ Hnd (started_keys _)). }
  split; [exact Hsvc|]. intros Hty.
  simpl in Hgr. rewrite alist_get_set, decide_True in Hgr by done.
  injection Hgr as <-.
  match type of Hrun with _ = (_, ?s1) =>
    destruct (unloadPlugin_run w' pluginId s1 (loaded_update (w_now w) ps1) P)
      as (psf2 & ps2 & _ & _ & _ & Hun)
  end.
  - unfold getPlugin. simpl. by rewrite alist_get_set, decide_True.
  - done.
  - unfold isOriginal in *. simpl in *. by rewrite Hnr.
  - exact Hplr.
  - eexists. split; [exact Hun|]. simpl. rewrite stopDeclared_lookup_any.
    rewrite decide_False; [exact Hsvc|]. intros [_ Hno]. by apply Hno.
Qed.

Lemma load_replaces_the_instance_of_an_original_service_witness :
  rt_services (runtime managerWithComponents) !! "SVC"
  = Some {| svc_ref := 5%nat; stop := None |} ∧
  ∃ s1 s2,
    loadPlugin plainWorld "uuid:p" false managerWithComponents = (Ok tt, s1) ∧
    rt_services (runtime s1) !! "SVC" = Some {| svc_ref := 30%nat; stop := None |} ∧
    unloadPlugin plainWorld "uuid:p" s1 = (Ok tt, s2) ∧
    rt_services (runtime s2) !! "SVC" = Some {| svc_ref := 30%nat; stop := None |}.
Proof.
  split; [vm_compute; reflexivity|].
  destruct (load_replaces_the_instance_of_an_original_service plainWorld plainWorld
              "uuid:p" false managerWithComponents _ pluginP svcOk
              {| svc_ref := 30%nat; stop := None |}
              ltac:(vm_compute; reflexivity) ltac:(reflexivity)
              ltac:(right; by left) ltac:(vm_compute; reflexivity)
              ltac:(discriminate) ltac:(reflexivity)
              ltac:(by_evaluation) ltac:(by_evaluation) ltac:(reflexivity))
    as (s1 & Hload & Hs1 & Hun).
  destruct (Hun ltac:(by_evaluation)) as (s2 & Hunload & Hs2).
  by exists s1, s2.
Defined.
